(** * run-aider: credential resolution, selection wizard and command builder

    A shallow embedding of [run-aider.py].  The module-level globals of the
    script (VENDORS, VENDOR_KEY_SOURCE, SELECT_RESULT, ...), the process
    environment, the key files, the operator's keyboard and the external
    tool are the fields of one [state] record; every function of the script
    is a function on that state with the script's name. *)

From Stdlib Require Import Ascii String ZArith Lia.
From stdpp Require Import base option list strings pretty gmap.

Local Open Scope string_scope.
Local Open Scope list_scope.
Local Open Scope nat_scope.

(** ** Python string helpers (ASCII) *)

Module Py.

(** A character of the model is a code point below 256.

    [str.isspace] there: TAB..CR, FS..US, the space, NEL (133) and the
    no-break space (160). *)
Definition is_space (c : ascii) : bool :=
  let n := nat_of_ascii c in
  ((9 <=? n) && (n <=? 13)) || ((28 <=? n) && (n <=? 32))
  || (n =? 133) || (n =? 160).

Fixpoint lstrip (s : string) : string :=
  match s with
  | String c s' => if is_space c then lstrip s' else s
  | EmptyString => EmptyString
  end.

Fixpoint rstrip (s : string) : string :=
  match s with
  | String c s' =>
      match rstrip s' with
      | EmptyString => if is_space c then EmptyString else String c EmptyString
      | r => String c r
      end
  | EmptyString => EmptyString
  end.

(** [s.strip()] *)
Definition strip (s : string) : string := rstrip (lstrip s).

(** [s.startswith(c)] for a one-character prefix. *)
Definition startswith (c : ascii) (s : string) : bool :=
  match s with
  | String c' _ => Ascii.eqb c c'
  | EmptyString => false
  end.

Definition is_digit (c : ascii) : bool :=
  let n := nat_of_ascii c in (48 <=? n) && (n <=? 57).

Fixpoint all_digits (s : string) : bool :=
  match s with
  | String c s' => is_digit c && all_digits s'
  | EmptyString => true
  end.

(** [s.isdigit()] for a line typed in decimal digits: non-empty and only
    the digits 0..9.  The three superscript digits below 256 are told apart by
    [str_isdigit]. *)
Definition isdigit (s : string) : bool :=
  match s with
  | EmptyString => false
  | _ => all_digits s
  end.

(** [str.isdigit] for one character below 256: the decimal digits and the
    superscripts two, three (178, 179) and one (185), which [int] refuses. *)
Definition is_digit_like (c : ascii) : bool :=
  let n := nat_of_ascii c in
  is_digit c || (n =? 178) || (n =? 179) || (n =? 185).

Fixpoint all_digit_like (s : string) : bool :=
  match s with
  | String c s' => is_digit_like c && all_digit_like s'
  | EmptyString => true
  end.

(** [s.isdigit()] on every string of the model. *)
Definition str_isdigit (s : string) : bool :=
  match s with
  | EmptyString => false
  | _ => all_digit_like s
  end.

(** [int(s)] raises ValueError on more digits than this
    (sys.int_info.default_max_str_digits). *)
Definition max_str_digits : nat := 4300.

Fixpoint int_acc (acc : nat) (s : string) : nat :=
  match s with
  | String c s' => int_acc (10 * acc + (nat_of_ascii c - 48)) s'
  | EmptyString => acc
  end.

(** [int(s)] for a string of at most [max_str_digits] decimal digits. *)
Definition int (s : string) : nat := int_acc 0 s.

Definition upper_char (c : ascii) : ascii :=
  let n := nat_of_ascii c in
  if (97 <=? n) && (n <=? 122) then ascii_of_nat (n - 32) else c.

(** [s.upper()], for the ASCII labels the script applies it to. *)
Fixpoint upper (s : string) : string :=
  match s with
  | String c s' => String (upper_char c) (upper s')
  | EmptyString => EmptyString
  end.

(** The regular-expression class [\w] of a str pattern, below 256: the
    ASCII letters, digits and underscore, and the letters and numbers of the
    upper half (all of 170..255 but the signs listed). *)
Definition is_word (c : ascii) : bool :=
  let n := nat_of_ascii c in
  is_digit c || ((65 <=? n) && (n <=? 90)) || ((97 <=? n) && (n <=? 122))
  || (n =? 95)
  || (n =? 170) || (n =? 178) || (n =? 179) || (n =? 181) || (n =? 185)
  || (n =? 186) || ((188 <=? n) && (n <=? 190))
  || ((192 <=? n) && (n <=? 214)) || ((216 <=? n) && (n <=? 246))
  || ((248 <=? n) && (n <=? 255)).

Definition is_quote (c : ascii) : bool :=
  (nat_of_ascii c =? 34) || (nat_of_ascii c =? 39).

(** The longest prefix of word characters and what follows it. *)
Fixpoint span_word (s : string) : string * string :=
  match s with
  | String c s' =>
      if is_word c then let '(w, r) := span_word s' in (String c w, r)
      else (EmptyString, s)
  | EmptyString => (EmptyString, EmptyString)
  end.

Definition drop_leading_quote (s : string) : string :=
  match s with
  | String c s' => if is_quote c then s' else s
  | EmptyString => EmptyString
  end.

Fixpoint drop_trailing_quote (s : string) : string :=
  match s with
  | String c EmptyString => if is_quote c then EmptyString else s
  | String c s' => String c (drop_trailing_quote s')
  | EmptyString => EmptyString
  end.

Definition is_newline (c : ascii) : bool := nat_of_ascii c =? 10.

(** [$] also matches before one final line feed. *)
Fixpoint drop_final_newline (s : string) : string :=
  match s with
  | String c EmptyString => if is_newline c then EmptyString else s
  | String c s' => String c (drop_final_newline s')
  | EmptyString => EmptyString
  end.

Fixpoint has_newline (s : string) : bool :=
  match s with
  | String c s' => is_newline c || has_newline s'
  | EmptyString => false
  end.

(** [re.match(r'^(\w+)=["\']?(.*?)["\']?$', line)]: groups 1 and 2.
    [\w+] followed by [=] can only be the longest word prefix; the greedy
    optional quote takes a leading quote, and the lazy group stops before a
    final quote when there is one.  The dot matches no line feed, so there is
    no match when one is left before the end. *)
Definition match_assignment (line : string) : option (string * string) :=
  match span_word line with
  | (String c w, String "=" rest) =>
      let rest := drop_final_newline rest in
      if has_newline rest then None
      else Some (String c w, drop_trailing_quote (drop_leading_quote rest))
  | _ => None
  end.

End Py.

(** ** Data model *)

(** Entries of VENDOR_KEY_SOURCE: the strings "env", "file" and "unset". *)
Inductive source := Env | File | Unset.

Global Instance source_eq_dec : EqDecision source.
Proof. solve_decision. Defined.
Global Instance source_inhabited : Inhabited source := populate Unset.

Definition source_str (k : source) : string :=
  match k with Env => "env" | File => "file" | Unset => "unset" end.

(** Entries of VENDOR_API_KEY_VARS: a variable name, or (for GOOGLE) a list
    of names; [isinstance(api_key_vars, list)] is the match on this type. *)
Inductive key_vars :=
| Name (var : string)
| Names (vars : list string).

Global Instance key_vars_inhabited : Inhabited key_vars := populate (Name EmptyString).

(** Lines written by [print]: menu titles, numbered menu entries
    ([f"{n}. {label}"]), lines sent to stderr, the command shown by the launch
    confirmation, and the command handed to [subprocess.run]. *)
Inductive event :=
| Title (t : string)
| Item (n : nat) (label : string)
| Stdout (line : string)
| Stderr (line : string)
| Command (cmd : list string)
| Spawn (cmd : list string).

(** Result of [subprocess.run]. *)
Inductive run_result :=
| Returncode (rc : Z)
| FileNotFound
| OtherException (e : string).

(** The external tool, indexed by the number of the [launch_aider] call:
    the probe [command -v aider] and the run of the assembled command. *)
Record tool := {
  command_v : nat -> run_result;
  run_aider : nat -> list string -> run_result
}.

Record state := {
  VENDORS : list string;
  VENDOR_MODELS : gmap string (list string);
  CODE_EDIT_FORMATS : list string;
  ARCHITECT_EDIT_FORMATS : list string;
  VENDOR_API_KEY_VARS : list key_vars;
  VENDOR_KEY_SOURCE : list source;
  SELECT_RESULT : option string;
  environ : gmap string string;      (* os.environ *)
  files : gmap string (list string); (* regular files, as the lines read *)
  read_error : gmap string string;   (* the exception that reading a file
                                        raises after these lines, if any *)
  home : string;                     (* os.path.expanduser("~") *)
  external : tool;
  launches : nat;                    (* calls of launch_aider so far *)
  stdin : list string;               (* lines the operator will type *)
  trace : list event
}.

Definition set_config (vs : list string) (ms : gmap string (list string))
    (cf af : list string) (kv : list key_vars) (ks : list source)
    (s : state) : state :=
  {| VENDORS := vs; VENDOR_MODELS := ms; CODE_EDIT_FORMATS := cf;
     ARCHITECT_EDIT_FORMATS := af; VENDOR_API_KEY_VARS := kv;
     VENDOR_KEY_SOURCE := ks; SELECT_RESULT := SELECT_RESULT s;
     environ := environ s; files := files s;
     read_error := read_error s; home := home s;
     external := external s; launches := launches s; stdin := stdin s;
     trace := trace s |}.

Definition set_VENDOR_KEY_SOURCE (ks : list source) (s : state) : state :=
  {| VENDORS := VENDORS s; VENDOR_MODELS := VENDOR_MODELS s;
     CODE_EDIT_FORMATS := CODE_EDIT_FORMATS s;
     ARCHITECT_EDIT_FORMATS := ARCHITECT_EDIT_FORMATS s;
     VENDOR_API_KEY_VARS := VENDOR_API_KEY_VARS s;
     VENDOR_KEY_SOURCE := ks; SELECT_RESULT := SELECT_RESULT s;
     environ := environ s; files := files s;
     read_error := read_error s; home := home s;
     external := external s; launches := launches s; stdin := stdin s;
     trace := trace s |}.

Definition set_SELECT_RESULT (r : option string) (s : state) : state :=
  {| VENDORS := VENDORS s; VENDOR_MODELS := VENDOR_MODELS s;
     CODE_EDIT_FORMATS := CODE_EDIT_FORMATS s;
     ARCHITECT_EDIT_FORMATS := ARCHITECT_EDIT_FORMATS s;
     VENDOR_API_KEY_VARS := VENDOR_API_KEY_VARS s;
     VENDOR_KEY_SOURCE := VENDOR_KEY_SOURCE s; SELECT_RESULT := r;
     environ := environ s; files := files s;
     read_error := read_error s; home := home s;
     external := external s; launches := launches s; stdin := stdin s;
     trace := trace s |}.

Definition set_environ (e : gmap string string) (s : state) : state :=
  {| VENDORS := VENDORS s; VENDOR_MODELS := VENDOR_MODELS s;
     CODE_EDIT_FORMATS := CODE_EDIT_FORMATS s;
     ARCHITECT_EDIT_FORMATS := ARCHITECT_EDIT_FORMATS s;
     VENDOR_API_KEY_VARS := VENDOR_API_KEY_VARS s;
     VENDOR_KEY_SOURCE := VENDOR_KEY_SOURCE s;
     SELECT_RESULT := SELECT_RESULT s;
     environ := e; files := files s;
     read_error := read_error s; home := home s;
     external := external s; launches := launches s; stdin := stdin s;
     trace := trace s |}.

Definition set_launches (n : nat) (s : state) : state :=
  {| VENDORS := VENDORS s; VENDOR_MODELS := VENDOR_MODELS s;
     CODE_EDIT_FORMATS := CODE_EDIT_FORMATS s;
     ARCHITECT_EDIT_FORMATS := ARCHITECT_EDIT_FORMATS s;
     VENDOR_API_KEY_VARS := VENDOR_API_KEY_VARS s;
     VENDOR_KEY_SOURCE := VENDOR_KEY_SOURCE s;
     SELECT_RESULT := SELECT_RESULT s;
     environ := environ s; files := files s;
     read_error := read_error s; home := home s;
     external := external s; launches := n; stdin := stdin s;
     trace := trace s |}.

Definition set_stdin (l : list string) (s : state) : state :=
  {| VENDORS := VENDORS s; VENDOR_MODELS := VENDOR_MODELS s;
     CODE_EDIT_FORMATS := CODE_EDIT_FORMATS s;
     ARCHITECT_EDIT_FORMATS := ARCHITECT_EDIT_FORMATS s;
     VENDOR_API_KEY_VARS := VENDOR_API_KEY_VARS s;
     VENDOR_KEY_SOURCE := VENDOR_KEY_SOURCE s;
     SELECT_RESULT := SELECT_RESULT s;
     environ := environ s; files := files s;
     read_error := read_error s; home := home s;
     external := external s; launches := launches s; stdin := l;
     trace := trace s |}.

(** [print(...)]: one more line on the trace. *)
Definition emit (e : event) (s : state) : state :=
  {| VENDORS := VENDORS s; VENDOR_MODELS := VENDOR_MODELS s;
     CODE_EDIT_FORMATS := CODE_EDIT_FORMATS s;
     ARCHITECT_EDIT_FORMATS := ARCHITECT_EDIT_FORMATS s;
     VENDOR_API_KEY_VARS := VENDOR_API_KEY_VARS s;
     VENDOR_KEY_SOURCE := VENDOR_KEY_SOURCE s;
     SELECT_RESULT := SELECT_RESULT s;
     environ := environ s; files := files s;
     read_error := read_error s; home := home s;
     external := external s; launches := launches s; stdin := stdin s;
     trace := trace s ++ [e] |}.

Definition emits (es : list event) (s : state) : state := foldl (flip emit) s es.

(** [os.environ.get(var)] used as a condition: set and not empty. *)
Definition env_set (s : state) (var : string) : bool :=
  match environ s !! var with
  | Some v => negb (String.eqb v EmptyString)
  | None => false
  end.

(** [VENDORS.index(vendor)]; [None] is the ValueError. *)
Definition index (vendor : string) (l : list string) : option nat :=
  fst <$> list_find (eq vendor) l.

(** [enumerate(l)] *)
Definition enumerate {A} (l : list A) : list (nat * A) := imap pair l.

(** ** Configuration (the validated content of aider_config.json) *)

Record config := {
  cfg_vendors : list string;
  cfg_models : gmap string (list string);
  cfg_code : list string;
  cfg_architect : list string
}.

Definition GOOGLE_VARS : list string := ["GEMINI_API_KEY"; "GOOGLE_API_KEY"].

(** The comprehension [f"{vendor}_API_KEY" for vendor in VENDORS], with the
    entry of the first "GOOGLE" replaced by the two Google names. *)
Definition api_key_vars_of (vendors : list string) : list key_vars :=
  let vars := (λ vendor, Name (vendor +:+ "_API_KEY")) <$> vendors in
  match index "GOOGLE" vendors with
  | Some google_index => <[google_index := Names GOOGLE_VARS]> vars
  | None => vars
  end.

(** The globals are set from the loaded configuration; the message names
    the configuration file in the script. *)
Definition initialize_configuration (c : config) (s : state) : state :=
  let s := set_config (cfg_vendors c) (cfg_models c) (cfg_code c)
             (cfg_architect c) (api_key_vars_of (cfg_vendors c))
             (replicate (length (cfg_vendors c)) Unset) s in
  emit (Stdout "Configuration loaded successfully") s.

(** ** API key loading

    The parallel lists are indexed with [!!!]; Python would raise IndexError
    out of range, which cannot happen: the indices come from [enumerate] or
    [index] over lists of the length of VENDORS (lemma [parallel_load]). *)

Definition mark (i : nat) (k : source) (s : state) : state :=
  set_VENDOR_KEY_SOURCE (<[i := k]> (VENDOR_KEY_SOURCE s)) s.

Definition setenv (var value : string) (s : state) : state :=
  set_environ (<[var := value]> (environ s)) s.

(** The loop [for var in api_key_vars] of [_load_keys_from_env], for the
    vendor at index [i]; the boolean is [found_key]. *)
Fixpoint env_names_loop (vendor : string) (i : nat) (vars : list string)
    (s : state) : bool * state :=
  match vars with
  | [] => (false, s)
  | var :: vars' =>
      if env_set s var then
        let s :=
          if String.eqb var "GOOGLE_API_KEY" && negb (env_set s "GEMINI_API_KEY")
          then emit (Stdout ("Using GOOGLE_API_KEY from environment for " +:+ vendor))
                 (setenv "GEMINI_API_KEY" (environ s !!! "GOOGLE_API_KEY") s)
          else if String.eqb var "GEMINI_API_KEY"
          then emit (Stdout ("Using GEMINI_API_KEY from environment for " +:+ vendor)) s
          else s in
        (true, mark i Env s)
      else env_names_loop vendor i vars' s
  end.

(** One iteration of [for i, vendor in enumerate(VENDORS)]. *)
Definition env_vendor_body (acc : bool * state) (iv : nat * string) : bool * state :=
  let '(all_found, s) := acc in
  let '(i, vendor) := iv in
  match VENDOR_API_KEY_VARS s !!! i with
  | Names vars =>
      let '(found_key, s) := env_names_loop vendor i vars s in
      if found_key then (all_found, s) else (false, mark i Unset s)
  | Name var =>
      if env_set s var then (all_found, mark i Env s)
      else (false, mark i Unset s)
  end.

Definition _load_keys_from_env (s : state) : bool * state :=
  let s := emit (Stdout "Checking environment variables for API keys...") s in
  let '(all_found, s) := foldl env_vendor_body (true, s) (enumerate (VENDORS s)) in
  if all_found
  then (true, emit (Stdout "All required API keys found in environment variables.") s)
  else (false, emit (Stdout "One or more API keys not found in environment variables. Will check files.") s).

Definition isfile (s : state) (path : string) : bool :=
  bool_decide (is_Some (files s !! path)).

Definition secondary_keys_file (s : state) : string := home s +:+ "/.llm_api_keys".

Definition _find_keys_file (s : state) : option string :=
  let primary_file := environ s !! "PRIMARY_KEYS_FILE" in
  let secondary_file := secondary_keys_file s in
  match primary_file with
  | Some p =>
      if negb (String.eqb p EmptyString) && isfile s p then Some p
      else if isfile s secondary_file then Some secondary_file else None
  | None => if isfile s secondary_file then Some secondary_file else None
  end.

(** Does the name read from the file belong to this entry? *)
Definition names_var (var_name : string) (vendor_vars : key_vars) : bool :=
  match vendor_vars with
  | Names vars => bool_decide (var_name ∈ vars)
  | Name var => String.eqb var_name var
  end.

(** [os.environ[var_name] = var_value] raises ValueError, with this text,
    when the value holds a NUL; nothing is written then. *)
Definition has_nul (value : string) : bool :=
  existsb (λ c, nat_of_ascii c =? 0) (list_ascii_of_string value).

Definition EMBEDDED_NULL : string := "embedded null byte".

(** The loop [for i, vendor_vars in enumerate(VENDOR_API_KEY_VARS)] of
    [_load_keys_from_file], which stops at the first entry naming [var_name].
    The first component is the exception raised, if any. *)
Fixpoint file_vars_loop (var_name var_value : string)
    (ivs : list (nat * key_vars)) (s : state) : option string * state :=
  match ivs with
  | [] => (None, s)
  | (i, vendor_vars) :: ivs' =>
      if names_var var_name vendor_vars then
        let s := if decide (VENDOR_KEY_SOURCE s !!! i = Unset) then mark i File s else s in
        if has_nul var_value then (Some EMBEDDED_NULL, s)
        else (None, setenv var_name var_value s)
      else file_vars_loop var_name var_value ivs' s
  end.

(** One iteration of [for line in f]. *)
Definition file_line_body (s : state) (line : string) : option string * state :=
  let line := Py.strip line in
  if String.eqb line EmptyString || Py.startswith "#" line then (None, s)
  else match Py.match_assignment line with
       | Some (var_name, var_value) =>
           file_vars_loop var_name var_value (enumerate (VENDOR_API_KEY_VARS s)) s
       | None => (None, s)
       end.

(** [for line in f], left at the first exception. *)
Fixpoint file_lines_loop (lines : list string) (s : state) : option string * state :=
  match lines with
  | [] => (None, s)
  | line :: lines' =>
      match file_line_body s line with
      | (Some e, s) => (Some e, s)
      | (None, s) => file_lines_loop lines' s
      end
  end.

(** The body of the [try] is the loop over the lines the file gives, then
    the exception of the file itself, if it has one; [except Exception]
    prints the warning and the function returns. *)
Definition _load_keys_from_file (keys_file_path : string) (s : state) : state :=
  match files s !! keys_file_path with
  | None => emit (Stderr ("Error: Keys file not found at path: " +:+ keys_file_path)) s
  | Some lines =>
      let s := emit (Stdout ("Loading API keys from file: " +:+ keys_file_path)) s in
      let '(raised, s) := file_lines_loop lines s in
      let raised :=
        match raised with
        | Some e => Some e
        | None => read_error s !! keys_file_path
        end in
      match raised with
      | Some e =>
          emit (Stderr ("Warning: Could not parse API keys file " +:+ keys_file_path
                        +:+ ": " +:+ e)) s
      | None => s
      end
  end.

Definition load_api_keys (s : state) : state :=
  let s := emit (Stdout "Attempting to load API keys...") s in
  let s := snd (_load_keys_from_env s) in
  let keys_file_path := _find_keys_file s in
  let s := match keys_file_path with
           | Some p => _load_keys_from_file p s
           | None => s
           end in
  emit (Stdout "API key loading process complete.") s.

(** ** The monad of the interactive part

    A computation runs on the state and ends with a value, with [sys.exit],
    with an exception nobody catches, or not at all. *)

Inductive exn := EOFError | SpawnError.

Inductive outcome (A : Type) :=
| Ok (a : A) (s : state)
| Exit (code : Z) (s : state)
| Uncaught (e : exn) (s : state)
| Diverge.
Arguments Ok {A} a s.
Arguments Exit {A} code s.
Arguments Uncaught {A} e s.
Arguments Diverge {A}.

Definition M (A : Type) : Type := state -> outcome A.

Definition ret {A} (a : A) : M A := fun s => Ok a s.

Definition bind {A B} (m : M A) (k : A -> M B) : M B := fun s =>
  match m s with
  | Ok a s' => k a s'
  | Exit c s' => Exit c s'
  | Uncaught e s' => Uncaught e s'
  | Diverge => Diverge
  end.

Declare Scope py_scope.
Delimit Scope py_scope with py.
Notation "x <- m ; k" := (bind m (fun x => k))
  (at level 100, m at next level, right associativity) : py_scope.
Notation "m ;; k" := (bind m (fun _ => k))
  (at level 100, right associativity) : py_scope.
Local Open Scope py_scope.

(** [print] *)
Definition say (e : event) : M unit := fun s => Ok tt (emit e s).

Definition says (es : list event) : M unit := fun s => Ok tt (emits es s).

(** [input(prompt)]: the next line of the operator, EOFError at the end. *)
Definition input : M string := fun s =>
  match stdin s with
  | line :: rest => Ok line (set_stdin rest s)
  | [] => Uncaught EOFError s
  end.

Definition sys_exit {A} (code : Z) : M A := fun s => Exit code s.

Definition get {A} (f : state -> A) : M A := fun s => Ok (f s) s.

Definition put_SELECT_RESULT (r : option string) : M unit :=
  fun s => Ok tt (set_SELECT_RESULT r s).

(** What the body of a [while True] loop does at its end: [continue],
    [break] (with the locals the code after the loop reads), or [return]. *)
Inductive ctl (B R : Type) :=
| Continue
| Break (b : B)
| Return (r : R).
Arguments Continue {B R}.
Arguments Break {B R} b.
Arguments Return {B R} r.

Fixpoint while_fuel {B R} (n : nat) (body : M (ctl B R)) : M (B + R) := fun s =>
  match n with
  | O => Diverge
  | S n' =>
      match body s with
      | Ok Continue s' => while_fuel n' body s'
      | Ok (Break b) s' => Ok (inl b) s'
      | Ok (Return r) s' => Ok (inr r) s'
      | Exit c s' => Exit c s'
      | Uncaught e s' => Uncaught e s'
      | Diverge => Diverge
      end
  end.

(** [while True: body].  Every loop of the script reads a line in each
    iteration that continues, so one more iteration than there are lines
    left is enough (lemmas [runs_while] and [main_loop_ends]). *)
Definition while_true {B R} (body : M (ctl B R)) : M (B + R) := fun s =>
  while_fuel (S (length (stdin s))) body s.

(** The code after a loop: runs on [break], skipped on [return]. *)
Definition after {B R} (loop : M (B + R)) (k : B -> M R) : M R :=
  r <- loop;
  match r with
  | inl b => k b
  | inr r => ret r
  end.
Notation "x <~ loop ; k" := (after loop (fun x => k))
  (at level 100, loop at next level, right associativity) : py_scope.

(** ** Menus *)

Definition TITLE_MODE_SELECT : string := "                         SELECT AIDER OPERATING MODE                          ".
Definition TITLE_CODE_VENDOR : string := "                           SELECT CODE MODE VENDOR                            ".
Definition TITLE_CODE_MODEL : string := "                            SELECT CODE MODE MODEL                             ".
Definition TITLE_ARCH_VENDOR : string := "                         SELECT ARCHITECT MODE VENDOR                         ".
Definition TITLE_ARCH_MODEL : string := "                          SELECT ARCHITECT MODE MODEL                          ".
Definition TITLE_EDITOR_VENDOR : string := "                            SELECT EDITOR VENDOR                             ".
Definition TITLE_EDITOR_MODEL : string := "                             SELECT EDITOR MODEL                              ".
Definition TITLE_CODE_FORMAT : string := "                         SELECT CODE MODE EDIT FORMAT                         ".
Definition TITLE_ARCH_FORMAT : string := "                       SELECT ARCHITECT EDIT FORMAT                         ".
Definition TITLE_LAUNCH_CODE : string := "                         LAUNCHING AIDER: CODE MODE                          ".
Definition TITLE_LAUNCH_ARCH : string := "                       LAUNCHING AIDER: ARCHITECT MODE                       ".

Definition nl : string := String (ascii_of_nat 10) EmptyString.

(** [any(os.environ.get(var) for var in api_key_vars)] as the loops of
    [check_api_key] compute it. *)
Definition api_key_set (s : state) (api_key_vars : key_vars) : bool :=
  match api_key_vars with
  | Names vars => existsb (env_set s) vars
  | Name var => env_set s var
  end.

(** The lines [check_api_key] sends to stderr before it exits. *)
Definition check_api_key_report (s : state) (vendor : string)
    (api_key_vars : key_vars) (key_source : source) : list event :=
  [ Stderr (nl +:+ "Error: API key for " +:+ vendor +:+ " is not set or could not be loaded.");
    Stderr ("Source status: " +:+ source_str key_source) ]
  ++ (if String.eqb vendor "GOOGLE" then
        [ Stderr "Please ensure it is defined either as an environment variable (GEMINI_API_KEY or GOOGLE_API_KEY)";
          Stderr "or within your API keys file (GEMINI_API_KEY or GOOGLE_API_KEY).";
          Stderr "Checked locations:";
          Stderr "  - Environment Variable: GEMINI_API_KEY";
          Stderr "  - Environment Variable: GOOGLE_API_KEY" ]
      else
        let shown := match api_key_vars with
                     | Name var => var
                     | Names vars => "[" +:+ String.concat ", " ((λ v, "'" +:+ v +:+ "'") <$> vars) +:+ "]"
                     end in
        [ Stderr ("Please ensure it is defined either as an environment variable (" +:+ shown +:+ ")");
          Stderr "or within your API keys file.";
          Stderr "Checked locations:";
          Stderr ("  - Environment Variable: " +:+ shown) ])
  ++ [ match environ s !! "PRIMARY_KEYS_FILE" with
       | Some p =>
           if String.eqb p EmptyString then Stderr "  - Primary Keys File (env): $PRIMARY_KEYS_FILE (not set)"
           else Stderr ("  - Primary Keys File (env): $PRIMARY_KEYS_FILE -> " +:+ p)
       | None => Stderr "  - Primary Keys File (env): $PRIMARY_KEYS_FILE (not set)"
       end;
       Stderr ("  - Secondary Keys File (default): " +:+ secondary_keys_file s) ].

Definition check_api_key (vendor : string) : M unit := fun s =>
  match index vendor (VENDORS s) with
  | Some vendor_index =>
      let api_key_vars := VENDOR_API_KEY_VARS s !!! vendor_index in
      let key_source := VENDOR_KEY_SOURCE s !!! vendor_index in
      if negb (api_key_set s api_key_vars) || bool_decide (key_source = Unset) then
        (says (check_api_key_report s vendor api_key_vars key_source);;
         sys_exit 1%Z) s
      else Ok tt s
  | None =>
      (say (Stderr ("Error: Unknown vendor '" +:+ vendor +:+ "' passed to check_api_key."));;
       sys_exit 1%Z) s
  end.

(** [[v for i, v in enumerate(VENDORS) if VENDOR_KEY_SOURCE[i] != "unset"]] *)
Definition available_vendors (s : state) : list string :=
  snd <$> List.filter
            (λ iv, negb (bool_decide (VENDOR_KEY_SOURCE s !!! iv.1 = Unset)))
            (enumerate (VENDORS s)).

Definition is_back (choice : string) : bool :=
  String.eqb choice EmptyString || String.eqb choice "0".

Definition invalid_choice : M unit :=
  say (Stderr "Invalid choice.");;
  _ <- input;
  put_SELECT_RESULT (Some "invalid").

(** The menu of [select_entity] once [entities] and [menu_title] are known. *)
Definition entity_menu (entity_type role_label : string) (vendor : option string)
    (entities : list string) (menu_title : string) : M unit :=
  let menu_title :=
    if String.eqb menu_title EmptyString then
      "         SELECT " +:+ Py.upper role_label +:+ " " +:+ Py.upper entity_type +:+ "         "
    else menu_title in
  let num_entities := length entities in
  say (Title menu_title);;
  if num_entities =? 0 then
    (if String.eqb entity_type "vendor" then
       say (Stdout "No vendors found with loaded API keys.");;
       say (Stdout "Please ensure you have set API keys in environment variables or a keys file.")
     else
       say (Stdout ("No models available for the selected vendor: " +:+ default "None" vendor)));;
    say (Item 0 "Back");;
    line <- input;
    let choice := Py.strip line in
    if is_back choice then put_SELECT_RESULT None
    else invalid_choice
  else
    says ((λ ie, Item (ie.1 + 1) ie.2) <$> enumerate entities);;
    (if String.eqb entity_type "vendor" && String.eqb role_label "Editor"
     then say (Item 9 "Use same VENDOR and MODEL as Architect")
     else ret tt);;
    say (Item 0 "Back");;
    line <- input;
    let choice := Py.strip line in
    put_SELECT_RESULT None;;
    if is_back choice then put_SELECT_RESULT None
    else if String.eqb entity_type "vendor" && String.eqb role_label "Editor"
            && String.eqb choice "9"
    then put_SELECT_RESULT (Some "default")
    else if Py.isdigit choice then
      let choice_index := (Z.of_nat (Py.int choice) - 1)%Z in
      if ((0 <=? choice_index)%Z && (choice_index <? Z.of_nat num_entities)%Z)%bool
      then put_SELECT_RESULT (entities !! Z.to_nat choice_index)
      else invalid_choice
    else invalid_choice.

Definition role_title (role_label for_code for_arch for_editor : string) : string :=
  if String.eqb role_label "Code" then for_code
  else if String.eqb role_label "Architect" then for_arch
  else if String.eqb role_label "Editor" then for_editor
  else EmptyString.

Definition select_entity (entity_type role_label : string)
    (vendor : option string) : M unit :=
  if String.eqb entity_type "vendor" then
    entities <- get available_vendors;
    entity_menu entity_type role_label vendor entities
      (role_title role_label TITLE_CODE_VENDOR TITLE_ARCH_VENDOR TITLE_EDITOR_VENDOR)
  else if String.eqb entity_type "model" then
    match vendor with
    | None =>
        say (Stderr "Error: Vendor must be provided when selecting a model.");;
        put_SELECT_RESULT (Some "invalid")
    | Some v =>
        entities <- get (λ s, default [] (VENDOR_MODELS s !! v));
        entity_menu entity_type role_label vendor entities
          (role_title role_label TITLE_CODE_MODEL TITLE_ARCH_MODEL TITLE_EDITOR_MODEL)
    end
  else
    say (Stderr ("Error: Invalid entity type: " +:+ entity_type));;
    put_SELECT_RESULT (Some "invalid").

Definition select_edit_format (mode : string) : M unit :=
  if String.eqb mode "code" || String.eqb mode "architect" then
    formats <- get (if String.eqb mode "code" then CODE_EDIT_FORMATS
                    else ARCHITECT_EDIT_FORMATS);
    let menu_title := if String.eqb mode "code" then TITLE_CODE_FORMAT
                      else TITLE_ARCH_FORMAT in
    let display_options := "Default (Aider chooses)" :: formats in
    let num_options := length display_options in
    say (Title menu_title);;
    says ((λ io, Item (io.1 + 1) io.2) <$> enumerate display_options);;
    say (Item 0 "Back");;
    line <- input;
    let choice := Py.strip line in
    put_SELECT_RESULT None;;
    if is_back choice then put_SELECT_RESULT None
    else if Py.isdigit choice then
      let choice_index := (Z.of_nat (Py.int choice) - 1)%Z in
      if ((0 <=? choice_index)%Z && (choice_index <? Z.of_nat num_options)%Z)%bool then
        if (choice_index =? 0)%Z then put_SELECT_RESULT (Some "default")
        else put_SELECT_RESULT (formats !! Z.to_nat (choice_index - 1))
      else invalid_choice
    else invalid_choice
  else
    say (Stderr ("Error: Invalid mode passed to select_edit_format: " +:+ mode));;
    put_SELECT_RESULT (Some "invalid").

(** ** Command builder *)

(** [None] stands for the -1 of the script. *)
Definition _get_vendor_index (s : state) (vendor_name : string) : option nat :=
  index vendor_name (VENDORS s).

(** [for var in api_key_vars: if os.environ.get(var): return os.environ.get(var)] *)
Fixpoint first_set (s : state) (vars : list string) : option string :=
  match vars with
  | [] => None
  | var :: vars' => if env_set s var then environ s !! var else first_set s vars'
  end.

Definition _get_api_key_value (vendor : string) : M (option string) := fun s =>
  match index vendor (VENDORS s) with
  | Some vendor_index =>
      match VENDOR_API_KEY_VARS s !!! vendor_index with
      | Names vars => Ok (first_set s vars) s
      | Name var => Ok (environ s !! var) s
      end
  | None =>
      (say (Stderr ("Error: Unknown vendor '" +:+ vendor +:+ "' passed to _get_api_key_value."));;
       ret None) s
  end.

(** The chain [if vendor == "GOOGLE": ... elif vendor == "ANTHROPIC": ...]
    that both builders contain, with the same four branches. *)
Definition api_key_flag (vendor api_key_value : string) : list string :=
  if String.eqb vendor "GOOGLE" then ["--api-key"; "google=" +:+ api_key_value]
  else if String.eqb vendor "ANTHROPIC" then ["--anthropic-api-key"; api_key_value]
  else if String.eqb vendor "OPENAI" then ["--openai-api-key"; api_key_value]
  else if String.eqb vendor "DEEPSEEK" then ["--deepseek-api-key"; api_key_value]
  else [].

Definition _build_main_model_args (main_vendor main_model : string)
    : M (list string) := fun s =>
  let args_list := ["--model"; main_model] in
  match _get_vendor_index s main_vendor with
  | Some vendor_index =>
      let key_source := VENDOR_KEY_SOURCE s !!! vendor_index in
      if bool_decide (key_source = File) then
        let api_key_var_name :=
          match VENDOR_API_KEY_VARS s !!! vendor_index with
          | Names _ =>
              if env_set s "GEMINI_API_KEY" then Some "GEMINI_API_KEY"
              else if env_set s "GOOGLE_API_KEY" then Some "GOOGLE_API_KEY"
              else None
          | Name var => Some var
          end in
        match api_key_var_name with
        | Some var =>
            if negb (String.eqb var EmptyString) && env_set s var then
              Ok (args_list ++ api_key_flag main_vendor (environ s !!! var)) s
            else Ok args_list s
        | None => Ok args_list s
        end
      else Ok args_list s
  | None =>
      (say (Stderr ("Error: Unknown main vendor index in _build_main_model_args for: " +:+ main_vendor));;
       ret args_list) s
  end.

Definition _build_architect_args (editor_vendor editor_model : option string)
    (main_vendor : string) : M (list string) :=
  let args_list := ["--architect"] in
  match editor_model with
  | Some em =>
      if negb (String.eqb em "default") then
        let args_list := args_list ++ ["--editor-model"; em] in
        if negb (bool_decide (editor_vendor = Some "default"))
           && negb (bool_decide (editor_vendor = Some main_vendor)) then
          match editor_vendor with
          | Some ev =>
              s <- get id;
              match _get_vendor_index s ev with
              | Some editor_vendor_index =>
                  let editor_key_source := VENDOR_KEY_SOURCE s !!! editor_vendor_index in
                  if bool_decide (editor_key_source = File) then
                    editor_api_key_value <- _get_api_key_value ev;
                    match editor_api_key_value with
                    | Some v =>
                        if negb (String.eqb v EmptyString) then ret (args_list ++ api_key_flag ev v)
                        else ret args_list
                    | None => ret args_list
                    end
                  else ret args_list
              | None =>
                  say (Stderr ("Error: Unknown editor vendor index in _build_architect_args for: " +:+ ev));;
                  ret args_list
              end
          | None =>
              say (Stderr "Error: Unknown editor vendor index in _build_architect_args for: None");;
              ret args_list
          end
        else ret args_list
      else ret args_list
  | None => ret args_list
  end.

Definition _build_code_args : list string := ["--chat-mode"; "code"].

(** ** Launch confirmation and the wizard *)

(** A loop that is only left by [break]. *)
Definition until_break {B} (loop : M (B + Empty_set)) : M B :=
  r <- loop;
  match r with
  | inl b => ret b
  | inr e => match e with end
  end.

(** A loop that is only left by [return]. *)
Definition forever {R} (body : M (ctl Empty_set R)) : M R :=
  after (while_true body) (λ b : Empty_set, match b with end).

(** [--edit-format] is added at each rendering, not by the mode builders. *)
Definition format_args (selected_format : option string) : list string :=
  match selected_format with
  | Some f => if negb (String.eqb f "default") then ["--edit-format"; f] else []
  | None => []
  end.

(** One pass through the pre-launch confirmation loop; [n] numbers this
    call of [launch_aider] for the external tool.  The display of
    ~/.aider.conf.yml and the wrapping of the command line are left out. *)
Definition confirm_step (n : nat) (launch_title : string) (cmd_list : list string)
    (selected_format : option string) : M (ctl Empty_set Z) :=
  let current_cmd_list := cmd_list ++ format_args selected_format in
  say (Title launch_title);;
  say (Command current_cmd_list);;
  say (Item 1 "Launch Aider with this command (Default: Enter)");;
  say (Item 2 "Back to Edit Format Selection");;
  say (Item 0 "Back to Main Menu (Mode Selection)");;
  line <- input;
  let confirm_choice := if String.eqb (Py.strip line) EmptyString then "1" else Py.strip line in
  if String.eqb confirm_choice "1" then
    say (Spawn current_cmd_list);;
    tool <- get external;
    match run_aider tool n current_cmd_list with
    | Returncode exit_status =>
        if negb (exit_status =? 0)%Z then
          say (Stderr ("Error: aider command failed with exit status "
                       +:+ pretty exit_status +:+ "."));;
          _ <- input;
          ret (Return 1%Z)
        else ret (Return 0%Z)
    | FileNotFound =>
        say (Stderr (nl +:+ "Error: 'aider' command not found. Is it installed and in your PATH?"));;
        _ <- input;
        ret (Return 1%Z)
    | OtherException e =>
        say (Stderr (nl +:+ "An error occurred while trying to launch aider: " +:+ e));;
        _ <- input;
        ret (Return 1%Z)
    end
  else if String.eqb confirm_choice "2" then ret (Return 2%Z)
  else if String.eqb confirm_choice "0" then ret (Return 1%Z)
  else
    say (Stderr "Invalid choice. Press Enter to try again...");;
    _ <- input;
    ret Continue.

Definition launch_aider (mode main_vendor main_model : string)
    (editor_vendor editor_model selected_format : option string) : M Z :=
  let cmd_list := ["aider"] in
  main_args <- _build_main_model_args main_vendor main_model;
  let cmd_list := cmd_list ++ main_args in
  mode_args <- (if String.eqb mode "architect"
                then _build_architect_args editor_vendor editor_model main_vendor
                else ret _build_code_args);
  let cmd_list := cmd_list ++ mode_args in
  let launch_title := if String.eqb mode "architect" then TITLE_LAUNCH_ARCH
                      else TITLE_LAUNCH_CODE in
  n <- get launches;
  (fun s => Ok tt (set_launches (S n) s));;
  tool <- get external;
  match command_v tool n with
  | Returncode rc =>
      if negb (rc =? 0)%Z then
        say (Stderr (nl +:+ "Error: Aider command not found."));;
        say (Stderr "Please ensure 'aider-chat' is installed and in your PATH.");;
        _ <- input;
        ret 1%Z
      else forever (confirm_step n launch_title cmd_list selected_format)
  | _ => fun s => Uncaught SpawnError s
  end.

Definition display_mode_selection_menu : M string :=
  say (Title TITLE_MODE_SELECT);;
  say (Item 1 "Code Mode");;
  say (Item 2 "Architect Mode");;
  say (Item 0 "Exit");;
  line <- input;
  ret (if String.eqb (Py.strip line) EmptyString then "0" else Py.strip line).

(** The three values a caller of the selection menus tells apart. *)
Definition on_select {B R} (invalid back : M (ctl B R))
    (chosen : string -> M (ctl B R)) : M (ctl B R) :=
  r <- get SELECT_RESULT;
  if bool_decide (r = Some "invalid") then invalid
  else match r with
       | None => back
       | Some v => chosen v
       end.

(** *** run_code_mode *)

Definition code_vendor_step : M (ctl string unit) :=
  select_entity "vendor" "Code" None;;
  on_select (ret Continue) (ret (Return tt))
    (λ main_vendor, check_api_key main_vendor;; ret (Break main_vendor)).

Definition code_model_step (main_vendor : string) : M (ctl string unit) :=
  select_entity "model" "Code" (Some main_vendor);;
  on_select (ret Continue) (ret (Return tt))
    (λ main_model, ret (Break main_model)).

Definition format_launch_step (mode main_vendor main_model : string)
    (editor_vendor editor_model : option string) : M (ctl Empty_set unit) :=
  select_edit_format mode;;
  on_select (ret Continue) (ret (Return tt))
    (λ selected_format,
       launch_status <- launch_aider mode main_vendor main_model
                          editor_vendor editor_model (Some selected_format);
       if (launch_status =? 2)%Z then ret Continue else ret (Return tt)).

Definition run_code_mode : M unit :=
  main_vendor <~ while_true code_vendor_step;
  main_model <~ while_true (code_model_step main_vendor);
  forever (format_launch_step "code" main_vendor main_model None None).

(** *** run_architect_mode *)

Definition arch_vendor_step : M (ctl string unit) :=
  select_entity "vendor" "Architect" None;;
  on_select (ret Continue) (ret (Return tt))
    (λ main_vendor, check_api_key main_vendor;; ret (Break main_vendor)).

Definition arch_model_step (main_vendor : string) : M (ctl string unit) :=
  select_entity "model" "Architect" (Some main_vendor);;
  on_select (ret Continue) (ret (Return tt))
    (λ main_model, ret (Break main_model)).

Definition editor_vendor_step : M (ctl string unit) :=
  select_entity "vendor" "Editor" None;;
  on_select (ret Continue) (ret (Return tt))
    (λ editor_vendor, ret (Break editor_vendor)).

Definition editor_model_step (editor_vendor : string) : M (ctl string unit) :=
  select_entity "model" "Editor" (Some editor_vendor);;
  on_select (ret Continue) (ret (Return tt))
    (λ editor_model, ret (Break editor_model)).

(** Step 4: the editor model, or "default" without a menu. *)
Definition editor_model_select (editor_vendor : string) : M (string + unit) :=
  if String.eqb editor_vendor "default" then ret (inl "default")
  else check_api_key editor_vendor;;
       while_true (editor_model_step editor_vendor).

Definition run_architect_mode : M unit :=
  main_vendor <~ while_true arch_vendor_step;
  main_model <~ while_true (arch_model_step main_vendor);
  editor_vendor <~ while_true editor_vendor_step;
  editor_model <~ editor_model_select editor_vendor;
  forever (format_launch_step "architect" main_vendor main_model
             (Some editor_vendor) (Some editor_model)).

(** *** main *)

(** The loop [while selected_mode is None]. *)
Definition mode_step : M (ctl string Empty_set) :=
  mode_choice <- display_mode_selection_menu;
  if String.eqb mode_choice "1" then ret (Break "code")
  else if String.eqb mode_choice "2" then ret (Break "architect")
  else if String.eqb mode_choice "0" then say (Stdout "Goodbye!");; sys_exit 0%Z
  else say (Stderr "Invalid choice. Press Enter to continue...");;
       _ <- input;
       ret Continue.

Definition main_step : M (ctl Empty_set unit) :=
  selected_mode <- until_break (while_true mode_step);
  (if String.eqb selected_mode "code" then run_code_mode
   else if String.eqb selected_mode "architect" then run_architect_mode
   else say (Stderr ("Error: Unknown mode selected: " +:+ selected_mode));;
        sys_exit 1%Z);;
  ret Continue.

(** The menu loop of [main], entered after the configuration and the keys
    were loaded. *)
Definition main_loop : M unit := forever main_step.

Definition main (c : config) : M unit := fun s =>
  main_loop (load_api_keys (initialize_configuration c s)).

(** * Vocabulary of the statements *)

Definition is_name (kv : key_vars) : Prop := ∃ var, kv = Name var.

(** The state a computation ends in, if any. *)
Definition final {A} (o : outcome A) : option state :=
  match o with
  | Ok _ s | Exit _ s | Uncaught _ s => Some s
  | Diverge => None
  end.


(** [sat o Q E]: the outcome [o] is a value satisfying [Q], or an exit
    ([Some code]) or an uncaught exception ([None]) satisfying [E]; it is
    not a divergence. *)
Definition sat {A} (o : outcome A) (Q : A → state → Prop)
    (E : option Z → state → Prop) : Prop :=
  match o with
  | Ok a s => Q a s
  | Exit code s => E (Some code) s
  | Uncaught _ s => E None s
  | Diverge => False
  end.

(** What the wizard never writes: configuration, key sources, environment,
    files and the external tool. *)
Record same_config (s s' : state) : Prop := {
  sc_VENDORS : VENDORS s' = VENDORS s;
  sc_VENDOR_MODELS : VENDOR_MODELS s' = VENDOR_MODELS s;
  sc_CODE : CODE_EDIT_FORMATS s' = CODE_EDIT_FORMATS s;
  sc_ARCH : ARCHITECT_EDIT_FORMATS s' = ARCHITECT_EDIT_FORMATS s;
  sc_VARS : VENDOR_API_KEY_VARS s' = VENDOR_API_KEY_VARS s;
  sc_SOURCE : VENDOR_KEY_SOURCE s' = VENDOR_KEY_SOURCE s;
  sc_environ : environ s' = environ s;
  sc_files : files s' = files s;
  sc_home : home s' = home s;
  sc_external : external s' = external s
}.

(** [s'] comes after [s] in a run of the wizard: same configuration, no
    line given back to the keyboard, and only events satisfying [good]
    added to the trace. *)
Definition follows (good : event → Prop) (s s' : state) : Prop :=
  same_config s s'
  ∧ length (stdin s') ≤ length (stdin s)
  ∧ ∃ es, trace s' = trace s ++ es ∧ Forall good es.

(** [runs good pre strict noexit m post]: from every state satisfying
    [pre], the computation [m] ends (it does not diverge) in a state that
    follows the initial one; a value it returns satisfies [post]; when
    [strict] it has read at least one line before returning; when [noexit]
    it does not end the process with [sys.exit]. *)
Definition runs (good : event → Prop) (pre : state → Prop)
    (strict noexit : bool) {A} (m : M A) (post : A → Prop) : Prop :=
  ∀ s, pre s →
    sat (m s)
      (λ a s', follows good s s'
               ∧ (strict = true → length (stdin s') < length (stdin s))
               ∧ post a)
      (λ c s', follows good s s' ∧ (noexit = true → c = None)).

(** The three lists indexed by vendor have the length of VENDORS. *)
Definition parallel (s : state) : Prop :=
  length (VENDOR_KEY_SOURCE s) = length (VENDORS s)
  ∧ length (VENDOR_API_KEY_VARS s) = length (VENDORS s).

(** Events other than a rendered or a spawned command. *)
Definition plain (e : event) : Prop :=
  match e with
  | Command _ | Spawn _ => False
  | _ => True
  end.

(** The value a computation returns. *)
Definition value_of {A} (o : outcome (list A)) : list A :=
  match o with
  | Ok a _ => a
  | _ => []
  end.

(** The command [launch_aider] assembles for a selection before the edit
    format is added: [cmd_list] when the confirmation loop is entered. *)
Definition launch_base (s : state) (mode main_vendor main_model : string)
    (editor_vendor editor_model : option string) : list string :=
  ["aider"]
  ++ value_of (_build_main_model_args main_vendor main_model s)
  ++ (if String.eqb mode "architect"
      then value_of (_build_architect_args editor_vendor editor_model main_vendor s)
      else _build_code_args).

(** A command event is the given base command plus at most the
    [--edit-format] pair. *)
Definition from_base (base : list string) (e : event) : Prop :=
  match e with
  | Command cmd | Spawn cmd => ∃ f, cmd = base ++ format_args f
  | _ => True
  end.

(** The commands rendered by the launch confirmation among some events. *)
Definition commands (es : list event) : list (list string) :=
  omap (λ e, match e with Command cmd => Some cmd | _ => None end) es.

(** The trace a computation leaves. *)
Definition final_trace {A} (o : outcome A) : list event :=
  match final o with
  | Some s => trace s
  | None => []
  end.

(** A builder changes nothing, or writes one line on stderr. *)
Definition at_most_said (s s' : state) : Prop :=
  s' = s ∨ ∃ line, s' = emit (Stderr line) s.


(** The numbered entries of a menu. *)
Definition numbered (entities : list string) : list (nat * string) :=
  (λ ie, (ie.1 + 1, ie.2)) <$> enumerate entities.

(** The extra entry of the editor-vendor menu. *)
Definition nine (entity_type role_label : string) (entities : list string)
    : list (nat * string) :=
  if String.eqb entity_type "vendor" && String.eqb role_label "Editor"
     && negb (length entities =? 0)
  then [(9, "Use same VENDOR and MODEL as Architect")] else [].

(** The menu entries among some events. *)
Definition items (es : list event) : list (nat * string) :=
  omap (λ e, match e with Item n label => Some (n, label) | _ => None end) es.


(** The events added to the trace between two states. *)
Definition added (s s' : state) : list event := drop (length (trace s)) (trace s').

(** ** Example sessions *)

Module Ex.

Definition dq : string := String (ascii_of_nat 34) EmptyString.

Definition aider_ok : tool :=
  {| command_v := λ _, Returncode 0; run_aider := λ _ _, Returncode 0 |}.



(** A process before [main]: environment, files and keyboard. *)
Definition boot (env : gmap string string) (fs : gmap string (list string))
    (t : tool) (keys : list string) : state :=
  {| VENDORS := []; VENDOR_MODELS := ∅; CODE_EDIT_FORMATS := [];
     ARCHITECT_EDIT_FORMATS := []; VENDOR_API_KEY_VARS := [];
     VENDOR_KEY_SOURCE := []; SELECT_RESULT := None;
     environ := env; files := fs; read_error := ∅; home := "/home/op";
     external := t;
     launches := 0; stdin := keys; trace := [] |}.

Definition conf : config :=
  {| cfg_vendors := ["OPENAI"; "GOOGLE"; "MISTRAL"];
     cfg_models := {[ "OPENAI" := ["gpt-4o"]; "GOOGLE" := ["gemini-pro"];
                      "MISTRAL" := ["mistral-large"] ]};
     cfg_code := ["whole"; "diff"];
     cfg_architect := ["editor-whole"; "editor-diff"] |}.

(** Nine vendors, each with its key in the environment. *)
Definition nine_vendors : list string := ["A"; "B"; "C"; "D"; "E"; "F"; "G"; "H"; "I"].

Definition conf9 : config :=
  {| cfg_vendors := nine_vendors;
     cfg_models := list_to_map ((λ v, (v, [v +:+ "-1"])) <$> nine_vendors);
     cfg_code := ["whole"];
     cfg_architect := ["editor-whole"] |}.

Definition env9 : gmap string string :=
  list_to_map ((λ v, (v +:+ "_API_KEY", "key-" +:+ v)) <$> nine_vendors).

Definition session9 (keys : list string) : state :=
  load_api_keys (initialize_configuration conf9 (boot env9 ∅ aider_ok keys)).

Definition keys_file : gmap string (list string) :=
  {[ "/home/op/.llm_api_keys" :=
       ["# LLM API Keys Configuration";
        "OPENAI_API_KEY=" +:+ dq +:+ "sk-file" +:+ dq;
        "MISTRAL_API_KEY='ms-file'"] ]}.

(** Configured and loaded, with the given environment and keyboard. *)
Definition session (env : gmap string string) (fs : gmap string (list string))
    (t : tool) (keys : list string) : state :=
  load_api_keys (initialize_configuration conf (boot env fs t keys)).

End Ex.

(** ** The configuration file: [validate_json_structure]

    A value as [json.load] returns it.  An object is a Python dict, here a
    finite map; of a float only whether it is zero is kept, which is all its
    truth value depends on. *)

#[local] Unset Elimination Schemes.
Inductive json :=
| JNull
| JBool (b : bool)
| JInt (n : Z)
| JFloat (zero : bool)
| JStr (s : string)
| JList (l : list json)
| JDict (d : gmap string json).
#[local] Set Elimination Schemes.

(** What the function reports before [sys.exit(1)]; the text printed on
    stderr names the configuration file as well. *)
Inductive config_error :=
| NotArray (field : string)
| NotObject (field : string)
| EmptyArray (field : string)
| MissingFields (fields : list string)
| MissingVendorModels (vendors : list json)
| EmptyModelLists (vendors : list json).

(** The function returns, or reports and exits with status 1, or raises an
    exception that nobody catches (TypeError, for a document that is not an
    object or a vendor that is not hashable). *)
Inductive verdict :=
| Valid
| Invalid (e : config_error)
| Raises.

Module PyJson.

(** [needle in hay] for two strings. *)
Fixpoint is_substring (needle hay : string) : bool :=
  String.prefix needle hay
  || match hay with
     | String _ hay' => is_substring needle hay'
     | EmptyString => false
     end.

(** [key in c] for a string [key]; [None] is the TypeError. *)
Definition contains (key : string) (c : json) : option bool :=
  match c with
  | JDict d => Some (bool_decide (is_Some (d !! key)))
  | JList l =>
      Some (existsb (λ x, match x with JStr s => String.eqb s key | _ => false end) l)
  | JStr s => Some (is_substring key s)
  | _ => None
  end.

(** [c[key]] for a string [key]; [None] is the TypeError (or the KeyError). *)
Definition getitem (c : json) (key : string) : option json :=
  match c with
  | JDict d => d !! key
  | _ => None
  end.

Definition is_list (j : json) : bool :=
  match j with JList _ => true | _ => false end.

Definition is_dict (j : json) : bool :=
  match j with JDict _ => true | _ => false end.

(** The truth value of [j]. *)
Definition truthy (j : json) : bool :=
  match j with
  | JNull => false
  | JBool b => b
  | JInt n => negb (n =? 0)%Z
  | JFloat zero => negb zero
  | JStr s => negb (String.eqb s EmptyString)
  | JList l => negb (length l =? 0)
  | JDict d => negb (bool_decide (d = ∅))
  end.

(** Lists and dicts cannot be looked up in a dict. *)
Definition hashable (j : json) : bool :=
  match j with JList _ | JDict _ => false | _ => true end.

(** [v in models] for a hashable [v]: the keys of an object are strings,
    and only a string is equal to a string. *)
Definition is_key (models : gmap string json) (v : json) : bool :=
  match v with
  | JStr s => bool_decide (is_Some (models !! s))
  | _ => false
  end.

(** [models.get(v)] for a hashable [v]. *)
Definition get (models : gmap string json) (v : json) : json :=
  match v with
  | JStr s => default JNull (models !! s)
  | _ => JNull
  end.

End PyJson.

(** One of the top-level tests: [if field not in config: missing.append
    elif not isinstance(config[field], kind): print; exit]; [inr] carries
    [missing_fields] on. *)
Definition check_field (config : json) (field : string) (kind : json → bool)
    (e : config_error) (missing_fields : list string) : verdict + list string :=
  match PyJson.contains field config with
  | None => inl Raises
  | Some false => inr (missing_fields ++ [field])
  | Some true =>
      match PyJson.getitem config field with
      | None => inl Raises
      | Some x => if kind x then inr missing_fields else inl (Invalid e)
      end
  end.

(** The test of one list of edit formats, inside the object
    [config['edit_formats']]. *)
Definition check_formats (edit_formats : gmap string json) (name : string)
    (missing_fields : list string) : verdict + list string :=
  match edit_formats !! name with
  | None => inr (missing_fields ++ ["edit_formats." +:+ name])
  | Some x =>
      if negb (PyJson.is_list x) then inl (Invalid (NotArray ("edit_formats." +:+ name)))
      else if negb (PyJson.truthy x) then inl (Invalid (EmptyArray ("edit_formats." +:+ name)))
      else inr missing_fields
  end.

Definition check_edit_formats (config : json) (missing_fields : list string)
    : verdict + list string :=
  match PyJson.contains "edit_formats" config with
  | None => inl Raises
  | Some false => inr (missing_fields ++ ["edit_formats"])
  | Some true =>
      match PyJson.getitem config "edit_formats" with
      | None => inl Raises
      | Some (JDict edit_formats) =>
          match check_formats edit_formats "code" missing_fields with
          | inl v => inl v
          | inr missing_fields => check_formats edit_formats "architect" missing_fields
          end
      | Some _ => inl (Invalid (NotObject "edit_formats"))
      end
  end.

(** The two tests on the vendors, run when no field is missing. *)
Definition check_vendor_models (config : json) : verdict :=
  match PyJson.getitem config "vendors", PyJson.getitem config "models" with
  | Some (JList vendors), Some (JDict models) =>
      if negb (forallb PyJson.hashable vendors) then Raises
      else
        let missing_vendor_models :=
          List.filter (λ v, negb (PyJson.is_key models v)) vendors in
        if negb (length missing_vendor_models =? 0)
        then Invalid (MissingVendorModels missing_vendor_models)
        else
          let empty_model_lists :=
            List.filter (λ v, negb (PyJson.truthy (PyJson.get models v))) vendors in
          if negb (length empty_model_lists =? 0)
          then Invalid (EmptyModelLists empty_model_lists)
          else Valid
  | _, _ => Raises
  end.

Definition validate_json_structure (config : json) : verdict :=
  match check_field config "vendors" PyJson.is_list (NotArray "vendors") [] with
  | inl v => v
  | inr missing_fields =>
      match check_field config "models" PyJson.is_dict (NotObject "models")
              missing_fields with
      | inl v => v
      | inr missing_fields =>
          match check_edit_formats config missing_fields with
          | inl v => v
          | inr missing_fields =>
              if negb (length missing_fields =? 0)
              then Invalid (MissingFields missing_fields)
              else check_vendor_models config
          end
      end
  end.

(** ** Vocabulary of the further properties *)

(** The key variables are the ones [initialize_configuration] computes, and
    the key sources have the length of VENDORS. *)
Definition initialised (s : state) : Prop :=
  VENDOR_API_KEY_VARS s = api_key_vars_of (VENDORS s)
  ∧ length (VENDOR_KEY_SOURCE s) = length (VENDORS s).

(** The two shapes of an entry of VENDOR_API_KEY_VARS. *)
Definition google_or_name (kv : key_vars) : Prop :=
  is_name kv ∨ kv = Names GOOGLE_VARS.

(** What [_load_keys_from_env] may do to the environment: nothing, or copy
    a non-empty GOOGLE_API_KEY to an unset GEMINI_API_KEY. *)
Definition env_step (s s' : state) : Prop :=
  environ s' = environ s
  ∨ (env_set s "GEMINI_API_KEY" = false
     ∧ ∃ k, environ s !! "GOOGLE_API_KEY" = Some k ∧ k ≠ EmptyString
            ∧ environ s' = <["GEMINI_API_KEY" := k]> (environ s)).

(** The mark the environment gives a vendor. *)
Definition env_mark (s : state) (kv : key_vars) : source :=
  if api_key_set s kv then Env else Unset.

(** The index of the first entry of VENDOR_API_KEY_VARS that names a
    variable: where the loop of [_load_keys_from_file] stops. *)
Definition first_naming (var_name : string) (kvs : list key_vars) : option nat :=
  fst <$> list_find (λ kv, names_var var_name kv = true) kvs.

(** The line assigns a variable whose first entry is the one at [i]. *)
Definition line_names (kvs : list key_vars) (i : nat) (line : string) : bool :=
  match Py.match_assignment (Py.strip line) with
  | Some (var_name, _) => bool_decide (first_naming var_name kvs = Some i)
  | None => false
  end.

(** The line is blank, a comment, no assignment, or assigns a variable no
    entry names. *)
Definition ignored_line (kvs : list key_vars) (line : string) : Prop :=
  match Py.match_assignment (Py.strip line) with
  | Some (var_name, _) => first_naming var_name kvs = None
  | None => True
  end.

(** The line assigns a variable that some entry names a value that cannot
    be put in the environment: the iteration for this line raises. *)
Definition raises_at (kvs : list key_vars) (line : string) : bool :=
  match Py.match_assignment (Py.strip line) with
  | Some (var_name, var_value) =>
      bool_decide (is_Some (first_naming var_name kvs)) && has_nul var_value
  | None => false
  end.

(** The lines the loop of [_load_keys_from_file] gets to: all of them up
    to, and with, the first one that raises. *)
Fixpoint processed (kvs : list key_vars) (lines : list string) : list string :=
  match lines with
  | [] => []
  | line :: lines' =>
      if raises_at kvs line then [line] else line :: processed kvs lines'
  end.

(** A value the line assigns, if it assigns one, holds no NUL. *)
Definition assigns_no_nul (line : string) : Prop :=
  ∀ var_name var_value,
    Py.match_assignment (Py.strip line) = Some (var_name, var_value) →
    has_nul var_value = false.

(** A value the line assigns, if it assigns one, is not empty and can be
    put in the environment. *)
Definition usable_value (line : string) : Prop :=
  ∀ var_name var_value,
    Py.match_assignment (Py.strip line) = Some (var_name, var_value) →
    var_value ≠ EmptyString ∧ has_nul var_value = false.

(** Every vendor that is not marked "unset" has a non-empty key in the
    environment. *)
Definition keys_ok (s : state) : Prop :=
  ∀ i, i < length (VENDORS s) → VENDOR_KEY_SOURCE s !!! i ≠ Unset →
       api_key_set s (VENDOR_API_KEY_VARS s !!! i) = true.

(** A line printed on standard output. *)
Definition is_stdout (e : event) : Prop := ∃ line, e = Stdout line.

(** The warning of [_load_keys_from_file] about a file it could not read
    to the end. *)
Definition is_warning (e : event) : Prop :=
  ∃ path text,
    e = Stderr ("Warning: Could not parse API keys file " +:+ path +:+ ": " +:+ text).

(** [s'] differs from [s] by lines printed on standard output at most, as
    far as the trace goes. *)
Definition printed (s s' : state) : Prop :=
  ∃ es, trace s' = trace s ++ es ∧ Forall is_stdout es.

(** The same, with warnings about the keys file allowed. *)
Definition printed_or_warned (s s' : state) : Prop :=
  ∃ es, trace s' = trace s ++ es ∧ Forall (λ e, is_stdout e ∨ is_warning e) es.

(** A non-empty string of [\w] characters: what group 1 of the pattern of
    [_load_keys_from_file] can be. *)
Fixpoint all_word (s : string) : bool :=
  match s with
  | String c s' => Py.is_word c && all_word s'
  | EmptyString => true
  end.

Definition identifier (s : string) : Prop := s ≠ EmptyString ∧ all_word s = true.

(** The string has no line feed: it can be part of a line of a text file. *)
Fixpoint one_line (s : string) : bool :=
  match s with
  | String c s' => negb (nat_of_ascii c =? 10) && one_line s'
  | EmptyString => true
  end.

Definition last_char (s : string) : option ascii := last (list_ascii_of_string s).

Definition first_char (s : string) : option ascii := head (list_ascii_of_string s).

Definition quoted (c : option ascii) : bool :=
  match c with
  | Some c => Py.is_quote c
  | None => false
  end.

(** The list a menu of [select_entity] numbers. *)
Definition offered (s : state) (entity_type : string) (vendor : option string)
    : list string :=
  if String.eqb entity_type "vendor" then available_vendors s
  else match vendor with
       | Some v => default [] (VENDOR_MODELS s !! v)
       | None => []
       end.

(** The edit formats of a mode. *)
Definition formats_of (s : state) (mode : string) : list string :=
  if String.eqb mode "code" then CODE_EDIT_FORMATS s else ARCHITECT_EDIT_FORMATS s.

(** The choice "9" where it means "same as the architect". *)
Definition same_as_architect (entity_type role_label choice : string) : bool :=
  String.eqb entity_type "vendor" && String.eqb role_label "Editor"
  && String.eqb choice "9".

(** The menus a caller of [select_entity] in the script asks for. *)
Definition menu_kind (entity_type : string) (vendor : option string) : Prop :=
  entity_type = "vendor" ∨ (entity_type = "model" ∧ is_Some vendor).

(** A choice that is not the number of one of [n] entries: no digits at
    all, or decimal digits (few enough for [int]) of a value outside 1..n. *)
Definition out_of_menu (n : nat) (choice : string) : Prop :=
  Py.str_isdigit choice = false
  ∨ (Py.isdigit choice = true ∧ String.length choice ≤ Py.max_str_digits
     ∧ (Py.int choice = 0 ∨ n < Py.int choice)).

(** [ends pre strict codes m post]: as [runs] for any events, with the
    statuses a [sys.exit] of [m] can give in place of the flag. *)
Definition ends (pre : state → Prop) (strict : bool) (codes : Z → Prop)
    {A} (m : M A) (post : A → Prop) : Prop :=
  ∀ s, pre s →
    sat (m s)
      (λ a s', follows (λ _, True) s s'
               ∧ (strict = true → length (stdin s') < length (stdin s))
               ∧ post a)
      (λ c s', follows (λ _, True) s s' ∧ ∀ z, c = Some z → codes z).

(** The commands run among some events. *)
Definition spawned (es : list event) : list (list string) :=
  omap (λ e, match e with Spawn cmd => Some cmd | _ => None end) es.

(** What a call of [launch_aider] that returned [status] did with the
    command [cmd], given the events [es] it added: the meaning of the three
    statuses. *)
Definition launch_outcome (t : tool) (n : nat) (cmd : list string) (status : Z)
    (es : list event) : Prop :=
  (status = 0%Z ∧ spawned es = [cmd] ∧ run_aider t n cmd = Returncode 0)
  ∨ (status = 1%Z
     ∧ (spawned es = [] ∨ (spawned es = [cmd] ∧ run_aider t n cmd ≠ Returncode 0)))
  ∨ (status = 2%Z ∧ spawned es = []).

(** A vendor as the validation wants it: a string with a model entry that
    is not empty (nor otherwise false). *)
Definition vendor_with_models (models : gmap string json) (v : json) : Prop :=
  ∃ name m, v = JStr name ∧ models !! name = Some m ∧ PyJson.truthy m = true.

(** The documents [validate_json_structure] lets through. *)
Definition well_formed (config : json) : Prop :=
  ∃ d vendors models edit_formats code architect,
    config = JDict d
    ∧ d !! "vendors" = Some (JList vendors)
    ∧ d !! "models" = Some (JDict models)
    ∧ d !! "edit_formats" = Some (JDict edit_formats)
    ∧ edit_formats !! "code" = Some (JList code) ∧ code ≠ []
    ∧ edit_formats !! "architect" = Some (JList architect) ∧ architect ≠ []
    ∧ Forall (vendor_with_models models) vendors.

(** * Properties *)

(** ** Loading keys from the environment *)

Section LoadEnv.

Lemma env_vendor_body_name b s i vendor :
  is_name (VENDOR_API_KEY_VARS s !!! i) →
  ∃ b' k, env_vendor_body (b, s) (i, vendor) = (b', mark i k s).
Proof.
  intros [var Hvar]. unfold env_vendor_body. rewrite Hvar.
  destruct (env_set s var); eauto.
Qed.

(** Iterations over vendors with a single variable name leave the
    environment alone and write only their own slot of VENDOR_KEY_SOURCE. *)
Lemma foldl_env_names ivs : ∀ b s,
  Forall (λ iv : nat * string, is_name (VENDOR_API_KEY_VARS s !!! iv.1)) ivs →
  let r := foldl env_vendor_body (b, s) ivs in
  environ r.2 = environ s
  ∧ VENDOR_API_KEY_VARS r.2 = VENDOR_API_KEY_VARS s
  ∧ VENDORS r.2 = VENDORS s
  ∧ length (VENDOR_KEY_SOURCE r.2) = length (VENDOR_KEY_SOURCE s)
  ∧ ∀ j, Forall (λ iv : nat * string, iv.1 ≠ j) ivs →
         VENDOR_KEY_SOURCE r.2 !!! j = VENDOR_KEY_SOURCE s !!! j.
Proof.
  induction ivs as [|[i vendor] ivs IH]; intros b s Hall; cbn [foldl].
  - done.
  - apply Forall_cons in Hall as [Hi Hall]. simpl in Hi.
    destruct (env_vendor_body_name b s i vendor Hi) as (b' & k & ->).
    destruct (IH b' (mark i k s) Hall) as (He & Hv & Hvs & Hlen & Hsrc).
    cbn zeta. rewrite He, Hv, Hvs, Hlen. simpl. rewrite length_insert.
    repeat split; try done.
    intros j Hj. apply Forall_cons in Hj as [Hij Hj]. simpl in Hij.
    rewrite (Hsrc j Hj). simpl. by apply list_lookup_total_insert_ne.
Qed.

Lemma api_key_vars_of_other vendors gi i :
  index "GOOGLE" vendors = Some gi → i ≠ gi →
  is_name (api_key_vars_of vendors !!! i).
Proof.
  intros Hg Hne. unfold api_key_vars_of. rewrite Hg.
  rewrite list_lookup_total_insert_ne by done.
  rewrite list_lookup_total_alt, list_lookup_fmap.
  destruct (vendors !! i); simpl; eexists; done.
Qed.

Lemma api_key_vars_of_google vendors gi :
  index "GOOGLE" vendors = Some gi →
  api_key_vars_of vendors !!! gi = Names GOOGLE_VARS.
Proof.
  intros Hg. unfold api_key_vars_of. rewrite Hg.
  apply list_lookup_total_insert_eq. rewrite length_fmap.
  unfold index in Hg. destruct (list_find _ vendors) as [[j x]|] eqn:Hf; [|done].
  simplify_eq/=. apply list_find_Some in Hf as (Hl & _). by eapply lookup_lt_Some.
Qed.

Lemma index_split vendor vendors i :
  index vendor vendors = Some i →
  ∃ l1 l2, vendors = l1 ++ vendor :: l2 ∧ length l1 = i.
Proof.
  unfold index. destruct (list_find _ vendors) as [[j x]|] eqn:Hf; [|done].
  intros ?; simplify_eq/=. apply list_find_Some in Hf as (Hl & <- & _).
  exists (take i vendors), (drop (S i) vendors). split.
  - by rewrite take_drop_middle.
  - apply length_take_le. apply lookup_lt_Some in Hl. lia.
Qed.

End LoadEnv.

Lemma env_set_ext s s' var : environ s = environ s' → env_set s var = env_set s' var.
Proof. unfold env_set. by intros ->. Qed.

Lemma env_set_lookup s var v :
  environ s !! var = Some v → v ≠ EmptyString → env_set s var = true.
Proof.
  unfold env_set. intros -> Hv. apply negb_true_iff, String.eqb_neq. done.
Qed.

Lemma env_set_true s var :
  env_set s var = true → ∃ v, environ s !! var = Some v ∧ v ≠ EmptyString.
Proof.
  unfold env_set. destruct (environ s !! var) as [v|]; [|done].
  intros Hv%negb_true_iff%String.eqb_neq. eauto.
Qed.

Lemma enumerate_split {A} (l1 l2 : list A) x :
  enumerate (l1 ++ x :: l2)
  = enumerate l1 ++ (length l1, x) :: imap (λ n, pair (length l1 + S n)) l2.
Proof.
  unfold enumerate. rewrite imap_app, imap_cons. by rewrite Nat.add_0_r.
Qed.

Lemma enumerate_lt {A} (l : list A) :
  Forall (λ iv : nat * A, iv.1 < length l) (enumerate l).
Proof.
  apply Forall_forall. intros [i x] Hin.
  apply elem_of_lookup_imap in Hin as (j & y & [= -> ->] & Hl).
  simpl. by eapply lookup_lt_Some.
Qed.

Lemma enumerate_gt {A} (l : list A) n :
  Forall (λ iv : nat * A, n < iv.1) (imap (λ k, pair (n + S k)) l).
Proof.
  apply Forall_forall. intros [i x] Hin.
  apply elem_of_lookup_imap in Hin as (j & y & [= -> ->] & Hl). simpl. lia.
Qed.

(** When only GOOGLE_API_KEY is set, the loop over the vendors copies it
    to GEMINI_API_KEY and marks GOOGLE "env". *)
Lemma load_env_legacy (s : state) (gi : nat) (k : string) :
  VENDOR_API_KEY_VARS s = api_key_vars_of (VENDORS s) →
  length (VENDOR_KEY_SOURCE s) = length (VENDORS s) →
  index "GOOGLE" (VENDORS s) = Some gi →
  environ s !! "GOOGLE_API_KEY" = Some k → k ≠ EmptyString →
  env_set s "GEMINI_API_KEY" = false →
  let s' := (_load_keys_from_env s).2 in
  environ s' !! "GEMINI_API_KEY" = Some k
  ∧ environ s' !! "GOOGLE_API_KEY" = Some k
  ∧ VENDOR_KEY_SOURCE s' !! gi = Some Env.
Proof.
  intros Hkv Hl Hg Hk Hne Hgem.
  destruct (index_split _ _ _ Hg) as (l1 & l2 & Hvs & Hlen).
  unfold _load_keys_from_env.
  set (s1 := emit _ s).
  assert (Hv1 : VENDORS s1 = VENDORS s) by done.
  assert (Hkv1 : VENDOR_API_KEY_VARS s1 = api_key_vars_of (VENDORS s)) by done.
  assert (He1 : environ s1 = environ s) by done.
  assert (Hl1 : length (VENDOR_KEY_SOURCE s1) = length (VENDORS s)) by done.
  rewrite Hv1, Hvs, enumerate_split, foldl_app. cbn [foldl].
  (* the vendors before GOOGLE *)
  destruct (foldl_env_names (enumerate l1) true s1) as (He2 & Hkv2 & _ & Hl2 & _).
  { rewrite Hkv1. eapply Forall_impl; [apply enumerate_lt|].
    intros [i x] Hi; simpl in *. apply (api_key_vars_of_other _ gi); [done|lia]. }
  destruct (foldl env_vendor_body (true, s1) (enumerate l1)) as [b2 s2].
  cbn [snd] in He2, Hkv2, Hl2.
  (* GOOGLE itself *)
  assert (Hgem2 : env_set s2 "GEMINI_API_KEY" = false).
  { rewrite (env_set_ext s2 s); [done|congruence]. }
  assert (Hgoo2 : env_set s2 "GOOGLE_API_KEY" = true).
  { apply (env_set_lookup _ _ k); [congruence|done]. }
  assert (Hstep : ∃ s3, env_vendor_body (b2, s2) (length l1, "GOOGLE") = (b2, s3)
            ∧ environ s3 = <["GEMINI_API_KEY" := k]> (environ s)
            ∧ VENDOR_API_KEY_VARS s3 = VENDOR_API_KEY_VARS s2
            ∧ VENDOR_KEY_SOURCE s3 = <[gi := Env]> (VENDOR_KEY_SOURCE s2)).
  { unfold env_vendor_body. rewrite Hkv2, Hkv1, Hlen.
    rewrite (api_key_vars_of_google _ _ Hg). unfold GOOGLE_VARS.
    cbn [env_names_loop]. rewrite Hgem2, Hgoo2. cbn [String.eqb Ascii.eqb Bool.eqb andb negb].
    eexists. split; [reflexivity|]. simpl.
    rewrite He2, He1. rewrite lookup_total_alt, Hk. repeat split; congruence. }
  destruct Hstep as (s3 & -> & He3 & Hkv3 & Hs3).
  (* the vendors after GOOGLE *)
  assert (Hafter : Forall (λ iv : nat * string, is_name (VENDOR_API_KEY_VARS s3 !!! iv.1))
                     (imap (λ n, pair (length l1 + S n)) l2)).
  { rewrite Hkv3, Hkv2, Hkv1. eapply Forall_impl; [apply enumerate_gt|].
    intros [i x] Hi; simpl in *. apply (api_key_vars_of_other _ gi); [done|lia]. }
  destruct (foldl_env_names _ b2 s3 Hafter) as (He4 & _ & _ & Hl4 & Hs4).
  specialize (Hs4 gi).
  destruct (foldl env_vendor_body (b2, s3) _) as [b4 s4].
  cbn [snd] in He4, Hs4, Hl4.
  assert (Hgi : gi < length (VENDOR_KEY_SOURCE s2)).
  { rewrite Hl2, Hl1, Hvs, length_app. simpl. lia. }
  assert (Hres : environ s4 !! "GEMINI_API_KEY" = Some k
                 ∧ environ s4 !! "GOOGLE_API_KEY" = Some k
                 ∧ VENDOR_KEY_SOURCE s4 !! gi = Some Env).
  { rewrite He4, He3. split; [apply lookup_insert_eq|]. split.
    - by rewrite lookup_insert_ne.
    - rewrite list_lookup_lookup_total_lt
        by (rewrite Hl4, Hs3, length_insert; exact Hgi).
      f_equal. rewrite Hs4.
      + rewrite Hs3. by apply list_lookup_total_insert_eq.
      + eapply Forall_impl; [apply enumerate_gt|]. intros [i x]; simpl. lia. }
  destruct b4; exact Hres.
Qed.

(** ** Loading keys from the file *)

Section LoadFile.

Lemma match_assignment_word line var value :
  Py.match_assignment line = Some (var, value) →
  ∃ c r, line = String c r ∧ Py.is_word c = true.
Proof.
  unfold Py.match_assignment. destruct line as [|c r]; [done|].
  cbn [Py.span_word]. destruct (Py.is_word c) eqn:Hc; [eauto|done].
Qed.

(** A line that assigns is neither blank nor a comment. *)
Lemma match_assignment_kept line var value :
  Py.match_assignment line = Some (var, value) →
  String.eqb line EmptyString || Py.startswith "#" line = false.
Proof.
  intros (c & r & -> & Hc)%match_assignment_word. simpl.
  destruct (Ascii.eqb "#" c) eqn:Heq; [|done].
  apply Ascii.eqb_eq in Heq as <-. done.
Qed.

Lemma first_naming_lt var kvs i : first_naming var kvs = Some i → i < length kvs.
Proof.
  unfold first_naming. destruct (list_find _ kvs) as [[j kv]|] eqn:Hf; [|done].
  intros [= <-]. apply list_find_Some in Hf as (Hl & _). by eapply lookup_lt_Some.
Qed.

Lemma first_naming_names var kvs i :
  first_naming var kvs = Some i → names_var var (kvs !!! i) = true.
Proof.
  unfold first_naming. destruct (list_find _ kvs) as [[j kv]|] eqn:Hf; [|done].
  intros [= <-]. apply list_find_Some in Hf as (Hl & Hn & _).
  by rewrite (list_lookup_total_correct _ _ _ Hl).
Qed.


(** What the line does to the state once its entry is found: the mark,
    then the assignment, which may raise. *)
Definition assign (var value : string) (i : nat) (s : state) : option string * state :=
  let s := if decide (VENDOR_KEY_SOURCE s !!! i = Unset) then mark i File s else s in
  if has_nul value then (Some EMBEDDED_NULL, s) else (None, setenv var value s).

(** The loop over the entries in closed form: it acts on the first entry
    that names the variable, and on nothing when there is none. *)
Lemma file_vars_loop_from var value kvs : ∀ n s,
  file_vars_loop var value (imap (λ k, pair (n + k)) kvs) s
  = match first_naming var kvs with
    | Some i => assign var value (n + i) s
    | None => (None, s)
    end.
Proof.
  unfold first_naming.
  induction kvs as [|kv kvs IH]; intros n s; [done|].
  cbn [imap file_vars_loop list_find]. rewrite Nat.add_0_r.
  destruct (decide (names_var var kv = true)) as [Hkv|Hkv].
  - rewrite Hkv. simpl. by rewrite Nat.add_0_r.
  - apply not_true_is_false in Hkv. rewrite Hkv.
    rewrite (imap_ext _ (λ k, pair (S n + k))) by (intros; simpl; f_equal; lia).
    rewrite IH. destruct (list_find _ kvs) as [[j x]|]; simpl; [|done].
    by rewrite Nat.add_succ_r.
Qed.

(** One line in closed form; the blank and comment test is subsumed by the
    pattern. *)
Lemma file_line_body_closed s line :
  file_line_body s line
  = match Py.match_assignment (Py.strip line) with
    | Some (var, value) =>
        match first_naming var (VENDOR_API_KEY_VARS s) with
        | Some i => assign var value i s
        | None => (None, s)
        end
    | None => (None, s)
    end.
Proof.
  unfold file_line_body.
  destruct (Py.match_assignment (Py.strip line)) as [[var value]|] eqn:Hm.
  - rewrite (match_assignment_kept _ _ _ Hm).
    apply (file_vars_loop_from var value _ 0).
  - by destruct (_ || _).
Qed.

Lemma assign_raises var value i s :
  (assign var value i s).1 = (if has_nul value then Some EMBEDDED_NULL else None).
Proof. unfold assign. by destruct (has_nul value). Qed.

(** What an assignment leaves alone. *)
Lemma assign_same var value i s :
  let s' := (assign var value i s).2 in
  VENDOR_API_KEY_VARS s' = VENDOR_API_KEY_VARS s
  ∧ VENDORS s' = VENDORS s
  ∧ trace s' = trace s
  ∧ files s' = files s
  ∧ read_error s' = read_error s
  ∧ length (VENDOR_KEY_SOURCE s') = length (VENDOR_KEY_SOURCE s)
  ∧ (∀ x, x ≠ var → environ s' !! x = environ s !! x)
  ∧ (∀ j, VENDOR_KEY_SOURCE s !! j = Some Env → VENDOR_KEY_SOURCE s' !! j = Some Env).
Proof.
  unfold assign.
  assert (Hkeep : ∀ j, VENDOR_KEY_SOURCE s !! j = Some Env →
            VENDOR_KEY_SOURCE s !!! i = Unset →
            <[i := File]> (VENDOR_KEY_SOURCE s) !! j = Some Env).
  { intros j Hj Hu. destruct (decide (i = j)) as [->|Hij].
    - apply list_lookup_total_correct in Hj. congruence.
    - by rewrite list_lookup_insert_ne. }
  destruct (has_nul value); case_decide; cbn;
    rewrite ?length_insert; repeat split; try done; auto;
    intros x Hx; by rewrite lookup_insert_ne.
Qed.

Lemma file_line_same s line :
  let s' := (file_line_body s line).2 in
  VENDOR_API_KEY_VARS s' = VENDOR_API_KEY_VARS s
  ∧ VENDORS s' = VENDORS s
  ∧ trace s' = trace s
  ∧ files s' = files s
  ∧ read_error s' = read_error s
  ∧ length (VENDOR_KEY_SOURCE s') = length (VENDOR_KEY_SOURCE s)
  ∧ (∀ x, (∀ v, Py.match_assignment (Py.strip line) ≠ Some (x, v)) →
          environ s' !! x = environ s !! x)
  ∧ (∀ j, VENDOR_KEY_SOURCE s !! j = Some Env → VENDOR_KEY_SOURCE s' !! j = Some Env).
Proof.
  rewrite file_line_body_closed.
  destruct (Py.match_assignment (Py.strip line)) as [[var value]|]; [|done].
  destruct (first_naming var _) as [i|]; [|done].
  destruct (assign_same var value i s) as (?&?&?&?&?&?&Hother&?).
  cbn zeta. repeat split; try done.
  intros x Hx. apply Hother. intros ->. by apply (Hx value).
Qed.

(** The iteration raises exactly on the lines [raises_at] tells. *)
Lemma file_line_raises s line :
  (file_line_body s line).1
  = (if raises_at (VENDOR_API_KEY_VARS s) line then Some EMBEDDED_NULL else None).
Proof.
  rewrite file_line_body_closed. unfold raises_at.
  destruct (Py.match_assignment (Py.strip line)) as [[var value]|]; [|done].
  destruct (first_naming var _) as [i|]; [|done].
  rewrite assign_raises. rewrite bool_decide_eq_true_2 by done. done.
Qed.

Lemma file_lines_same lines : ∀ s,
  let s' := (file_lines_loop lines s).2 in
  VENDOR_API_KEY_VARS s' = VENDOR_API_KEY_VARS s
  ∧ VENDORS s' = VENDORS s
  ∧ trace s' = trace s
  ∧ files s' = files s
  ∧ read_error s' = read_error s
  ∧ length (VENDOR_KEY_SOURCE s') = length (VENDOR_KEY_SOURCE s)
  ∧ (∀ x, Forall (λ l, ∀ v, Py.match_assignment (Py.strip l) ≠ Some (x, v)) lines →
          environ s' !! x = environ s !! x)
  ∧ (∀ j, VENDOR_KEY_SOURCE s !! j = Some Env → VENDOR_KEY_SOURCE s' !! j = Some Env).
Proof.
  induction lines as [|line lines IH]; intros s; cbn [file_lines_loop]; [done|].
  destruct (file_line_same s line) as (H1 & H2 & H3 & H4 & H5 & H6 & H7 & H8).
  destruct (file_line_body s line) as [[e|] s1]; cbn [snd] in *.
  - repeat split; try done. intros x [Hx _]%Forall_cons. by apply H7.
  - destruct (IH s1) as (I1 & I2 & I3 & I4 & I5 & I6 & I7 & I8). cbn zeta in *.
    repeat split; try congruence.
    + intros x [Hx Hxs]%Forall_cons. rewrite I7 by done. by apply H7.
    + intros j Hj. by apply I8, H8.
Qed.


(** What [_load_keys_from_file] makes of the state its loop leaves: at
    most a warning more on the trace. *)
Lemma load_file_after_loop path s lines :
  files s !! path = Some lines →
  let r := file_lines_loop lines
             (emit (Stdout ("Loading API keys from file: " +:+ path)) s) in
  let raised := match r.1 with Some e => Some e | None => read_error s !! path end in
  _load_keys_from_file path s
  = match raised with
    | Some e => emit (Stderr ("Warning: Could not parse API keys file " +:+ path
                              +:+ ": " +:+ e)) r.2
    | None => r.2
    end.
Proof.
  intros Hfile. unfold _load_keys_from_file. rewrite Hfile. cbn zeta.
  destruct (file_lines_same lines (emit (Stdout ("Loading API keys from file: " +:+ path)) s))
    as (_ & _ & _ & _ & Hre & _).
  destruct (file_lines_loop lines _) as [[e|] s1]; cbn [fst snd] in *; [done|].
  by rewrite Hre.
Qed.

Lemma load_file_same path s :
  let s' := _load_keys_from_file path s in
  VENDOR_API_KEY_VARS s' = VENDOR_API_KEY_VARS s
  ∧ VENDORS s' = VENDORS s
  ∧ files s' = files s
  ∧ read_error s' = read_error s
  ∧ length (VENDOR_KEY_SOURCE s') = length (VENDOR_KEY_SOURCE s)
  ∧ (∀ j, VENDOR_KEY_SOURCE s !! j = Some Env → VENDOR_KEY_SOURCE s' !! j = Some Env).
Proof.
  cbn zeta. destruct (files s !! path) as [lines|] eqn:Hfile.
  - rewrite (load_file_after_loop _ _ _ Hfile). cbn zeta.
    destruct (file_lines_same lines (emit (Stdout ("Loading API keys from file: " +:+ path)) s))
      as (H1 & H2 & _ & H4 & H5 & H6 & _ & H8).
    destruct (match (file_lines_loop lines _).1 with Some e => Some e | None => _ end);
      by repeat split.
  - unfold _load_keys_from_file. rewrite Hfile. by repeat split.
Qed.


End LoadFile.

Lemma load_file_keeps_env path s i :
  VENDOR_KEY_SOURCE s !! i = Some Env →
  VENDOR_KEY_SOURCE (_load_keys_from_file path s) !! i = Some Env.
Proof. apply load_file_same. Qed.

(** C5.  GOOGLE has the primary name GEMINI_API_KEY and the legacy name
    GOOGLE_API_KEY.  When only the legacy name is set (non-empty) in the
    environment at resolution time, [_load_keys_from_env] copies its value to
    the primary name and marks the vendor's key source "env"; the source is
    still "env" when [load_api_keys] is done, whatever the keys file holds. *)
Theorem legacy_name_populates_primary (c : config) (s : state) (gi : nat) (k : string) :
  index "GOOGLE" (cfg_vendors c) = Some gi →
  environ s !! "GOOGLE_API_KEY" = Some k → k ≠ EmptyString →
  env_set s "GEMINI_API_KEY" = false →
  let s0 := initialize_configuration c s in
  let s' := (_load_keys_from_env s0).2 in
  environ s' !! "GEMINI_API_KEY" = Some k
  ∧ environ s' !! "GOOGLE_API_KEY" = Some k
  ∧ VENDOR_KEY_SOURCE s' !! gi = Some Env
  ∧ VENDOR_KEY_SOURCE (load_api_keys s0) !! gi = Some Env.
Proof.
  intros Hg Hk Hne Hgem s0.
  assert (Hinit : ∀ e, let s1 := emits e s0 in
            VENDOR_API_KEY_VARS s1 = api_key_vars_of (VENDORS s1)
            ∧ length (VENDOR_KEY_SOURCE s1) = length (VENDORS s1)
            ∧ index "GOOGLE" (VENDORS s1) = Some gi
            ∧ environ s1 !! "GOOGLE_API_KEY" = Some k
            ∧ env_set s1 "GEMINI_API_KEY" = false).
  { intros e. induction e as [|x e IH] using rev_ind.
    - cbn. repeat split; try done. by rewrite length_replicate.
    - unfold emits in *. rewrite foldl_app. cbn [foldl flip]. exact IH. }
  destruct (Hinit []) as (H1 & H2 & H3 & H4 & H5).
  destruct (load_env_legacy _ gi k H1 H2 H3 H4 Hne H5) as (Ha & Hb & Hc).
  cbn zeta. repeat split; try done.
  unfold load_api_keys.
  destruct (Hinit [Stdout "Attempting to load API keys..."]) as (H1' & H2' & H3' & H4' & H5').
  destruct (load_env_legacy _ gi k H1' H2' H3' H4' Hne H5') as (_ & _ & Hc').
  cbn [emits foldl flip] in Hc'.
  destruct (_find_keys_file _); cbn [VENDOR_KEY_SOURCE emit];
    [by apply load_file_keeps_env|done].
Qed.

Lemma legacy_name_populates_primary_witness :
  let s := Ex.boot {[ "GOOGLE_API_KEY" := "legacy" ]} ∅ Ex.aider_ok [] in
  let s' := (_load_keys_from_env (initialize_configuration Ex.conf s)).2 in
  environ s' !! "GEMINI_API_KEY" = Some "legacy"
  ∧ environ s' !! "GOOGLE_API_KEY" = Some "legacy"
  ∧ VENDOR_KEY_SOURCE s' !! 1 = Some Env
  ∧ VENDOR_KEY_SOURCE (load_api_keys (initialize_configuration Ex.conf s)) !! 1 = Some Env.
Proof.
  apply (legacy_name_populates_primary Ex.conf _ 1 "legacy");
    [reflexivity | reflexivity | discriminate | reflexivity].
Defined.



(** ** Command builder: the main model *)

Section MainArgs.

Lemma index_lookup vendor vendors i :
  index vendor vendors = Some i → vendors !! i = Some vendor.
Proof.
  unfold index. destruct (list_find _ vendors) as [[j x]|] eqn:Hf; [|done].
  intros ?; simplify_eq/=. by apply list_find_Some in Hf as (? & <- & _).
Qed.

Lemma api_key_vars_of_name vendors vendor i :
  index vendor vendors = Some i → vendor ≠ "GOOGLE" →
  api_key_vars_of vendors !!! i = Name (vendor +:+ "_API_KEY").
Proof.
  intros Hi Hne. pose proof (index_lookup _ _ _ Hi) as Hl.
  assert (Hbase : ((λ v, Name (v +:+ "_API_KEY")) <$> vendors) !!! i
                  = Name (vendor +:+ "_API_KEY")).
  { apply list_lookup_total_correct. by rewrite list_lookup_fmap, Hl. }
  unfold api_key_vars_of. destruct (index "GOOGLE" vendors) as [gi|] eqn:Hg; [|done].
  rewrite list_lookup_total_insert_ne; [done|].
  intros ->. apply index_lookup in Hg. congruence.
Qed.

Lemma var_name_not_empty vendor : String.eqb (vendor +:+ "_API_KEY") EmptyString = false.
Proof. by destruct vendor. Qed.

(** What a passed [check_api_key] tells about the chosen vendor. *)
Lemma check_api_key_passed vendor s s' :
  check_api_key vendor s = Ok tt s' →
  ∃ i, index vendor (VENDORS s) = Some i
       ∧ api_key_set s (VENDOR_API_KEY_VARS s !!! i) = true
       ∧ VENDOR_KEY_SOURCE s !!! i ≠ Unset
       ∧ s' = s.
Proof.
  unfold check_api_key. destruct (index vendor (VENDORS s)) as [i|]; [|done].
  destruct (api_key_set s _) eqn:Hset; simpl; [|done].
  case_bool_decide; [done|]. intros [= <-]. eauto.
Qed.

Variables (s : state) (main_vendor main_model : string) (i : nat).
Hypothesis Hvars : VENDOR_API_KEY_VARS s = api_key_vars_of (VENDORS s).
Hypothesis Hindex : index main_vendor (VENDORS s) = Some i.

Lemma main_args_env :
  VENDOR_KEY_SOURCE s !!! i = Env →
  _build_main_model_args main_vendor main_model s = Ok ["--model"; main_model] s.
Proof.
  intros Hsrc. unfold _build_main_model_args, _get_vendor_index.
  rewrite Hindex. cbn zeta. rewrite Hsrc. done.
Qed.

Lemma main_args_file :
  check_api_key main_vendor s = Ok tt s →
  VENDOR_KEY_SOURCE s !!! i = File →
  ∃ key, _get_api_key_value main_vendor s = Ok (Some key) s
         ∧ key ≠ EmptyString
         ∧ _build_main_model_args main_vendor main_model s
           = Ok (["--model"; main_model] ++ api_key_flag main_vendor key) s.
Proof.
  intros (j & Hj & Hset & _ & _)%check_api_key_passed Hsrc.
  rewrite Hindex in Hj. injection Hj as <-.
  unfold _build_main_model_args, _get_api_key_value, _get_vendor_index.
  rewrite Hindex. cbn zeta. rewrite Hsrc. rewrite bool_decide_eq_true_2 by done.
  destruct (decide (main_vendor = "GOOGLE")) as [->|Hne].
  - rewrite Hvars, (api_key_vars_of_google _ _ Hindex) in Hset |- *.
    unfold GOOGLE_VARS in *. simpl in Hset. cbn [first_set].
    destruct (env_set s "GEMINI_API_KEY") eqn:Hgem.
    + destruct (env_set_true _ _ Hgem) as (key & Hkey & Hne).
      exists key. rewrite Hkey. repeat split; [done|].
      simpl. rewrite Hgem. by rewrite lookup_total_alt, Hkey.
    + destruct (env_set s "GOOGLE_API_KEY") eqn:Hgoo; [|done].
      destruct (env_set_true _ _ Hgoo) as (key & Hkey & Hne).
      exists key. rewrite Hkey. repeat split; [done|].
      simpl. rewrite Hgoo. by rewrite lookup_total_alt, Hkey.
  - rewrite Hvars, (api_key_vars_of_name _ _ _ Hindex Hne) in Hset |- *.
    simpl in Hset. destruct (env_set_true _ _ Hset) as (key & Hkey & Hnek).
    exists key. rewrite Hkey. repeat split; [done|].
    rewrite var_name_not_empty, Hset. simpl.
    by rewrite lookup_total_alt, Hkey.
Qed.

End MainArgs.

(** C1, as the code has it.  For a completed selection (the main vendor
    passed [check_api_key]) whose key source is "file", the arguments for the
    main model are the model pair followed by exactly one credential flag when
    the vendor is one of the four with a flag mapping: [--api-key google=KEY]
    for GOOGLE, and the vendor's own flag with the raw key for ANTHROPIC,
    OPENAI and DEEPSEEK; any other vendor gets no credential flag.  When the
    source is "env" there is no credential flag at all.  KEY is the value
    [_get_api_key_value] finds for the vendor. *)
Theorem main_credential_flag (s : state) (main_vendor main_model : string) (i : nat) :
  VENDOR_API_KEY_VARS s = api_key_vars_of (VENDORS s) →
  index main_vendor (VENDORS s) = Some i →
  check_api_key main_vendor s = Ok tt s →
  (VENDOR_KEY_SOURCE s !!! i = File →
   ∃ key, _get_api_key_value main_vendor s = Ok (Some key) s ∧ key ≠ EmptyString ∧
     let args := _build_main_model_args main_vendor main_model s in
     (main_vendor = "GOOGLE" →
        args = Ok ["--model"; main_model; "--api-key"; "google=" +:+ key] s)
     ∧ (main_vendor = "ANTHROPIC" →
        args = Ok ["--model"; main_model; "--anthropic-api-key"; key] s)
     ∧ (main_vendor = "OPENAI" →
        args = Ok ["--model"; main_model; "--openai-api-key"; key] s)
     ∧ (main_vendor = "DEEPSEEK" →
        args = Ok ["--model"; main_model; "--deepseek-api-key"; key] s)
     ∧ (main_vendor ∉ ["GOOGLE"; "ANTHROPIC"; "OPENAI"; "DEEPSEEK"] →
        args = Ok ["--model"; main_model] s))
  ∧ (VENDOR_KEY_SOURCE s !!! i = Env →
     _build_main_model_args main_vendor main_model s = Ok ["--model"; main_model] s).
Proof.
  intros Hvars Hindex Hcheck. split; [|by apply main_args_env].
  intros Hsrc.
  destruct (main_args_file s main_vendor main_model i Hvars Hindex Hcheck Hsrc)
    as (key & Hkey & Hne & Hargs).
  exists key. repeat split; try done; cbn zeta; rewrite Hargs.
  - by intros ->.
  - by intros ->.
  - by intros ->.
  - by intros ->.
  - intros Hnot. unfold api_key_flag.
    assert (Heq : ∀ v, v ∈ ["GOOGLE"; "ANTHROPIC"; "OPENAI"; "DEEPSEEK"] →
                       String.eqb main_vendor v = false).
    { intros v Hv. apply String.eqb_neq. intros ->. done. }
    rewrite !Heq by (repeat constructor). done.
Qed.

Lemma main_credential_flag_witness :
  let s := Ex.session ∅ Ex.keys_file Ex.aider_ok [] in
  ∃ key, _get_api_key_value "OPENAI" s = Ok (Some key) s
         ∧ _build_main_model_args "OPENAI" "gpt-4o" s
           = Ok ["--model"; "gpt-4o"; "--openai-api-key"; key] s.
Proof.
  intros s.
  destruct (main_credential_flag s "OPENAI" "gpt-4o" 0) as [Hfile _];
    [reflexivity | reflexivity | reflexivity |].
  destruct (Hfile eq_refl) as (key & Hkey & _ & _ & _ & Hopenai & _).
  exists key. split; [exact Hkey | exact (Hopenai eq_refl)].
Defined.

(** C1, counterexample.  MISTRAL is a configured vendor whose key comes
    from the file and passes [check_api_key]; the arguments built for it
    carry no credential flag. *)
Lemma file_sourced_vendor_without_flag :
  let s := Ex.session ∅ Ex.keys_file Ex.aider_ok [] in
  VENDOR_KEY_SOURCE s !! 2 = Some File
  ∧ check_api_key "MISTRAL" s = Ok tt s
  ∧ _build_main_model_args "MISTRAL" "mistral-large" s
    = Ok ["--model"; "mistral-large"] s.
Proof. vm_compute. done. Qed.

(** ** Command builder: architect mode *)

(** C7.  When the editor vendor is the main vendor, or the editor
    selection is the reuse-main sentinel "default", the architect arguments
    are [--architect], followed by the [--editor-model] pair if an explicit
    editor model was chosen, and nothing else: no credential flag, whatever
    the key sources are. *)
Theorem architect_args_same_vendor (s : state)
    (editor_vendor editor_model : option string) (main_vendor : string) :
  editor_vendor = Some main_vendor ∨ editor_vendor = Some "default" →
  let args := _build_architect_args editor_vendor editor_model main_vendor s in
  (editor_model = None ∨ editor_model = Some "default" →
     args = Ok ["--architect"] s)
  ∧ (∀ em, editor_model = Some em → em ≠ "default" →
     args = Ok ["--architect"; "--editor-model"; em] s).
Proof.
  intros Hev. cbn zeta. unfold _build_architect_args. split.
  - by intros [-> | ->].
  - intros em -> Hem%String.eqb_neq. rewrite Hem. cbn [negb].
    destruct Hev as [-> | ->].
    + rewrite (bool_decide_eq_true_2 (Some main_vendor = Some main_vendor)) by done.
      by rewrite andb_false_r.
    + by rewrite (bool_decide_eq_true_2 (Some "default" = Some "default")).
Qed.

Lemma architect_args_same_vendor_witness :
  let s := Ex.session ∅ Ex.keys_file Ex.aider_ok [] in
  _build_architect_args (Some "OPENAI") (Some "gpt-4o") "OPENAI" s
  = Ok ["--architect"; "--editor-model"; "gpt-4o"] s.
Proof.
  intros s.
  apply (architect_args_same_vendor s (Some "OPENAI") (Some "gpt-4o") "OPENAI");
    [left; reflexivity | reflexivity | discriminate].
Defined.

(** ** check_api_key *)

Lemma exit_after_report report s :
  (says report;; sys_exit 1%Z) s = @Exit unit 1%Z (emits report s).
Proof. reflexivity. Qed.




(** ** A small program logic for the interactive part *)

Section Follows.

Context (good : event → Prop).

Lemma same_config_refl s : same_config s s.
Proof. by split. Qed.

Lemma same_config_trans s1 s2 s3 :
  same_config s1 s2 → same_config s2 s3 → same_config s1 s3.
Proof. intros [] []. split; congruence. Qed.

Lemma same_config_sym s1 s2 : same_config s1 s2 → same_config s2 s1.
Proof. intros []. by split. Qed.

Lemma follows_refl s : follows good s s.
Proof.
  split; [apply same_config_refl|]. split; [done|].
  exists []. by rewrite app_nil_r.
Qed.

Lemma follows_trans s1 s2 s3 :
  follows good s1 s2 → follows good s2 s3 → follows good s1 s3.
Proof.
  intros (Hc1 & Hl1 & es1 & Ht1 & Hg1) (Hc2 & Hl2 & es2 & Ht2 & Hg2).
  split; [by eapply same_config_trans|]. split; [lia|].
  exists (es1 ++ es2). rewrite Ht2, Ht1, app_assoc. split; [done|].
  by apply Forall_app.
Qed.

Lemma follows_emit e s : good e → follows good s (emit e s).
Proof.
  intros He. split; [by split|]. split; [done|].
  exists [e]. split; [done|]. by constructor.
Qed.

Lemma follows_emits es : ∀ s, Forall good es → follows good s (emits es s).
Proof.
  induction es as [|e es IH]; intros s Hes; [apply follows_refl|].
  apply Forall_cons in Hes as [He Hes]. unfold emits. cbn [foldl flip].
  eapply follows_trans; [by apply follows_emit|]. by apply IH.
Qed.

Lemma follows_set_stdin l s :
  length l ≤ length (stdin s) → follows good s (set_stdin l s).
Proof.
  intros Hl. split; [by split|]. split; [done|].
  exists []. by rewrite app_nil_r.
Qed.

Lemma follows_set_SELECT_RESULT r s : follows good s (set_SELECT_RESULT r s).
Proof.
  split; [by split|]. split; [done|]. exists []. by rewrite app_nil_r.
Qed.

Lemma follows_set_launches n s : follows good s (set_launches n s).
Proof.
  split; [by split|]. split; [done|]. exists []. by rewrite app_nil_r.
Qed.

Lemma follows_stdin s s' : follows good s s' → length (stdin s') ≤ length (stdin s).
Proof. by intros (_ & ? & _). Qed.

Lemma follows_added s s' : follows good s s' → Forall good (added s s').
Proof.
  intros (_ & _ & es & Ht & Hes). unfold added.
  by rewrite Ht, drop_app_length.
Qed.

End Follows.

Section Sat.

Context {A : Type}.

Lemma sat_mono (o : outcome A) (Q Q' : A → state → Prop)
    (E E' : option Z → state → Prop) :
  sat o Q E → (∀ a s, Q a s → Q' a s) → (∀ c s, E c s → E' c s) → sat o Q' E'.
Proof. destruct o; simpl; auto. Qed.

Lemma sat_bind {B} (m : M A) (k : A → M B) s Q E :
  sat (m s) (λ a s', sat (k a s') Q E) E → sat (bind m k s) Q E.
Proof. unfold bind. by destruct (m s). Qed.

Lemma sat_final (o : outcome A) Q E :
  sat o Q E → ∃ s', final o = Some s'.
Proof. destruct o; simpl; eauto. done. Qed.

End Sat.

Section Runs.

Context (good : event → Prop) (pre : state → Prop).
Hypothesis pre_follows : ∀ s s', pre s → follows good s s' → pre s'.

Abbreviation runs := (runs good pre).

Lemma runs_weaken {A} strict noexit strict' noexit' (m : M A) (post post' : A → Prop) :
  runs strict noexit m post →
  (strict' = true → strict = true) → (noexit' = true → noexit = true) →
  (∀ a, post a → post' a) →
  runs strict' noexit' m post'.
Proof.
  intros Hm Hs Hn Hp s Hpre. eapply sat_mono; [by apply Hm|..].
  - intros a s' (Hf & Hlt & Hpost). auto.
  - intros c s' (Hf & Hc). auto.
Qed.

Lemma runs_ret {A} noexit (a : A) (post : A → Prop) :
  post a → runs false noexit (ret a) post.
Proof. intros Ha s _. simpl. split; [apply follows_refl|done]. Qed.

Lemma runs_bind {A B} st1 st2 noexit (m : M A) (k : A → M B) mid post :
  runs st1 noexit m mid →
  (∀ a, mid a → runs st2 noexit (k a) post) →
  runs (st1 || st2) noexit (bind m k) post.
Proof.
  intros Hm Hk s Hpre. apply sat_bind.
  eapply sat_mono; [by apply Hm| |done].
  intros a s1 (Hf1 & Hlt1 & Hmid). cbn beta.
  eapply sat_mono; [apply (Hk a Hmid s1); by eapply pre_follows|..].
  - intros b s2 (Hf2 & Hlt2 & Hpost). split; [by eapply follows_trans|].
    split; [|done]. intros [->| ->]%orb_true_iff.
    + pose proof (follows_stdin _ _ _ Hf2). specialize (Hlt1 eq_refl). lia.
    + pose proof (follows_stdin _ _ _ Hf1). specialize (Hlt2 eq_refl). lia.
  - intros c s2 (Hf2 & Hc). split; [by eapply follows_trans|done].
Qed.

Lemma runs_say noexit e : good e → runs false noexit (say e) (λ _, True).
Proof. intros He s _. simpl. split; [by apply follows_emit|done]. Qed.

Lemma runs_says noexit es : Forall good es → runs false noexit (says es) (λ _, True).
Proof. intros He s _. simpl. split; [by apply follows_emits|done]. Qed.

Lemma runs_input noexit : runs true noexit input (λ _, True).
Proof.
  intros s _. unfold input. destruct (stdin s) as [|l rest] eqn:Hs; simpl.
  - split; [apply follows_refl|done].
  - split; [apply follows_set_stdin; rewrite ?Hs; simpl; lia|].
    split; [|done]. intros _. rewrite ?Hs. simpl. lia.
Qed.

Lemma runs_get {A} noexit (f : state → A) : runs false noexit (get f) (λ _, True).
Proof. intros s _. simpl. split; [apply follows_refl|done]. Qed.

Lemma runs_put noexit r : runs false noexit (put_SELECT_RESULT r) (λ _, True).
Proof. intros s _. simpl. split; [apply follows_set_SELECT_RESULT|done]. Qed.

Lemma runs_sys_exit {A} strict code (post : A → Prop) :
  runs strict false (sys_exit code) post.
Proof. intros s _. simpl. split; [apply follows_refl|done]. Qed.

(** A loop whose body reads a line in every iteration ends: by [break]
    or [return], by [sys.exit], or at the end of the input. *)
Lemma runs_while {B R} noexit (body : M (ctl B R)) (post : B + R → Prop) :
  runs true noexit body
    (λ c, match c with
          | Continue => True
          | Break b => post (inl b)
          | Return r => post (inr r)
          end) →
  runs true noexit (while_true body) post.
Proof.
  intros Hbody s0 Hpre0. unfold while_true.
  assert (Hgen : ∀ n s, pre s → follows good s0 s →
            (s = s0 ∨ length (stdin s) < length (stdin s0)) →
            length (stdin s) < n →
            sat (while_fuel n body s)
              (λ a s', follows good s0 s'
                       ∧ (true = true → length (stdin s') < length (stdin s0))
                       ∧ post a)
              (λ c s', follows good s0 s' ∧ (noexit = true → c = None))).
  { induction n as [|n IH]; intros s Hpre Hf Hpos Hn; [lia|].
    cbn [while_fuel]. specialize (Hbody s Hpre).
    destruct (body s) as [[| b | r] s' | c s' | e s' |]; simpl in Hbody |- *.
    - destruct Hbody as (Hf' & Hlt & _). specialize (Hlt eq_refl).
      apply IH.
      + by eapply pre_follows.
      + by eapply follows_trans.
      + right. destruct Hpos as [->|Hpos]; lia.
      + lia.
    - destruct Hbody as (Hf' & Hlt & Hpost). specialize (Hlt eq_refl).
      split; [by eapply follows_trans|]. split; [|done].
      intros _. destruct Hpos as [->|Hpos]; lia.
    - destruct Hbody as (Hf' & Hlt & Hpost). specialize (Hlt eq_refl).
      split; [by eapply follows_trans|]. split; [|done].
      intros _. destruct Hpos as [->|Hpos]; lia.
    - destruct Hbody as (Hf' & Hc). split; [by eapply follows_trans|done].
    - destruct Hbody as (Hf' & Hc). split; [by eapply follows_trans|done].
    - done. }
  apply Hgen; [done|apply follows_refl|by left|lia].
Qed.

Lemma runs_after {B R} st1 st2 noexit (loop : M (B + R)) (k : B → M R)
    (mid : B + R → Prop) (post : R → Prop) :
  runs st1 noexit loop mid →
  (∀ b, mid (inl b) → runs st2 noexit (k b) post) →
  (∀ r, mid (inr r) → post r) →
  runs st1 noexit (after loop k) post.
Proof.
  intros Hloop Hk Hr s Hpre. unfold after. apply sat_bind.
  eapply sat_mono; [by apply Hloop| |done].
  intros [b|r] s1 (Hf1 & Hlt1 & Hmid); cbn beta iota.
  - eapply sat_mono; [apply (Hk b Hmid s1); by eapply pre_follows|..].
    + intros r s2 (Hf2 & _ & Hpost). split; [by eapply follows_trans|].
      split; [|done]. intros Hst.
      pose proof (follows_stdin _ _ _ Hf2). specialize (Hlt1 Hst). lia.
    + intros c s2 (Hf2 & Hc). split; [by eapply follows_trans|done].
  - simpl. auto.
Qed.

Lemma runs_forever {R} noexit (body : M (ctl Empty_set R)) (post : R → Prop) :
  runs true noexit body
    (λ c, match c with
          | Continue => True
          | Break b => True
          | Return r => post r
          end) →
  runs true noexit (forever body) post.
Proof.
  intros Hbody. unfold forever.
  apply (runs_after true false noexit _ _
           (λ x, match x with inl _ => True | inr r => post r end)).
  - apply runs_while. eapply runs_weaken; [exact Hbody|done..|].
    by intros [| [] |r].
  - intros [].
  - done.
Qed.

Lemma runs_until_break {B} noexit (loop : M (B + Empty_set)) (post : B → Prop) :
  runs true noexit loop (λ x, match x with inl b => post b | inr _ => True end) →
  runs true noexit (until_break loop) post.
Proof.
  intros Hloop s Hpre. unfold until_break. apply sat_bind.
  eapply sat_mono; [by apply Hloop| |done].
  intros [b|[]] s1 (Hf1 & Hlt1 & Hb). simpl. auto.
Qed.

End Runs.

(** ** The wizard, step by step *)

Section Wizard.

Context (s0 : state) (good : event → Prop).
Hypothesis good_plain : ∀ e, plain e → good e.

Abbreviation pre := (same_config s0).
Abbreviation runs' := (runs good pre).

Lemma pre_follows s s' : pre s → follows good s s' → pre s'.
Proof. intros Hs (Hc & _). by eapply same_config_trans. Qed.

Lemma runs_relax {A} noexit (m : M A) post :
  runs' true noexit m post → runs' false noexit m post.
Proof. intros Hm. eapply runs_weaken; [exact Hm|done..]. Qed.

Lemma runs_seq_first {A B} st noexit (m : M A) (k : A → M B) mid post :
  runs' true noexit m mid →
  (∀ a, mid a → runs' false noexit (k a) post) →
  runs' st noexit (bind m k) post.
Proof.
  intros Hm Hk. eapply runs_weaken;
    [apply (runs_bind good pre pre_follows true false noexit m k mid post Hm Hk)|done..].
Qed.

Lemma runs_seq_second {A B} st noexit (m : M A) (k : A → M B) mid post :
  runs' false noexit m mid →
  (∀ a, mid a → runs' st noexit (k a) post) →
  runs' st noexit (bind m k) post.
Proof.
  intros Hm Hk. eapply runs_weaken;
    [apply (runs_bind good pre pre_follows false st noexit m k mid post Hm Hk)|done..].
Qed.

Lemma runs_say_plain noexit e : plain e → runs' false noexit (say e) (λ _, True).
Proof. intros He. apply runs_say. by apply good_plain. Qed.

Lemma runs_says_plain noexit es :
  Forall plain es → runs' false noexit (says es) (λ _, True).
Proof. intros He. apply runs_says. eapply Forall_impl; [exact He|apply good_plain]. Qed.

Lemma runs_post_True {A} st noexit (m : M A) post :
  runs' st noexit m post → runs' st noexit m (λ _, True).
Proof. intros Hm. eapply runs_weaken; [exact Hm|done..]. Qed.

Lemma runs_invalid_choice st noexit : runs' st noexit invalid_choice (λ _, True).
Proof.
  unfold invalid_choice.
  eapply runs_seq_second; [by apply runs_say_plain|intros _ _].
  eapply runs_seq_first; [apply runs_input|intros _ _].
  apply runs_put.
Qed.

Lemma plain_items {A} (f : nat * A → nat * string) (l : list (nat * A)) :
  Forall plain ((λ ie, Item (f ie).1 (f ie).2) <$> l).
Proof. apply Forall_fmap, Forall_forall. by intros. Qed.

Lemma runs_entity_menu st noexit entity_type role_label vendor entities menu_title :
  runs' st noexit (entity_menu entity_type role_label vendor entities menu_title)
    (λ _, True).
Proof.
  unfold entity_menu. cbn zeta.
  eapply runs_seq_second; [by apply runs_say_plain|intros _ _].
  destruct (length entities =? 0).
  - eapply runs_seq_second.
    { destruct (String.eqb entity_type "vendor").
      - eapply runs_seq_second; [by apply runs_say_plain|intros _ _].
        by apply runs_say_plain.
      - by apply runs_say_plain. }
    intros _ _.
    eapply runs_seq_second; [by apply runs_say_plain|intros _ _].
    eapply runs_seq_first; [apply runs_input|intros line _].
    destruct (is_back _); [apply runs_put|apply runs_invalid_choice].
  - eapply runs_seq_second.
    { apply runs_says_plain. apply (plain_items (λ ie, (ie.1 + 1, ie.2))). }
    intros _ _.
    eapply runs_seq_second.
    { destruct (_ && _); [by apply runs_say_plain|by apply runs_ret]. }
    intros _ _.
    eapply runs_seq_second; [by apply runs_say_plain|intros _ _].
    eapply runs_seq_first; [apply runs_input|intros line _].
    eapply runs_seq_second; [apply runs_put|intros _ _].
    destruct (is_back _); [apply runs_put|].
    destruct (_ && _); [apply runs_put|].
    destruct (Py.isdigit _); [|apply runs_invalid_choice].
    destruct (_ && _)%bool; [apply runs_put|apply runs_invalid_choice].
Qed.

Lemma runs_select_vendor st noexit role_label vendor :
  runs' st noexit (select_entity "vendor" role_label vendor) (λ _, True).
Proof.
  unfold select_entity. cbn [String.eqb Ascii.eqb Bool.eqb].
  eapply runs_seq_second; [apply runs_get|intros entities _].
  apply runs_entity_menu.
Qed.

Lemma runs_select_model st noexit role_label vendor :
  runs' st noexit (select_entity "model" role_label (Some vendor)) (λ _, True).
Proof.
  unfold select_entity. cbn [String.eqb Ascii.eqb Bool.eqb].
  eapply runs_seq_second; [apply runs_get|intros entities _].
  apply runs_entity_menu.
Qed.

Lemma runs_select_edit_format st noexit mode :
  mode = "code" ∨ mode = "architect" →
  runs' st noexit (select_edit_format mode) (λ _, True).
Proof.
  intros Hmode. unfold select_edit_format.
  assert (String.eqb mode "code" || String.eqb mode "architect" = true) as ->
    by (by destruct Hmode as [-> | ->]).
  eapply runs_seq_second; [apply runs_get|intros formats _]. cbn zeta.
  eapply runs_seq_second; [by apply runs_say_plain|intros _ _].
  eapply runs_seq_second.
  { apply runs_says_plain. apply (plain_items (λ ie, (ie.1 + 1, ie.2))). }
  intros _ _.
  eapply runs_seq_second; [by apply runs_say_plain|intros _ _].
  eapply runs_seq_first; [apply runs_input|intros line _].
  eapply runs_seq_second; [apply runs_put|intros _ _].
  destruct (is_back _); [apply runs_put|].
  destruct (Py.isdigit _); [|apply runs_invalid_choice].
  destruct (_ && _)%bool; [|apply runs_invalid_choice].
  destruct (_ =? 0)%Z; apply runs_put.
Qed.

Lemma runs_on_select {B R} st noexit (invalid back : M (ctl B R))
    (chosen : string → M (ctl B R)) post :
  runs' st noexit invalid post → runs' st noexit back post →
  (∀ v, runs' st noexit (chosen v) post) →
  runs' st noexit (on_select invalid back chosen) post.
Proof.
  intros Hi Hb Hc. unfold on_select.
  eapply runs_seq_second; [apply runs_get|intros r _].
  case_bool_decide; [done|]. destruct r; auto.
Qed.

Lemma plain_report s vendor kv k : Forall plain (check_api_key_report s vendor kv k).
Proof.
  unfold check_api_key_report. repeat apply Forall_app_2.
  - by repeat constructor.
  - destruct (String.eqb vendor "GOOGLE"); by repeat constructor.
  - constructor; [by repeat case_match|by repeat constructor].
Qed.

Lemma runs_check_api_key vendor :
  runs' false false (check_api_key vendor) (λ _, True).
Proof.
  intros s Hpre. unfold check_api_key.
  destruct (index vendor (VENDORS s)) as [i|].
  - cbn zeta. destruct (_ || _).
    + rewrite exit_after_report. cbn [sat]. split; [|done]. apply follows_emits.
      eapply Forall_impl; [apply plain_report|apply good_plain].
    + simpl. split; [apply follows_refl|done].
  - simpl. split; [|done]. by apply follows_emit, good_plain.
Qed.

End Wizard.

(** ** Launch confirmation *)

Section Launch.

Context (s0 : state) (mode main_vendor main_model : string)
        (editor_vendor editor_model : option string).

Abbreviation base := (launch_base s0 mode main_vendor main_model editor_vendor editor_model).
Abbreviation good := (from_base base).
Abbreviation runs0 := (runs good (same_config s0)).

Lemma good_plain e : plain e → good e.
Proof. by destruct e. Qed.

(** The builders return a value and write at most a line on stderr. *)
Lemma build_main_returns mv mm s :
  ∃ s', _build_main_model_args mv mm s
        = Ok (value_of (_build_main_model_args mv mm s)) s'
        ∧ follows good s s'.
Proof.
  unfold _build_main_model_args.
  destruct (_get_vendor_index s mv); cbn zeta.
  - repeat case_match; eexists; (split; [reflexivity|apply follows_refl]).
  - eexists. split; [reflexivity|]. by apply follows_emit.
Qed.

Lemma get_api_key_value_returns v s :
  ∃ r s', _get_api_key_value v s = Ok r s' ∧ follows good s s'.
Proof.
  unfold _get_api_key_value.
  destruct (index v (VENDORS s)).
  - repeat case_match; do 2 eexists; (split; [reflexivity|apply follows_refl]).
  - do 2 eexists. split; [reflexivity|]. by apply follows_emit.
Qed.

Lemma build_architect_ok ev em mv s :
  ∃ a s', _build_architect_args ev em mv s = Ok a s' ∧ follows good s s'.
Proof.
  assert (Hret : ∀ a : list string, ∃ a' s', ret a s = Ok a' s' ∧ follows good s s').
  { intros a. exists a, s. split; [done|apply follows_refl]. }
  unfold _build_architect_args.
  destruct em as [em|]; [|apply Hret].
  destruct (negb _); [|apply Hret].
  destruct (_ && _); [|apply Hret].
  destruct ev as [ev|].
  - unfold bind, get, id. cbn beta iota.
    destruct (_get_vendor_index s ev).
    + case_bool_decide; [|apply Hret].
      destruct (get_api_key_value_returns ev s) as (r & s' & -> & Hf).
      destruct r as [v|]; [destruct (negb _)|]; do 2 eexists; (split; [reflexivity|exact Hf]).
    + do 2 eexists. split; [reflexivity|]. by apply follows_emit.
  - do 2 eexists. split; [reflexivity|]. by apply follows_emit.
Qed.

Lemma build_architect_returns ev em mv s :
  ∃ s', _build_architect_args ev em mv s
        = Ok (value_of (_build_architect_args ev em mv s)) s'
        ∧ follows good s s'.
Proof.
  destruct (build_architect_ok ev em mv s) as (a & s' & Ha & Hf).
  exists s'. by rewrite Ha.
Qed.

(** Their values depend on the configuration only. *)
Lemma build_main_same_config mv mm s s' :
  same_config s s' →
  value_of (_build_main_model_args mv mm s') = value_of (_build_main_model_args mv mm s).
Proof.
  intros []. unfold _build_main_model_args, _get_vendor_index, env_set.
  rewrite sc_VENDORS0, sc_SOURCE0, sc_VARS0, sc_environ0.
  repeat case_match; done.
Qed.

Lemma get_api_key_value_same_config v s s' r s1 :
  same_config s s' → _get_api_key_value v s = Ok r s1 →
  ∃ s1', _get_api_key_value v s' = Ok r s1'.
Proof.
  intros []. unfold _get_api_key_value.
  rewrite sc_VENDORS0, sc_VARS0, sc_environ0.
  assert (Hfirst : ∀ vars, first_set s' vars = first_set s vars).
  { induction vars as [|x vars IH]; [done|]. cbn [first_set].
    unfold env_set. by rewrite sc_environ0, IH. }
  repeat case_match; intros Hr; rewrite ?Hfirst; injection Hr as <- <-; eauto.
Qed.

Lemma build_architect_same_config ev em mv s s' :
  same_config s s' →
  value_of (_build_architect_args ev em mv s') = value_of (_build_architect_args ev em mv s).
Proof.
  intros Hsc. unfold _build_architect_args.
  destruct em as [em|]; [|done].
  destruct (negb _); [|done].
  destruct (_ && _); [|done].
  destruct ev as [ev|]; [|done].
  unfold bind, get, id. cbn beta iota. unfold _get_vendor_index.
  rewrite (sc_VENDORS _ _ Hsc), (sc_SOURCE _ _ Hsc).
  destruct (index ev (VENDORS s)); [|done].
  case_bool_decide; [|done].
  destruct (get_api_key_value_returns ev s) as (r & s1 & Hr & _).
  destruct (get_api_key_value_same_config ev s s' r s1 Hsc Hr) as (s1' & Hr').
  rewrite Hr, Hr'. by repeat case_match.
Qed.

Lemma launch_base_same_config s s' :
  same_config s s' →
  launch_base s' mode main_vendor main_model editor_vendor editor_model
  = launch_base s mode main_vendor main_model editor_vendor editor_model.
Proof.
  intros Hsc. unfold launch_base.
  by rewrite (build_main_same_config _ _ s s'), (build_architect_same_config _ _ _ s s').
Qed.

Lemma runs_build_main noexit :
  runs0 false noexit (_build_main_model_args main_vendor main_model)
    (λ a, a = value_of (_build_main_model_args main_vendor main_model s0)).
Proof.
  intros s Hpre.
  destruct (build_main_returns main_vendor main_model s) as (s' & -> & Hf).
  simpl. split; [done|]. split; [done|]. by apply build_main_same_config.
Qed.

Lemma runs_build_architect noexit :
  runs0 false noexit (_build_architect_args editor_vendor editor_model main_vendor)
    (λ a, a = value_of (_build_architect_args editor_vendor editor_model main_vendor s0)).
Proof.
  intros s Hpre.
  destruct (build_architect_returns editor_vendor editor_model main_vendor s) as (s' & -> & Hf).
  simpl. split; [done|]. split; [done|]. by apply build_architect_same_config.
Qed.

Local Ltac say_plain := apply runs_say_plain; [apply good_plain|done].

Lemma runs_confirm_step noexit n launch_title selected_format :
  runs0 true noexit (confirm_step n launch_title base selected_format) (λ _, True).
Proof.
  unfold confirm_step. cbn zeta.
  eapply runs_seq_second; [say_plain|intros _ _].
  eapply runs_seq_second; [apply runs_say; by exists selected_format|intros _ _].
  eapply runs_seq_second; [say_plain|intros _ _].
  eapply runs_seq_second; [say_plain|intros _ _].
  eapply runs_seq_second; [say_plain|intros _ _].
  eapply runs_seq_first; [apply runs_input|intros line _].
  destruct (String.eqb _ "1").
  - eapply runs_seq_second; [apply runs_say; by exists selected_format|intros _ _].
    eapply runs_seq_second; [apply runs_get|intros t _].
    destruct (run_aider t n _) as [rc| |e].
    + destruct (negb _); [|by apply runs_ret].
      eapply runs_seq_second; [say_plain|intros _ _].
      eapply runs_seq_second; [apply runs_relax, runs_input|intros _ _].
      by apply runs_ret.
    + eapply runs_seq_second; [say_plain|intros _ _].
      eapply runs_seq_second; [apply runs_relax, runs_input|intros _ _].
      by apply runs_ret.
    + eapply runs_seq_second; [say_plain|intros _ _].
      eapply runs_seq_second; [apply runs_relax, runs_input|intros _ _].
      by apply runs_ret.
  - destruct (String.eqb _ "2"); [by apply runs_ret|].
    destruct (String.eqb _ "0"); [by apply runs_ret|].
    eapply runs_seq_second; [say_plain|intros _ _].
    eapply runs_seq_second; [apply runs_relax, runs_input|intros _ _].
    by apply runs_ret.
Qed.

(** [launch_aider] returns a status to its caller or stops at an uncaught
    exception; it never calls [sys.exit]. *)
Lemma runs_launch_aider selected_format :
  runs0 false true
    (launch_aider mode main_vendor main_model editor_vendor editor_model selected_format)
    (λ _, True).
Proof.
  unfold launch_aider. cbn zeta.
  eapply runs_seq_second; [apply runs_build_main|intros main_args ->].
  eapply runs_seq_second with
    (mid := λ a, a = if String.eqb mode "architect"
                     then value_of (_build_architect_args editor_vendor editor_model main_vendor s0)
                     else _build_code_args).
  { destruct (String.eqb mode "architect"); [apply runs_build_architect|by apply runs_ret]. }
  intros mode_args ->.
  eapply runs_seq_second; [apply runs_get|intros n _].
  eapply runs_seq_second with (mid := λ _, True).
  { intros s _. simpl. split; [apply follows_set_launches|done]. }
  intros _ _.
  eapply runs_seq_second; [apply runs_get|intros t _].
  destruct (command_v t n) as [rc| |e].
  - destruct (negb _).
    + eapply runs_seq_second; [say_plain|intros _ _].
      eapply runs_seq_second; [say_plain|intros _ _].
      eapply runs_seq_second; [apply runs_relax, runs_input|intros _ _].
      by apply runs_ret.
    + apply runs_relax. apply runs_forever; [apply pre_follows|].
      eapply runs_weaken; [apply (runs_confirm_step true n)|done..|].
      by intros [| |].
  - intros s _. simpl. split; [apply follows_refl|done].
  - intros s _. simpl. split; [apply follows_refl|done].
Qed.

Lemma runs_format_launch_step :
  mode = "code" ∨ mode = "architect" →
  runs0 true true
    (format_launch_step mode main_vendor main_model editor_vendor editor_model)
    (λ _, True).
Proof.
  intros Hmode. unfold format_launch_step.
  eapply runs_seq_first; [apply runs_select_edit_format; [apply good_plain|done]|intros _ _].
  apply runs_on_select; [by apply runs_ret|by apply runs_ret|].
  intros selected_format.
  eapply runs_seq_second; [apply runs_launch_aider|intros launch_status _].
  destruct (_ =? 2)%Z; by apply runs_ret.
Qed.

Lemma runs_format_loop :
  mode = "code" ∨ mode = "architect" →
  runs0 true true
    (forever (format_launch_step mode main_vendor main_model editor_vendor editor_model))
    (λ _, True).
Proof.
  intros Hmode. apply runs_forever; [apply pre_follows|].
  eapply runs_weaken; [by apply runs_format_launch_step|done..|].
  by intros [| |].
Qed.

End Launch.

(** ** The format-selection and launch loop *)

(** C10.  In the loop of edit-format selection and launch confirmation,
    started for the selection (main vendor, main model, editor vendor, editor
    model), every command that is rendered or spawned is the base command of
    that same selection followed by at most the [--edit-format] pair: going
    back to format selection and confirming again changes the format and
    nothing else.  The loop ends (by returning to the mode menu or at the end
    of the input) and never exits the process. *)
Theorem selection_fixed_in_format_loop (s : state) (mode main_vendor main_model : string)
    (editor_vendor editor_model : option string) :
  mode = "code" ∨ mode = "architect" →
  let base := launch_base s mode main_vendor main_model editor_vendor editor_model in
  sat (forever (format_launch_step mode main_vendor main_model
                  editor_vendor editor_model) s)
    (λ _ s', Forall (from_base base) (added s s'))
    (λ c s', c = None ∧ Forall (from_base base) (added s s')).
Proof.
  intros Hmode base.
  pose proof (runs_format_loop s mode main_vendor main_model editor_vendor
                editor_model Hmode s (same_config_refl s)) as Hrun.
  eapply sat_mono; [exact Hrun|..].
  - intros _ s' (Hf & _). by eapply follows_added.
  - intros c s' (Hf & Hc). split; [by apply Hc|by eapply follows_added].
Qed.

Lemma selection_fixed_in_format_loop_witness :
  let s := Ex.session {[ "OPENAI_API_KEY" := "sk-env" ]} ∅ Ex.aider_ok
             ["2"; "2"; "3"; "0"] in
  let base := launch_base s "code" "OPENAI" "gpt-4o" None None in
  sat (forever (format_launch_step "code" "OPENAI" "gpt-4o" None None) s)
    (λ _ s', Forall (from_base base) (added s s'))
    (λ c s', c = None ∧ Forall (from_base base) (added s s')).
Proof.
  intros s. apply (selection_fixed_in_format_loop s "code" "OPENAI" "gpt-4o" None None).
  left. reflexivity.
Defined.

(** In that session the format is chosen twice, and the two renderings
    differ in the format only. *)
Example format_loop_renders_twice :
  let s := Ex.session {[ "OPENAI_API_KEY" := "sk-env" ]} ∅ Ex.aider_ok
             ["2"; "2"; "3"; "0"] in
  let o := forever (format_launch_step "code" "OPENAI" "gpt-4o" None None) s in
  launch_base s "code" "OPENAI" "gpt-4o" None None
  = ["aider"; "--model"; "gpt-4o"; "--chat-mode"; "code"]
  ∧ commands (drop (length (trace s)) (final_trace o))
    = [ ["aider"; "--model"; "gpt-4o"; "--chat-mode"; "code"; "--edit-format"; "whole"];
        ["aider"; "--model"; "gpt-4o"; "--chat-mode"; "code"; "--edit-format"; "diff"] ].
Proof. vm_compute. done. Qed.

(** ** Launch failures and exit statuses *)

Section LaunchFailure.

Lemma at_most_said_fields s s' :
  at_most_said s s' →
  external s' = external s ∧ launches s' = launches s ∧ stdin s' = stdin s.
Proof. by intros [-> | [line ->]]. Qed.

Lemma at_most_said_trans_fields s s1 s2 :
  at_most_said s s1 → at_most_said s1 s2 →
  external s2 = external s ∧ launches s2 = launches s ∧ stdin s2 = stdin s.
Proof.
  intros (?&?&?)%at_most_said_fields (?&?&?)%at_most_said_fields.
  repeat split; congruence.
Qed.

Lemma build_main_said mv mm s :
  ∃ a s', _build_main_model_args mv mm s = Ok a s' ∧ at_most_said s s'.
Proof.
  unfold _build_main_model_args.
  destruct (_get_vendor_index s mv); cbn zeta.
  - repeat case_match; do 2 eexists; (split; [reflexivity|by left]).
  - do 2 eexists. split; [reflexivity|]. right. eauto.
Qed.

Lemma build_architect_said ev em mv s :
  ∃ a s', _build_architect_args ev em mv s = Ok a s' ∧ at_most_said s s'.
Proof.
  assert (Hret : ∀ a : list string, ∃ a' s', ret a s = Ok a' s' ∧ at_most_said s s').
  { intros a. exists a, s. split; [done|by left]. }
  unfold _build_architect_args.
  destruct em as [em|]; [|apply Hret].
  destruct (negb _); [|apply Hret].
  destruct (_ && _); [|apply Hret].
  destruct ev as [ev|].
  - unfold bind, get, id. cbn beta iota. unfold _get_vendor_index, _get_api_key_value.
    destruct (index ev (VENDORS s)) eqn:Hidx.
    + case_bool_decide; [|apply Hret].
      cbn beta. rewrite Hidx.
      destruct (VENDOR_API_KEY_VARS s !!! _); cbn beta iota;
        repeat case_match; do 2 eexists; (split; [reflexivity|by left]).
    + do 2 eexists. split; [reflexivity|]. right. eauto.
  - do 2 eexists. split; [reflexivity|]. right. eauto.
Qed.

Lemma mode_args_said mode ev em mv s :
  ∃ a s', (if String.eqb mode "architect" then _build_architect_args ev em mv
           else ret _build_code_args) s = Ok a s'
          ∧ at_most_said s s'.
Proof.
  destruct (String.eqb mode "architect"); [apply build_architect_said|].
  do 2 eexists. split; [reflexivity|by left].
Qed.




End LaunchFailure.




(** ** The selection menus *)

Section Menus.

Lemma emits_fields es : ∀ s,
  trace (emits es s) = trace s ++ es
  ∧ stdin (emits es s) = stdin s
  ∧ SELECT_RESULT (emits es s) = SELECT_RESULT s.
Proof.
  induction es as [|e es IH]; intros s; unfold emits; cbn [foldl flip].
  - by rewrite app_nil_r.
  - destruct (IH (emit e s)) as (Ht & Hi & Hr). unfold emits in Ht, Hi, Hr.
    rewrite Ht, Hi, Hr. cbn [trace stdin SELECT_RESULT emit].
    by rewrite <- app_assoc.
Qed.

Lemma trace_emits es s : trace (emits es s) = trace s ++ es.
Proof. apply emits_fields. Qed.

Lemma stdin_emits es s : stdin (emits es s) = stdin s.
Proof. apply emits_fields. Qed.

Lemma items_app es1 es2 : items (es1 ++ es2) = items es1 ++ items es2.
Proof. apply omap_app. Qed.

Lemma items_numbered (l : list (nat * string)) :
  items ((λ ie, Item (ie.1 + 1) ie.2) <$> l) = (λ ie, (ie.1 + 1, ie.2)) <$> l.
Proof. induction l as [|[i x] l IH]; [done|]. cbn. f_equal. exact IH. Qed.

Lemma items_title t es : items (Title t :: es) = items es.
Proof. reflexivity. Qed.

Lemma items_item n label es : items (Item n label :: es) = (n, label) :: items es.
Proof. reflexivity. Qed.

Lemma added_app s s' es : trace s' = trace s ++ es → added s s' = es.
Proof. intros Ht. unfold added. by rewrite Ht, drop_app_length. Qed.

Local Ltac menu_case Hshape tail :=
  cbn beta iota; intros [= <-]; split;
  [ apply (Hshape _ _ tail); [|done];
    cbn [trace emit set_stdin set_SELECT_RESULT]; rewrite trace_emits;
    cbn [trace emit]; by rewrite <- !app_assoc
  | ].

(** What a menu of [select_entity] shows and what it can leave in
    SELECT_RESULT. *)
Lemma entity_menu_ok entity_type role_label vendor entities menu_title s s' :
  entity_menu entity_type role_label vendor entities menu_title s = Ok tt s' →
  items (added s s')
  = numbered entities ++ nine entity_type role_label entities ++ [(0, "Back")]
  ∧ (SELECT_RESULT s' = None
     ∨ SELECT_RESULT s' = Some "invalid"
     ∨ (String.eqb entity_type "vendor" && String.eqb role_label "Editor" = true
        ∧ entities ≠ [] ∧ SELECT_RESULT s' = Some "default")
     ∨ ∃ v, SELECT_RESULT s' = Some v ∧ v ∈ entities).
Proof.
  unfold entity_menu, invalid_choice, nine, numbered. cbn zeta.
  destruct (length entities =? 0) eqn:Hlen.
  - assert (entities = []) as ->.
    { apply Nat.eqb_eq in Hlen. by destruct entities. }
    rewrite andb_false_r.
    unfold bind, say, input, put_SELECT_RESULT.
    destruct (String.eqb entity_type "vendor"); cbn [stdin emit];
      destruct (stdin s) as [|line rest]; try done;
      (destruct (is_back _);
       [|cbn [stdin emit set_stdin]; destruct rest as [|enter rest]; try done]);
      intros [= <-]; (split; [|auto]);
      (erewrite added_app; [|cbn [trace emit set_stdin set_SELECT_RESULT];
                             rewrite <- !app_assoc; reflexivity]);
      reflexivity.
  - rewrite andb_true_r.
    assert (Hne : entities ≠ []) by (by intros ->).
    unfold bind, say, says, input, put_SELECT_RESULT, ret.
    set (shown := (λ ie : nat * string, Item (ie.1 + 1) ie.2) <$> enumerate entities).
    set (editor := String.eqb entity_type "vendor" && String.eqb role_label "Editor").
    assert (Hshape : ∀ r (s1 : state) tail,
              trace s1 = trace s ++ Title (if String.eqb menu_title EmptyString
                           then "         SELECT " +:+ Py.upper role_label +:+ " "
                                +:+ Py.upper entity_type +:+ "         "
                           else menu_title)
                         :: shown ++ (if editor then [Item 9 "Use same VENDOR and MODEL as Architect"] else [])
                         ++ Item 0 "Back" :: tail →
              items tail = [] →
              items (added s (set_SELECT_RESULT r s1))
              = ((λ ie : nat * string, (ie.1 + 1, ie.2)) <$> enumerate entities)
                ++ (if editor then [(9, "Use same VENDOR and MODEL as Architect")] else [])
                ++ [(0, "Back")]).
    { intros r s1 tail Ht Htail.
      erewrite added_app; [|cbn [trace set_SELECT_RESULT]; exact Ht].
      rewrite items_title, !items_app. unfold shown. rewrite items_numbered.
      rewrite items_item, Htail. by destruct editor. }
    assert (Hpick : ∀ i, SELECT_RESULT (set_SELECT_RESULT (entities !! i) s) = None
                    ∨ ∃ v, entities !! i = Some v ∧ v ∈ entities).
    { intros i. destruct (entities !! i) as [v|] eqn:Hv; [right|by left].
      exists v. split; [done|]. by eapply list_elem_of_lookup_2. }
    destruct editor eqn:Hed; cbn [stdin emit]; rewrite stdin_emits; cbn [stdin emit];
      destruct (stdin s) as [|line rest]; try done;
      cbn [stdin emit set_stdin set_SELECT_RESULT andb].
    + destruct (is_back _); [menu_case Hshape (@nil event); auto 10|].
      destruct (String.eqb (Py.strip line) "9"); [menu_case Hshape (@nil event); auto 10|].
      destruct (Py.isdigit _); [destruct (andb (Z.leb 0 _) _)|].
      * menu_case Hshape (@nil event). cbn [SELECT_RESULT set_SELECT_RESULT].
        destruct (Hpick (Z.to_nat (Z.of_nat (Py.int (Py.strip line)) - 1)))
          as [Hn|(v & -> & Hv)]; [left; exact Hn|eauto 10].
      * cbn beta iota. cbn [stdin emit set_stdin set_SELECT_RESULT].
        destruct rest as [|enter rest]; [done|].
        menu_case Hshape [Stderr "Invalid choice."]. auto.
      * cbn beta iota. cbn [stdin emit set_stdin set_SELECT_RESULT].
        destruct rest as [|enter rest]; [done|].
        menu_case Hshape [Stderr "Invalid choice."]. auto.
    + destruct (is_back _); [menu_case Hshape (@nil event); auto 10|].
      destruct (Py.isdigit _); [destruct (andb (Z.leb 0 _) _)|].
      * menu_case Hshape (@nil event). cbn [SELECT_RESULT set_SELECT_RESULT].
        destruct (Hpick (Z.to_nat (Z.of_nat (Py.int (Py.strip line)) - 1)))
          as [Hn|(v & -> & Hv)]; [left; exact Hn|eauto 10].
      * cbn beta iota. cbn [stdin emit set_stdin set_SELECT_RESULT].
        destruct rest as [|enter rest]; [done|].
        menu_case Hshape [Stderr "Invalid choice."]. auto.
      * cbn beta iota. cbn [stdin emit set_stdin set_SELECT_RESULT].
        destruct rest as [|enter rest]; [done|].
        menu_case Hshape [Stderr "Invalid choice."]. auto.
Qed.

End Menus.

(** ** Vendor selection *)

Section VendorSelection.

Lemma available_vendors_spec s v :
  v ∈ available_vendors s
  ↔ ∃ i, VENDORS s !! i = Some v ∧ VENDOR_KEY_SOURCE s !!! i ≠ Unset.
Proof.
  unfold available_vendors, enumerate. rewrite list_elem_of_fmap. split.
  - intros ([i x] & -> & Hin). apply list_elem_of_In, filter_In in Hin as [Hin Hsrc].
    apply list_elem_of_In, elem_of_lookup_imap in Hin as (j & y & [= -> ->] & Hl).
    exists j. split; [done|]. simpl in Hsrc.
    apply negb_true_iff in Hsrc. by apply bool_decide_eq_false in Hsrc.
  - intros (i & Hl & Hsrc). exists (i, v). split; [done|].
    apply list_elem_of_In, filter_In. split.
    + apply list_elem_of_In. by apply (elem_of_lookup_imap_2 pair).
    + simpl. apply negb_true_iff. by apply bool_decide_eq_false.
Qed.

Lemma select_vendor_unfold role_label vendor s :
  select_entity "vendor" role_label vendor s
  = entity_menu "vendor" role_label vendor (available_vendors s)
      (role_title role_label TITLE_CODE_VENDOR TITLE_ARCH_VENDOR TITLE_EDITOR_VENDOR) s.
Proof. reflexivity. Qed.

Lemma select_model_unfold role_label vendor s :
  select_entity "model" role_label (Some vendor) s
  = entity_menu "model" role_label (Some vendor) (default [] (VENDOR_MODELS s !! vendor))
      (role_title role_label TITLE_CODE_MODEL TITLE_ARCH_MODEL TITLE_EDITOR_MODEL) s.
Proof. reflexivity. Qed.


Lemma vendor_step_chosen role_label (chosen : string → M (ctl string unit)) s v s' :
  (select_entity "vendor" role_label None;;
   on_select (ret Continue) (ret (Return tt)) chosen) s = Ok (Break v) s' →
  ∃ s1 v1, select_entity "vendor" role_label None s = Ok tt s1
           ∧ SELECT_RESULT s1 = Some v1 ∧ v1 ≠ "invalid"
           ∧ chosen v1 s1 = Ok (Break v) s'.
Proof.
  unfold bind at 1.
  destruct (select_entity "vendor" role_label None s) as [[] s1| | |]; try done.
  unfold on_select, bind, get.
  case_bool_decide as Hinv; [done|].
  destruct (SELECT_RESULT s1) as [v1|] eqn:Hres; [|done].
  intros Hchosen. exists s1, v1. repeat split; try done. congruence.
Qed.

End VendorSelection.



(** In that session GOOGLE has no key: the menu lists the two others, and
    the second entry is accepted. *)
Example vendor_menu_example :
  let s := Ex.session {[ "OPENAI_API_KEY" := "sk-env" ]} Ex.keys_file Ex.aider_ok ["2"; "0"] in
  let o := select_entity "vendor" "Code" None s in
  VENDOR_KEY_SOURCE s = [Env; Unset; File]
  ∧ items (drop (length (trace s)) (final_trace o)) = [(1, "OPENAI"); (2, "MISTRAL"); (0, "Back")]
  ∧ (SELECT_RESULT <$> final o) = Some (Some "MISTRAL").
Proof. vm_compute. done. Qed.

(** ** The editor-vendor menu and its entry 9 *)

Lemma entity_menu_nine vendor entities menu_title s line rest :
  stdin s = line :: rest → Py.strip line = "9" → entities ≠ [] →
  ∃ s', entity_menu "vendor" "Editor" vendor entities menu_title s = Ok tt s'
        ∧ SELECT_RESULT s' = Some "default" ∧ stdin s' = rest.
Proof.
  intros Hin Hline Hne. unfold entity_menu. cbn zeta.
  assert ((length entities =? 0) = false) as ->.
  { apply Nat.eqb_neq. by destruct entities. }
  unfold bind, say, says, input, put_SELECT_RESULT, ret.
  cbn [String.eqb Ascii.eqb Bool.eqb andb stdin emit].
  rewrite stdin_emits. cbn [stdin emit]. rewrite Hin, Hline.
  cbn [is_back String.eqb Ascii.eqb Bool.eqb orb andb].
  eexists. split; [reflexivity|done].
Qed.

(** C9.  In the editor-vendor menu the input "9" is taken as "use the
    same vendor and model as the architect" before it is read as a number:
    the step leaves with the sentinel "default", the editor model is set to
    "default" without a model menu, and the architect arguments carry no
    editor model.  This holds for any number of listed vendors, so with nine
    or more the ninth is not what "9" selects.  The menu lists at least one
    vendor whenever the wizard reaches it (lemma [editor_menu_not_empty]). *)
Theorem nine_means_reuse_main (s : state) (line : string) (rest : list string) :
  stdin s = line :: rest → Py.strip line = "9" → available_vendors s ≠ [] →
  ∃ s', select_entity "vendor" "Editor" None s = Ok tt s'
        ∧ SELECT_RESULT s' = Some "default"
        ∧ stdin s' = rest
        ∧ editor_vendor_step s = Ok (Break "default") s'
        ∧ editor_model_select "default" s' = Ok (inl "default") s'
        ∧ ∀ main_vendor,
            _build_architect_args (Some "default") (Some "default") main_vendor s'
            = Ok ["--architect"] s'.
Proof.
  intros Hin Hline Hne.
  destruct (entity_menu_nine None (available_vendors s)
              (role_title "Editor" TITLE_CODE_VENDOR TITLE_ARCH_VENDOR TITLE_EDITOR_VENDOR)
              s line rest Hin Hline Hne) as (s' & Hsel & Hres & Hrest).
  rewrite <- select_vendor_unfold in Hsel.
  exists s'. repeat split; try done.
  unfold editor_vendor_step. unfold bind at 1. rewrite Hsel.
  unfold on_select, bind, get. rewrite Hres. by rewrite bool_decide_eq_false_2.
Qed.

Lemma nine_means_reuse_main_witness :
  let s := Ex.session9 ["9"; "1"; "0"] in
  available_vendors s !! 8 = Some "I"
  ∧ ∃ s', editor_vendor_step s = Ok (Break "default") s' ∧ stdin s' = ["1"; "0"].
Proof.
  intros s. split; [reflexivity|].
  destruct (nine_means_reuse_main s "9" ["1"; "0"]) as (s' & _ & _ & Hrest & Hstep & _);
    [reflexivity | reflexivity | by vm_compute |].
  exists s'. split; [exact Hstep | exact Hrest].
Defined.

(** ** Going back *)

Section Back.





End Back.




(** ** The parallel lists stay parallel *)

Section Parallel.

Lemma parallel_mark i k s : parallel s → parallel (mark i k s).
Proof. intros [Hs Hv]. split; simpl; [by rewrite length_insert|done]. Qed.

Lemma parallel_env_names_loop vendor i vars : ∀ s,
  parallel s → parallel (env_names_loop vendor i vars s).2.
Proof.
  induction vars as [|var vars IH]; intros s Hs; cbn [env_names_loop]; [done|].
  destruct (env_set s var); [|by apply IH].
  cbn [snd]. apply parallel_mark. by repeat case_match.
Qed.

Lemma parallel_env_vendor_body acc iv :
  parallel acc.2 → parallel (env_vendor_body acc iv).2.
Proof.
  destruct acc as [b s], iv as [i vendor]. cbn [snd]. intros Hs.
  unfold env_vendor_body. destruct (VENDOR_API_KEY_VARS s !!! i) as [var|vars].
  - destruct (env_set s var); by apply parallel_mark.
  - pose proof (parallel_env_names_loop vendor i vars s Hs) as Hloop.
    destruct (env_names_loop vendor i vars s) as [[] s']; [done|].
    by apply parallel_mark.
Qed.

Lemma parallel_load_env s : parallel s → parallel (_load_keys_from_env s).2.
Proof.
  intros Hs. unfold _load_keys_from_env.
  set (s1 := emit _ s). assert (Hs1 : parallel (true, s1).2) by done.
  generalize dependent (true, s1). generalize (enumerate (VENDORS s1)).
  intros ivs. induction ivs as [|iv ivs IH]; intros acc Hacc; cbn [foldl].
  - destruct acc as [[] s2]; exact Hacc.
  - apply IH. by apply parallel_env_vendor_body.
Qed.

Lemma parallel_load_file path s : parallel s → parallel (_load_keys_from_file path s).
Proof.
  intros [Hsrc Hkv].
  destruct (load_file_same path s) as (Hkv' & Hvs' & _ & _ & Hlen' & _).
  cbn zeta in *. split; congruence.
Qed.

(** After start-up every index taken from VENDORS is in range for the key
    variables and the key sources. *)
Lemma parallel_load c s : parallel (load_api_keys (initialize_configuration c s)).
Proof.
  assert (Hinit : parallel (initialize_configuration c s)).
  { split; simpl; [by rewrite length_replicate|].
    unfold api_key_vars_of. destruct (index "GOOGLE" (cfg_vendors c));
      by rewrite ?length_insert, length_fmap. }
  unfold load_api_keys.
  set (s1 := emit _ (initialize_configuration c s)).
  assert (Hs1 : parallel s1) by done.
  pose proof (parallel_load_env s1 Hs1) as Hs2.
  destruct (_find_keys_file _); [|done].
  by apply (parallel_load_file s0) in Hs2.
Qed.

End Parallel.

(** ** Every session ends *)

Section Ends.

Context (s0 : state).

Abbreviation any := (λ _ : event, True).
Abbreviation runs1 := (runs any (same_config s0)).

Lemma any_plain e : plain e → any e.
Proof. done. Qed.

Lemma runs_any {A} good st noexit (m : M A) post :
  runs good (same_config s0) st noexit m post → runs1 st noexit m post.
Proof.
  intros Hm s Hpre. eapply sat_mono; [by apply Hm|..].
  - intros a s' ((Hc & Hl & es & Ht & _) & Hrest). split; [|done].
    split; [done|]. split; [done|]. exists es. split; [done|].
    by apply Forall_forall.
  - intros c s' ((Hc & Hl & es & Ht & _) & Hrest). split; [|done].
    split; [done|]. split; [done|]. exists es. split; [done|].
    by apply Forall_forall.
Qed.

Lemma runs_format_loop_any mode main_vendor main_model editor_vendor editor_model :
  mode = "code" ∨ mode = "architect" →
  runs1 true false
    (forever (format_launch_step mode main_vendor main_model editor_vendor editor_model))
    (λ _, True).
Proof.
  intros Hmode. eapply runs_weaken; [|done..].
  eapply runs_any. by apply runs_format_loop.
Qed.

Lemma runs_vendor_step role_label :
  runs1 true false
    (select_entity "vendor" role_label None;;
     on_select (ret Continue) (ret (Return tt))
       (λ v, check_api_key v;; ret (Break v)))
    (λ _, True).
Proof.
  eapply runs_seq_first; [apply runs_select_vendor, any_plain|intros _ _].
  apply runs_on_select; [by apply runs_ret..|].
  intros v. eapply runs_seq_second; [apply runs_check_api_key, any_plain|intros _ _].
  by apply runs_ret.
Qed.

Lemma runs_pick_step (select : M unit) :
  runs1 true false select (λ _, True) →
  runs1 true false
    (select;; on_select (ret Continue) (ret (Return tt)) (λ v, ret (Break v)))
    (λ _, True).
Proof.
  intros Hsel. eapply runs_seq_first; [exact Hsel|intros _ _].
  apply runs_on_select; [by apply runs_ret..|].
  intros v. by apply runs_ret.
Qed.

Lemma runs_loop {B R} (body : M (ctl B R)) :
  runs1 true false body (λ _, True) →
  runs1 true false (while_true body) (λ _, True).
Proof.
  intros Hbody. apply runs_while; [apply pre_follows|].
  eapply runs_weaken; [exact Hbody|done..|]. by intros [| |].
Qed.

Lemma runs_run_code_mode : runs1 true false run_code_mode (λ _, True).
Proof.
  unfold run_code_mode.
  eapply runs_after; [apply pre_follows|apply runs_loop, runs_vendor_step| |done].
  intros main_vendor _.
  eapply runs_after; [apply pre_follows| | |done].
  { apply runs_loop, runs_pick_step, runs_select_model, any_plain. }
  intros main_model _. apply runs_format_loop_any. by left.
Qed.

Lemma runs_run_architect_mode : runs1 true false run_architect_mode (λ _, True).
Proof.
  unfold run_architect_mode.
  eapply runs_after; [apply pre_follows|apply runs_loop, runs_vendor_step| |done].
  intros main_vendor _.
  eapply runs_after; [apply pre_follows| | |done].
  { apply runs_loop, runs_pick_step, runs_select_model, any_plain. }
  intros main_model _.
  eapply runs_after; [apply pre_follows| | |done].
  { apply runs_loop, runs_pick_step, runs_select_vendor, any_plain. }
  intros editor_vendor _.
  eapply runs_after with (st1 := false) (mid := λ _, True);
    [apply pre_follows| | |done].
  { unfold editor_model_select. destruct (String.eqb editor_vendor "default").
    - by apply runs_ret.
    - eapply runs_seq_second; [apply runs_check_api_key, any_plain|intros _ _].
      apply runs_relax.
      apply runs_loop, runs_pick_step, runs_select_model, any_plain. }
  intros editor_model _. apply runs_format_loop_any. by right.
Qed.

Lemma runs_mode_step : runs1 true false mode_step (λ _, True).
Proof.
  unfold mode_step, display_mode_selection_menu.
  eapply runs_seq_first with (mid := λ _, True).
  { eapply runs_seq_second; [by apply runs_say_plain|intros _ _].
    eapply runs_seq_second; [by apply runs_say_plain|intros _ _].
    eapply runs_seq_second; [by apply runs_say_plain|intros _ _].
    eapply runs_seq_second; [by apply runs_say_plain|intros _ _].
    eapply runs_seq_first; [apply runs_input|intros line _]. by apply runs_ret. }
  intros mode_choice _.
  destruct (String.eqb mode_choice "1"); [by apply runs_ret|].
  destruct (String.eqb mode_choice "2"); [by apply runs_ret|].
  destruct (String.eqb mode_choice "0").
  - eapply runs_seq_second; [by apply runs_say_plain|intros _ _].
    apply runs_sys_exit.
  - eapply runs_seq_second; [by apply runs_say_plain|intros _ _].
    eapply runs_seq_second; [apply runs_relax, runs_input|intros _ _].
    by apply runs_ret.
Qed.

Lemma runs_main_step :
  runs1 true false main_step
    (λ c, match c with Continue => True | Break _ => True | Return _ => False end).
Proof.
  unfold main_step.
  eapply runs_seq_first with (mid := λ _, True).
  { apply runs_until_break.
    apply runs_while; [apply pre_follows|].
    eapply runs_weaken; [apply runs_mode_step|done|done|]. by intros [|b|[]]. }
  intros selected_mode _.
  eapply runs_seq_second with (mid := λ _, True); [|intros _ _; by apply runs_ret].
  destruct (String.eqb selected_mode "code");
    [apply runs_relax, runs_run_code_mode|].
  destruct (String.eqb selected_mode "architect");
    [apply runs_relax, runs_run_architect_mode|].
  eapply runs_seq_second; [by apply runs_say_plain|intros _ _].
  apply runs_sys_exit.
Qed.

End Ends.

(** The menu loop of [main] never returns and never runs forever on a
    finite input: every session ends with [sys.exit] or with an uncaught
    exception (the end of the input, or a probe that cannot be run). *)
Lemma main_loop_ends s : sat (main_loop s) (λ _ _, False) (λ _ _, True).
Proof.
  assert (Hruns : runs (λ _, True) (same_config s) true false main_loop (λ _, False)).
  { apply runs_forever; [apply pre_follows|]. apply runs_main_step. }
  eapply sat_mono; [apply (Hruns s (same_config_refl s))|..].
  - by intros _ s' (_ & _ & ?).
  - done.
Qed.

(** ** The editor-vendor menu is never empty in a session *)

Lemma available_same_config s s' :
  same_config s s' → available_vendors s' = available_vendors s.
Proof. intros []. unfold available_vendors. by rewrite sc_VENDORS0, sc_SOURCE0. Qed.

(** Once the architect vendor was chosen, there is a vendor with a key, in
    every later state of the wizard: the hypothesis of
    [entity_menu_nine] holds when the editor-vendor menu is reached. *)
Lemma editor_menu_not_empty s v s1 s2 :
  arch_vendor_step s = Ok (Break v) s1 → same_config s1 s2 →
  available_vendors s2 ≠ [].
Proof.
  intros Hstep Hlater.
  assert (Hsame : same_config s s1).
  { pose proof (runs_vendor_step s "Architect" s (same_config_refl s)) as Hrun.
    unfold arch_vendor_step in Hstep. rewrite Hstep in Hrun.
    by destruct Hrun as ((? & _) & _). }
  apply vendor_step_chosen in Hstep as (s' & v1 & Hsel & Hres & Hinv & _).
  rewrite select_vendor_unfold in Hsel.
  apply entity_menu_ok in Hsel as [_ Hpick].
  rewrite (available_same_config s s2) by (by eapply same_config_trans).
  destruct Hpick as [?|[?|[(Hed & _)|(v2 & _ & Hv2)]]]; try congruence.
  - done.
  - intros Hnil. rewrite Hnil in Hv2. by apply elem_of_nil in Hv2.
Qed.

(** * Further properties of the code *)

(** ** [_load_keys_from_env], completely *)

Section EnvLoader.

Lemma env_step_refl s : env_step s s.
Proof. by left. Qed.

Lemma env_step_trans s1 s2 s3 : env_step s1 s2 → env_step s2 s3 → env_step s1 s3.
Proof.
  intros [H12|(Hg & k & Hk & Hne & H12)] [H23|(Hg' & k' & Hk' & Hne' & H23)].
  - left. congruence.
  - right. split; [by rewrite <- (env_set_ext s2 s1)|].
    exists k'. rewrite <- H12. by rewrite H23.
  - right. split; [done|]. exists k. repeat split; try done. congruence.
  - exfalso. rewrite (env_set_lookup s2 "GEMINI_API_KEY" k) in Hg'; [done| |done].
    rewrite H12. apply lookup_insert_eq.
Qed.

Lemma google_or_name_of vendors : Forall google_or_name (api_key_vars_of vendors).
Proof.
  assert (Hbase : Forall google_or_name ((λ v, Name (v +:+ "_API_KEY")) <$> vendors)).
  { apply Forall_fmap, Forall_forall. intros v _. left. by eexists. }
  unfold api_key_vars_of. destruct (index "GOOGLE" vendors); [|done].
  apply Forall_insert; [done|by right].
Qed.

Lemma google_or_name_lookup (kvs : list key_vars) i :
  Forall google_or_name kvs → google_or_name (kvs !!! i).
Proof.
  intros Hall. rewrite list_lookup_total_alt.
  destruct (kvs !! i) as [kv|] eqn:Hkv; simpl.
  - by eapply Forall_lookup_1.
  - left. by eexists.
Qed.

Lemma env_set_mono s s' var :
  env_step s s' → env_set s var = true → env_set s' var = true.
Proof.
  intros [Heq|(Hg & k & Hk & Hne & Heq)] Hset; [by rewrite (env_set_ext s' s)|].
  destruct (decide (var = "GEMINI_API_KEY")) as [->|Hvar]; [congruence|].
  unfold env_set in *. by rewrite Heq, lookup_insert_ne.
Qed.

Lemma api_key_set_mono s s' kv :
  env_step s s' → api_key_set s kv = true → api_key_set s' kv = true.
Proof.
  intros Hstep. destruct kv as [var|vars]; simpl; [by apply env_set_mono|].
  rewrite !existsb_exists. intros (x & Hx & Hset). exists x.
  split; [done|by eapply env_set_mono].
Qed.

(** Key presence is stable under [env_step] for every entry that is not
    the single name GEMINI_API_KEY. *)
Lemma api_key_set_stable s s' kv :
  env_step s s' → google_or_name kv → kv ≠ Name "GEMINI_API_KEY" →
  api_key_set s' kv = api_key_set s kv.
Proof.
  intros [Heq|(Hg & k & Hk & Hne & Heq)] Hshape Hkv.
  - destruct kv as [var|vars]; simpl.
    + by apply env_set_ext.
    + clear Hshape Hkv. induction vars as [|x vars IH]; [done|]. simpl.
      by rewrite IH, (env_set_ext s' s).
  - destruct Hshape as [[var ->]| ->].
    + simpl. unfold env_set. rewrite Heq, lookup_insert_ne; [done|congruence].
    + simpl. rewrite Hg.
      rewrite (env_set_lookup s' "GEMINI_API_KEY" k);
        [|rewrite Heq; apply lookup_insert_eq|done].
      by rewrite (env_set_lookup s "GOOGLE_API_KEY" k).
Qed.

Lemma env_names_loop_spec vendor i vars : ∀ s,
  let r := env_names_loop vendor i vars s in
  r.1 = existsb (env_set s) vars
  ∧ VENDOR_API_KEY_VARS r.2 = VENDOR_API_KEY_VARS s
  ∧ VENDORS r.2 = VENDORS s
  ∧ VENDOR_KEY_SOURCE r.2
    = (if r.1 then <[i := Env]> (VENDOR_KEY_SOURCE s) else VENDOR_KEY_SOURCE s)
  ∧ env_step s r.2.
Proof.
  induction vars as [|var vars IH]; intros s; cbn [env_names_loop existsb].
  - repeat split; try done. apply env_step_refl.
  - destruct (env_set s var) eqn:Hvar; [|apply IH].
    cbn [orb fst snd].
    destruct (String.eqb var "GOOGLE_API_KEY" && negb (env_set s "GEMINI_API_KEY"))
      eqn:Hcopy.
    + apply andb_true_iff in Hcopy as [->%String.eqb_eq Hgem%negb_true_iff].
      repeat split; try done. right. split; [done|].
      destruct (env_set_true _ _ Hvar) as (k & Hk & Hne). exists k.
      repeat split; try done. simpl. by rewrite lookup_total_alt, Hk.
    + destruct (String.eqb var "GEMINI_API_KEY"); repeat split; try done; by left.
Qed.

Lemma env_vendor_body_spec b s i vendor :
  let r := env_vendor_body (b, s) (i, vendor) in
  r.1 = b && api_key_set s (VENDOR_API_KEY_VARS s !!! i)
  ∧ VENDOR_API_KEY_VARS r.2 = VENDOR_API_KEY_VARS s
  ∧ VENDORS r.2 = VENDORS s
  ∧ VENDOR_KEY_SOURCE r.2
    = <[i := env_mark s (VENDOR_API_KEY_VARS s !!! i)]> (VENDOR_KEY_SOURCE s)
  ∧ env_step s r.2.
Proof.
  unfold env_vendor_body, env_mark.
  destruct (VENDOR_API_KEY_VARS s !!! i) as [var|vars]; cbn [api_key_set].
  - destruct (env_set s var); cbn [fst snd];
      rewrite ?andb_true_r, ?andb_false_r; repeat split; try done; by left.
  - destruct (env_names_loop_spec vendor i vars s) as (Hf & Hkv & Hvs & Hsrc & Henv).
    destruct (env_names_loop vendor i vars s) as [found s1]. cbn [fst snd] in *.
    rewrite <- Hf. destruct found; cbn [fst snd];
      rewrite ?andb_true_r, ?andb_false_r; repeat split; try done.
    simpl. by rewrite Hsrc.
Qed.

Lemma enumerate_fst {A} (l : list A) : (enumerate l).*1 = seq 0 (length l).
Proof.
  unfold enumerate. rewrite fmap_imap.
  rewrite (imap_ext _ (λ i _, i)) by done.
  by rewrite imap_seq_0, list_fmap_id.
Qed.

(** The loop over the vendors, from any accumulator. *)
Lemma foldl_env_spec ivs : ∀ b s,
  NoDup ivs.*1 →
  Forall google_or_name (VENDOR_API_KEY_VARS s) →
  Forall (λ iv : nat * string, iv.1 < length (VENDOR_KEY_SOURCE s)) ivs →
  let r := foldl env_vendor_body (b, s) ivs in
  env_step s r.2
  ∧ VENDOR_API_KEY_VARS r.2 = VENDOR_API_KEY_VARS s
  ∧ VENDORS r.2 = VENDORS s
  ∧ length (VENDOR_KEY_SOURCE r.2) = length (VENDOR_KEY_SOURCE s)
  ∧ (∀ j, j ∉ ivs.*1 → VENDOR_KEY_SOURCE r.2 !!! j = VENDOR_KEY_SOURCE s !!! j)
  ∧ (∀ i, i ∈ ivs.*1 →
       VENDOR_KEY_SOURCE r.2 !!! i = Env ∨ VENDOR_KEY_SOURCE r.2 !!! i = Unset)
  ∧ (∀ i, i ∈ ivs.*1 → VENDOR_API_KEY_VARS s !!! i ≠ Name "GEMINI_API_KEY" →
       VENDOR_KEY_SOURCE r.2 !!! i = env_mark s (VENDOR_API_KEY_VARS s !!! i))
  ∧ (r.1 = true ↔ b = true ∧ ∀ i, i ∈ ivs.*1 → VENDOR_KEY_SOURCE r.2 !!! i = Env)
  ∧ (∀ i, i ∈ ivs.*1 → VENDOR_KEY_SOURCE r.2 !!! i = Env →
       api_key_set r.2 (VENDOR_API_KEY_VARS s !!! i) = true).
Proof.
  induction ivs as [|[i vendor] ivs IH]; intros b s Hnd Hshape Hlt; cbn [foldl].
  - cbn zeta. cbn [fst snd fmap list_fmap].
    repeat split; try done; try (by intros ? ?%elem_of_nil);
      try apply env_step_refl; by intros [? _].
  - cbn [fmap list_fmap fst] in Hnd. apply NoDup_cons in Hnd as [Hi Hnd].
    apply Forall_cons in Hlt as [Hilt Hlt]. cbn [fst] in Hilt.
    destruct (env_vendor_body_spec b s i vendor) as (Hb1 & Hkv1 & Hvs1 & Hsrc1 & Henv1).
    destruct (env_vendor_body (b, s) (i, vendor)) as [b1 s1]. cbn [fst snd] in *.
    assert (Hlen1 : length (VENDOR_KEY_SOURCE s1) = length (VENDOR_KEY_SOURCE s)).
    { by rewrite Hsrc1, length_insert. }
    destruct (IH b1 s1 Hnd) as (Henv & Hkv & Hvs & Hlen & Hout & Hin2 & Hin & Hflag & Hok).
    { by rewrite Hkv1. }
    { eapply Forall_impl; [exact Hlt|]. intros ? ?. by rewrite Hlen1. }
    cbn zeta in *.
    assert (Hhere : VENDOR_KEY_SOURCE (foldl env_vendor_body (b1, s1) ivs).2 !!! i
                    = env_mark s (VENDOR_API_KEY_VARS s !!! i)).
    { rewrite (Hout i Hi), Hsrc1. by apply list_lookup_total_insert_eq. }
    split; [by eapply env_step_trans|].
    split; [congruence|]. split; [congruence|]. split; [congruence|].
    split; [|split; [|split; [|split]]].
    + intros j Hj. cbn [fmap list_fmap fst] in Hj. apply not_elem_of_cons in Hj as [Hji Hj].
      rewrite (Hout j Hj), Hsrc1. by apply list_lookup_total_insert_ne.
    + intros j Hj. cbn [fmap list_fmap fst] in Hj. apply elem_of_cons in Hj as [->|Hj].
      * rewrite Hhere. unfold env_mark. destruct (api_key_set _ _); auto.
      * by apply Hin2.
    + intros j Hj Hstable. cbn [fmap list_fmap fst] in Hj.
      apply elem_of_cons in Hj as [->|Hj]; [exact Hhere|].
      rewrite (Hin j Hj) by (by rewrite Hkv1). rewrite Hkv1. unfold env_mark.
      rewrite (api_key_set_stable s s1); [done|done| |done].
      by apply google_or_name_lookup.
    + rewrite Hflag. clear Hflag. subst b1. cbn [fmap list_fmap fst]. split.
      * intros [[-> Hset]%andb_true_iff Hall]. split; [done|].
        intros j [->|Hj]%elem_of_cons; [|by apply Hall].
        rewrite Hhere. unfold env_mark. by rewrite Hset.
      * intros [-> Hall]. split; [|intros j Hj; apply Hall; by right].
        cbn [andb]. specialize (Hall i (list_elem_of_here _ _)).
        rewrite Hhere in Hall. unfold env_mark in Hall.
        by destruct (api_key_set _ _).
    + intros j Hj HEnv. cbn [fmap list_fmap fst] in Hj.
      apply elem_of_cons in Hj as [->|Hj].
      * rewrite Hhere in HEnv. unfold env_mark in HEnv.
        apply (api_key_set_mono s); [by eapply env_step_trans|].
        by destruct (api_key_set s _).
      * rewrite <- Hkv1. by apply Hok.
Qed.

Lemma env_names_loop_disk vendor i vars : ∀ s,
  files (env_names_loop vendor i vars s).2 = files s
  ∧ home (env_names_loop vendor i vars s).2 = home s
  ∧ environ (env_names_loop vendor i vars s).2 !! "PRIMARY_KEYS_FILE"
    = environ s !! "PRIMARY_KEYS_FILE".
Proof.
  induction vars as [|var vars IH]; intros s; cbn [env_names_loop]; [done|].
  destruct (env_set s var); [|apply IH].
  destruct (_ && _); [|by destruct (String.eqb var _)].
  repeat split; try done. simpl. by rewrite lookup_insert_ne.
Qed.

Lemma env_vendor_body_disk b s iv :
  files (env_vendor_body (b, s) iv).2 = files s
  ∧ home (env_vendor_body (b, s) iv).2 = home s
  ∧ environ (env_vendor_body (b, s) iv).2 !! "PRIMARY_KEYS_FILE"
    = environ s !! "PRIMARY_KEYS_FILE".
Proof.
  destruct iv as [i vendor]. unfold env_vendor_body.
  destruct (VENDOR_API_KEY_VARS s !!! i) as [var|vars].
  - by destruct (env_set s var).
  - pose proof (env_names_loop_disk vendor i vars s) as Hd.
    destruct (env_names_loop vendor i vars s) as [[] s1]; exact Hd.
Qed.

Lemma foldl_env_disk ivs : ∀ b s,
  files (foldl env_vendor_body (b, s) ivs).2 = files s
  ∧ home (foldl env_vendor_body (b, s) ivs).2 = home s
  ∧ environ (foldl env_vendor_body (b, s) ivs).2 !! "PRIMARY_KEYS_FILE"
    = environ s !! "PRIMARY_KEYS_FILE".
Proof.
  induction ivs as [|iv ivs IH]; intros b s; cbn [foldl]; [done|].
  destruct (env_vendor_body_disk b s iv) as (Hf & Hh & He).
  destruct (env_vendor_body (b, s) iv) as [b1 s1]. cbn [snd] in *.
  destruct (IH b1 s1) as (Hf' & Hh' & He'). repeat split; congruence.
Qed.

Lemma env_names_loop_read_error vendor i vars : ∀ s,
  read_error (env_names_loop vendor i vars s).2 = read_error s.
Proof.
  induction vars as [|var vars IH]; intros s; cbn [env_names_loop]; [done|].
  destruct (env_set s var); [|apply IH].
  destruct (_ && _); [done|by destruct (String.eqb var _)].
Qed.

Lemma env_vendor_body_read_error b s iv :
  read_error (env_vendor_body (b, s) iv).2 = read_error s.
Proof.
  destruct iv as [i vendor]. unfold env_vendor_body.
  destruct (VENDOR_API_KEY_VARS s !!! i) as [var|vars].
  - by destruct (env_set s var).
  - pose proof (env_names_loop_read_error vendor i vars s) as Hd.
    destruct (env_names_loop vendor i vars s) as [[] s1]; exact Hd.
Qed.

Lemma foldl_env_read_error ivs : ∀ b s,
  read_error (foldl env_vendor_body (b, s) ivs).2 = read_error s.
Proof.
  induction ivs as [|iv ivs IH]; intros b s; cbn [foldl]; [done|].
  pose proof (env_vendor_body_read_error b s iv) as Hr.
  destruct (env_vendor_body (b, s) iv) as [b1 s1]. cbn [snd] in *.
  by rewrite IH.
Qed.

Lemma load_env_read_error s :
  read_error (_load_keys_from_env s).2 = read_error s.
Proof.
  unfold _load_keys_from_env. set (s1 := emit _ s).
  pose proof (foldl_env_read_error (enumerate (VENDORS s1)) true s1) as Hd.
  destruct (foldl env_vendor_body (true, s1) (enumerate (VENDORS s1))) as [[] s2];
    exact Hd.
Qed.

Lemma find_keys_file_ext s s' :
  files s' = files s → home s' = home s →
  environ s' !! "PRIMARY_KEYS_FILE" = environ s !! "PRIMARY_KEYS_FILE" →
  _find_keys_file s' = _find_keys_file s.
Proof.
  intros Hf Hh He. unfold _find_keys_file, isfile, secondary_keys_file.
  by rewrite Hf, Hh, He.
Qed.

Lemma load_env_disk s :
  files (_load_keys_from_env s).2 = files s
  ∧ home (_load_keys_from_env s).2 = home s
  ∧ environ (_load_keys_from_env s).2 !! "PRIMARY_KEYS_FILE"
    = environ s !! "PRIMARY_KEYS_FILE".
Proof.
  unfold _load_keys_from_env. set (s1 := emit _ s).
  pose proof (foldl_env_disk (enumerate (VENDORS s1)) true s1) as Hd.
  destruct (foldl env_vendor_body (true, s1) (enumerate (VENDORS s1))) as [[] s2];
    exact Hd.
Qed.

(** After the environment loader every vendor marked "env" has a key. *)
Lemma load_env_keys_ok s :
  initialised s →
  keys_ok (_load_keys_from_env s).2 ∧ initialised (_load_keys_from_env s).2
  ∧ VENDORS (_load_keys_from_env s).2 = VENDORS s.
Proof.
  intros [Hvars Hlen]. unfold _load_keys_from_env.
  set (s1 := emit _ s).
  destruct (foldl_env_spec (enumerate (VENDORS s1)) true s1)
    as (Henv & Hkv & Hvs & Hl & _ & Hin2 & _ & _ & Hok).
  { rewrite enumerate_fst. apply NoDup_seq. }
  { change (VENDOR_API_KEY_VARS s1) with (VENDOR_API_KEY_VARS s).
    rewrite Hvars. apply google_or_name_of. }
  { eapply Forall_impl; [apply enumerate_lt|]. intros [i v] Hi. simpl in *. by rewrite Hlen. }
  rewrite enumerate_fst in Hin2, Hok.
  change (VENDORS s1) with (VENDORS s) in *.
  change (VENDOR_API_KEY_VARS s1) with (VENDOR_API_KEY_VARS s) in *.
  change (VENDOR_KEY_SOURCE s1) with (VENDOR_KEY_SOURCE s) in *.
  destruct (foldl env_vendor_body (true, s1) (enumerate (VENDORS s))) as [b2 s2].
  cbn [fst snd] in *.
  assert (Hres : keys_ok s2 ∧ initialised s2 ∧ VENDORS s2 = VENDORS s).
  { split; [|split; [split; congruence|done]].
    intros i Hi Hsrc. rewrite Hvs in Hi.
    assert (Hseq : i ∈ seq 0 (length (VENDORS s))) by (apply elem_of_seq; lia).
    rewrite Hkv. apply Hok; [done|]. by destruct (Hin2 i Hseq). }
  destruct b2; exact Hres.
Qed.

End EnvLoader.

(** X1.  What [_load_keys_from_env] leaves in VENDOR_KEY_SOURCE, for an
    initialised state: every vendor is marked "env" or "unset", never
    "file"; the mark is "env" exactly when one of the vendor's variables is
    set (non-empty) in the environment the loader was started in, for every
    vendor except one whose single variable is GEMINI_API_KEY itself; and the
    loader returns True exactly when all vendors are marked "env". *)
Theorem load_env_marks (s : state) :
  initialised s →
  let r := _load_keys_from_env s in
  (∀ i, i < length (VENDORS s) →
     VENDOR_KEY_SOURCE r.2 !!! i = Env ∨ VENDOR_KEY_SOURCE r.2 !!! i = Unset)
  ∧ (∀ i, i < length (VENDORS s) →
       VENDOR_API_KEY_VARS s !!! i ≠ Name "GEMINI_API_KEY" →
       VENDOR_KEY_SOURCE r.2 !!! i = env_mark s (VENDOR_API_KEY_VARS s !!! i))
  ∧ (r.1 = true ↔ ∀ i, i < length (VENDORS s) → VENDOR_KEY_SOURCE r.2 !!! i = Env)
  ∧ VENDORS r.2 = VENDORS s
  ∧ initialised r.2.
Proof.
  intros [Hvars Hlen]. unfold _load_keys_from_env.
  set (s1 := emit _ s).
  destruct (foldl_env_spec (enumerate (VENDORS s1)) true s1)
    as (Henv & Hkv & Hvs & Hl & _ & Hin2 & Hin & Hflag & _).
  { rewrite enumerate_fst. apply NoDup_seq. }
  { change (VENDOR_API_KEY_VARS s1) with (VENDOR_API_KEY_VARS s).
    rewrite Hvars. apply google_or_name_of. }
  { eapply Forall_impl; [apply enumerate_lt|]. intros [i v] Hi. simpl in *. by rewrite Hlen. }
  rewrite enumerate_fst in Hin2, Hin, Hflag.
  change (VENDORS s1) with (VENDORS s) in *.
  change (VENDOR_API_KEY_VARS s1) with (VENDOR_API_KEY_VARS s) in *.
  change (VENDOR_KEY_SOURCE s1) with (VENDOR_KEY_SOURCE s) in *.
  assert (Hseq : ∀ i, i ∈ seq 0 (length (VENDORS s)) ↔ i < length (VENDORS s)).
  { intros i. rewrite elem_of_seq. lia. }
  assert (Hmark : ∀ kv, env_mark s1 kv = env_mark s kv) by done.
  destruct (foldl env_vendor_body (true, s1) (enumerate (VENDORS s))) as [b2 s2].
  cbn [fst snd] in *.
  assert (Hres :
    (∀ i, i < length (VENDORS s) →
       VENDOR_KEY_SOURCE s2 !!! i = Env ∨ VENDOR_KEY_SOURCE s2 !!! i = Unset)
    ∧ (∀ i, i < length (VENDORS s) →
         VENDOR_API_KEY_VARS s !!! i ≠ Name "GEMINI_API_KEY" →
         VENDOR_KEY_SOURCE s2 !!! i = env_mark s (VENDOR_API_KEY_VARS s !!! i))
    ∧ (b2 = true ↔ ∀ i, i < length (VENDORS s) → VENDOR_KEY_SOURCE s2 !!! i = Env)
    ∧ VENDORS s2 = VENDORS s
    ∧ initialised s2).
  { split; [intros i Hi; by apply Hin2, Hseq|].
    split; [intros i Hi Hst; rewrite <- Hmark; by apply Hin; [apply Hseq|]|].
    split.
    { rewrite Hflag. split.
      - intros [_ Hall] i Hi. by apply Hall, Hseq.
      - intros Hall. split; [done|]. intros i Hi. by apply Hall, Hseq. }
    split; [done|]. split; congruence. }
  destruct b2; exact Hres.
Qed.

Lemma load_env_marks_witness :
  let s := initialize_configuration Ex.conf
             (Ex.boot {[ "OPENAI_API_KEY" := "sk-env" ]} ∅ Ex.aider_ok []) in
  VENDOR_KEY_SOURCE (_load_keys_from_env s).2 !!! 0
  = env_mark s (VENDOR_API_KEY_VARS s !!! 0).
Proof.
  intros s.
  destruct (load_env_marks s) as (_ & Hmark & _).
  - split; reflexivity.
  - apply Hmark; [vm_compute; lia | discriminate].
Defined.

(** X2.  [_load_keys_from_env] writes at most one environment variable:
    either the environment is unchanged, or GEMINI_API_KEY was unset and
    receives the non-empty value of GOOGLE_API_KEY.  In particular a
    GEMINI_API_KEY that is set is never replaced. *)
Theorem load_env_environment (s : state) :
  initialised s →
  let s' := (_load_keys_from_env s).2 in
  env_step s s'
  ∧ (∀ x, x ≠ "GEMINI_API_KEY" → environ s' !! x = environ s !! x)
  ∧ (env_set s "GEMINI_API_KEY" = true → environ s' = environ s).
Proof.
  intros [Hvars Hlen]. unfold _load_keys_from_env.
  set (s1 := emit _ s).
  destruct (foldl_env_spec (enumerate (VENDORS s1)) true s1) as (Henv & _).
  { rewrite enumerate_fst. apply NoDup_seq. }
  { change (VENDOR_API_KEY_VARS s1) with (VENDOR_API_KEY_VARS s).
    rewrite Hvars. apply google_or_name_of. }
  { eapply Forall_impl; [apply enumerate_lt|]. intros [i v] Hi. simpl in *. by rewrite Hlen. }
  destruct (foldl env_vendor_body (true, s1) (enumerate (VENDORS s1))) as [b2 s2].
  cbn [snd] in Henv.
  assert (Hstep : env_step s s2) by exact Henv.
  assert (Hres : env_step s s2
                 ∧ (∀ x, x ≠ "GEMINI_API_KEY" → environ s2 !! x = environ s !! x)
                 ∧ (env_set s "GEMINI_API_KEY" = true → environ s2 = environ s)).
  { split; [done|]. destruct Hstep as [Heq|(Hg & k & Hk & Hne & Heq)].
    - split; [by intros; rewrite Heq|done].
    - split; [intros x Hx; by rewrite Heq, lookup_insert_ne|congruence]. }
  destruct b2; exact Hres.
Qed.

Lemma load_env_environment_witness :
  let s := initialize_configuration Ex.conf
             (Ex.boot {[ "GEMINI_API_KEY" := "primary"; "GOOGLE_API_KEY" := "legacy" ]}
                ∅ Ex.aider_ok []) in
  environ (_load_keys_from_env s).2 = environ s.
Proof.
  intros s.
  destruct (load_env_environment s) as (_ & _ & Hkeep).
  - split; reflexivity.
  - apply Hkeep. reflexivity.
Defined.

(** ** [_load_keys_from_file] and [load_api_keys] *)

Section FileLoader.

Lemma file_line_ignored s line :
  ignored_line (VENDOR_API_KEY_VARS s) line → file_line_body s line = (None, s).
Proof.
  unfold ignored_line. rewrite file_line_body_closed.
  destruct (Py.match_assignment _) as [[var value]|]; [|done].
  by intros ->.
Qed.

Lemma file_lines_ignored lines s :
  Forall (ignored_line (VENDOR_API_KEY_VARS s)) lines →
  file_lines_loop lines s = (None, s).
Proof.
  induction lines as [|line lines IH]; [done|].
  intros [Hline Hall]%Forall_cons. cbn [file_lines_loop].
  rewrite (file_line_ignored _ _ Hline). by apply IH.
Qed.

Lemma file_line_source s line i :
  i < length (VENDOR_KEY_SOURCE s) →
  VENDOR_KEY_SOURCE (file_line_body s line).2 !!! i
  = if decide (VENDOR_KEY_SOURCE s !!! i = Unset)
    then (if line_names (VENDOR_API_KEY_VARS s) i line then File else Unset)
    else VENDOR_KEY_SOURCE s !!! i.
Proof.
  intros Hi. rewrite file_line_body_closed. unfold line_names.
  destruct (Py.match_assignment _) as [[var value]|]; [|by case_decide].
  destruct (first_naming var _) as [j|] eqn:Hj.
  - assert (Hsrc : VENDOR_KEY_SOURCE (assign var value j s).2
                   = VENDOR_KEY_SOURCE
                       (if decide (VENDOR_KEY_SOURCE s !!! j = Unset)
                        then mark j File s else s)).
    { unfold assign. by destruct (has_nul value). }
    rewrite Hsrc. destruct (decide (j = i)) as [->|Hji].
    + rewrite bool_decide_eq_true_2 by done.
      case_decide as Hu; simpl; [|done].
      by rewrite list_lookup_total_insert_eq.
    + rewrite bool_decide_eq_false_2 by congruence.
      destruct (decide (VENDOR_KEY_SOURCE s !!! j = Unset)); simpl;
        rewrite ?list_lookup_total_insert_ne by done; by case_decide.
  - rewrite bool_decide_eq_false_2 by done. by case_decide.
Qed.

Lemma file_lines_source lines : ∀ s i,
  i < length (VENDOR_KEY_SOURCE s) →
  VENDOR_KEY_SOURCE (file_lines_loop lines s).2 !!! i
  = if decide (VENDOR_KEY_SOURCE s !!! i = Unset)
    then (if existsb (line_names (VENDOR_API_KEY_VARS s) i)
                (processed (VENDOR_API_KEY_VARS s) lines)
          then File else Unset)
    else VENDOR_KEY_SOURCE s !!! i.
Proof.
  induction lines as [|line lines IH]; intros s i Hi;
    cbn [file_lines_loop processed existsb].
  - by case_decide.
  - pose proof (file_line_raises s line) as Hr.
    pose proof (file_line_source s line i Hi) as Hsrc.
    destruct (file_line_same s line) as (Hkv & _ & _ & _ & _ & Hlen & _).
    destruct (file_line_body s line) as [[e|] s1]; cbn [fst snd] in *.
    + destruct (raises_at _ line); [|done]. cbn [existsb].
      by rewrite orb_false_r.
    + destruct (raises_at _ line); [done|]. cbn [existsb].
      rewrite IH by (by rewrite Hlen). rewrite Hkv, Hsrc.
      destruct (decide (VENDOR_KEY_SOURCE s !!! i = Unset)) as [Hu|Hu].
      * destruct (line_names _ i line); cbn [orb]; by repeat case_decide.
      * by case_decide.
Qed.

End FileLoader.

(** X3.  A keys file that can be read to its end and in which every line
    is blank, a comment, not of the form NAME=value, or assigns a variable
    that no vendor uses, changes nothing: neither the environment nor any
    key source; the loader only announces the file. *)
Theorem unrecognised_lines_change_nothing (s : state) (path : string)
    (lines : list string) :
  files s !! path = Some lines →
  read_error s !! path = None →
  Forall (ignored_line (VENDOR_API_KEY_VARS s)) lines →
  _load_keys_from_file path s
  = emit (Stdout ("Loading API keys from file: " +:+ path)) s.
Proof.
  intros Hfile Hread Hall.
  rewrite (load_file_after_loop _ _ _ Hfile). cbn zeta.
  rewrite file_lines_ignored by done. cbn [fst snd]. by rewrite Hread.
Qed.

Lemma unrecognised_lines_change_nothing_witness :
  let lines := [ "# keys"; "   "; "export OPENAI_API_KEY=sk"; "-x=1";
                 "OTHER_API_KEY=" +:+ Ex.dq +:+ "v" +:+ Ex.dq ] in
  let s := initialize_configuration Ex.conf
             (Ex.boot ∅ {[ "/keys" := lines ]} Ex.aider_ok []) in
  _load_keys_from_file "/keys" s
  = emit (Stdout "Loading API keys from file: /keys") s.
Proof.
  intros lines s.
  apply (unrecognised_lines_change_nothing s "/keys" lines);
    [reflexivity|reflexivity|].
  repeat (apply Forall_cons; split; [vm_compute; done|]). apply Forall_nil_2.
Defined.

(** X4.  The key sources after [_load_keys_from_file], completely.  The
    loop gets to the lines of the file up to, and with, the first one whose
    assignment raises (a recognised variable given a value that holds a NUL),
    or to all the lines the file gives when there is none.  A source other
    than "unset" is kept; a source "unset" becomes "file" exactly when one of
    these lines assigns a variable whose first entry in VENDOR_API_KEY_VARS
    is this vendor's, and stays "unset" otherwise.  The value assigned plays
    no part: an empty one marks the vendor as well, and so does the one that
    raises, since the mark is set before the assignment. *)
Theorem file_marks_unset_only (s : state) (path : string) (lines : list string)
    (i : nat) :
  files s !! path = Some lines →
  parallel s → i < length (VENDORS s) →
  let s' := _load_keys_from_file path s in
  VENDOR_KEY_SOURCE s' !!! i
  = (if decide (VENDOR_KEY_SOURCE s !!! i = Unset)
     then (if existsb (line_names (VENDOR_API_KEY_VARS s) i)
                 (processed (VENDOR_API_KEY_VARS s) lines)
           then File else Unset)
     else VENDOR_KEY_SOURCE s !!! i)
  ∧ parallel s'.
Proof.
  intros Hfile [Hsrc Hkv] Hi. cbn zeta. split.
  - rewrite (load_file_after_loop _ _ _ Hfile). cbn zeta.
    set (s0 := emit _ s).
    assert (Hloop : VENDOR_KEY_SOURCE (file_lines_loop lines s0).2 !!! i
              = (if decide (VENDOR_KEY_SOURCE s !!! i = Unset)
                 then (if existsb (line_names (VENDOR_API_KEY_VARS s) i)
                             (processed (VENDOR_API_KEY_VARS s) lines)
                       then File else Unset)
                 else VENDOR_KEY_SOURCE s !!! i)).
    { apply (file_lines_source lines s0 i). by rewrite <- Hsrc in Hi. }
    by destruct (match (file_lines_loop _ s0).1 with Some e => Some e | None => _ end).
  - destruct (load_file_same path s) as (Hkv' & Hvs' & _ & _ & Hlen' & _).
    cbn zeta in *. split; congruence.
Qed.

Lemma file_marks_unset_only_witness :
  let lines := [ "MISTRAL_API_KEY=" ] in
  let s := initialize_configuration Ex.conf
             (Ex.boot ∅ {[ "/keys" := lines ]} Ex.aider_ok []) in
  VENDOR_KEY_SOURCE (_load_keys_from_file "/keys" s) !!! 2 = File.
Proof.
  intros lines s.
  destruct (file_marks_unset_only s "/keys" lines 2) as [Hmark _];
    [reflexivity | split; reflexivity | vm_compute; lia | exact Hmark].
Defined.

(** A value with a NUL in the first line: OPENAI is marked "file" and gets
    no key, the second line is not read, and the warning is printed. *)
Example reading_stops_at_nul :
  let bad := "OPENAI_API_KEY=a" +:+ String (ascii_of_nat 0) "b" in
  let s := initialize_configuration Ex.conf
             (Ex.boot ∅ {[ "/keys" := [bad; "MISTRAL_API_KEY=ms"] ]} Ex.aider_ok []) in
  let s' := _load_keys_from_file "/keys" s in
  VENDOR_KEY_SOURCE s' = [File; Unset; Unset]
  ∧ environ s' = ∅
  ∧ last (trace s')
    = Some (Stderr "Warning: Could not parse API keys file /keys: embedded null byte").
Proof. vm_compute. done. Qed.

Section KeysOk.

Lemma api_key_set_insert s s' var value kv :
  environ s' = <[var := value]> (environ s) → value ≠ EmptyString →
  api_key_set s kv = true → api_key_set s' kv = true.
Proof.
  intros Henv Hne.
  assert (Hmono : ∀ x, env_set s x = true → env_set s' x = true).
  { intros x Hx. destruct (decide (x = var)) as [->|Hxv].
    - apply (env_set_lookup s' var value); [|done]. rewrite Henv. apply lookup_insert_eq.
    - unfold env_set in *. by rewrite Henv, lookup_insert_ne. }
  destruct kv as [x|vars]; simpl; [apply Hmono|].
  rewrite !existsb_exists. intros (x & Hx & Hset). eauto.
Qed.

Lemma api_key_set_named s var value kv :
  environ s !! var = Some value → value ≠ EmptyString →
  names_var var kv = true → api_key_set s kv = true.
Proof.
  intros Hvar Hne Hnames.
  pose proof (env_set_lookup s var value Hvar Hne) as Hset.
  destruct kv as [x|vars]; simpl in *.
  - by apply String.eqb_eq in Hnames as <-.
  - apply bool_decide_eq_true in Hnames. apply existsb_exists. exists var.
    split; [by apply list_elem_of_In|done].
Qed.

Lemma file_line_keys_ok s line :
  usable_value line → keys_ok s → keys_ok (file_line_body s line).2.
Proof.
  intros Hvalue Hok. unfold usable_value in Hvalue.
  rewrite file_line_body_closed.
  destruct (Py.match_assignment _) as [[var value]|]; [|done].
  destruct (Hvalue var value eq_refl) as [Hne Hnul].
  destruct (first_naming var _) as [j|] eqn:Hj; [|done].
  pose proof (first_naming_names _ _ _ Hj) as Hnames.
  unfold assign. rewrite Hnul. cbn [snd].
  set (s0 := if decide (VENDOR_KEY_SOURCE s !!! j = Unset) then mark j File s else s).
  assert (Henv0 : environ s0 = environ s) by (unfold s0; by case_decide).
  assert (Hkv0 : VENDOR_API_KEY_VARS s0 = VENDOR_API_KEY_VARS s)
    by (unfold s0; by case_decide).
  assert (Hvs0 : VENDORS s0 = VENDORS s) by (unfold s0; by case_decide).
  assert (Hsrc0 : ∀ i, i ≠ j →
            VENDOR_KEY_SOURCE s0 !!! i = VENDOR_KEY_SOURCE s !!! i).
  { intros i Hij. unfold s0. case_decide; [|done].
    simpl. by rewrite list_lookup_total_insert_ne. }
  intros i Hi Hsrc. cbn [setenv set_environ VENDORS VENDOR_KEY_SOURCE
                          VENDOR_API_KEY_VARS] in *.
  rewrite Hkv0. rewrite Hvs0 in Hi.
  destruct (decide (i = j)) as [->|Hij].
  - apply (api_key_set_named _ var value); [apply lookup_insert_eq|done|done].
  - apply (api_key_set_insert s _ var value); [by rewrite <- Henv0|done|].
    apply Hok; [done|]. by rewrite <- Hsrc0.
Qed.

Lemma file_lines_keys_ok lines : ∀ s,
  Forall usable_value lines → keys_ok s → keys_ok (file_lines_loop lines s).2.
Proof.
  induction lines as [|line lines IH]; intros s Hall Hok;
    cbn [file_lines_loop]; [done|].
  apply Forall_cons in Hall as [Hline Hall].
  pose proof (file_line_keys_ok s line Hline Hok) as Hok1.
  destruct (file_line_body s line) as [[e|] s1]; cbn [snd] in *; [done|].
  by apply IH.
Qed.

Lemma load_file_keys_ok path s :
  (∀ lines, files s !! path = Some lines → Forall usable_value lines) →
  keys_ok s → keys_ok (_load_keys_from_file path s).
Proof.
  intros Hfile Hok. destruct (files s !! path) as [lines|] eqn:Hlines.
  - rewrite (load_file_after_loop _ _ _ Hlines). cbn zeta.
    set (s0 := emit _ s).
    assert (Hloop : keys_ok (file_lines_loop lines s0).2)
      by (apply file_lines_keys_ok; [by apply Hfile|done]).
    by destruct (match (file_lines_loop _ s0).1 with Some e => Some e | None => _ end).
  - unfold _load_keys_from_file. by rewrite Hlines.
Qed.

Lemma initialised_parallel s : initialised s → parallel s.
Proof.
  intros [Hvars Hlen]. split; [done|]. rewrite Hvars.
  unfold api_key_vars_of. destruct (index "GOOGLE" (VENDORS s));
    by rewrite ?length_insert, length_fmap.
Qed.

Lemma load_file_initialised path s :
  initialised s → initialised (_load_keys_from_file path s).
Proof.
  intros [Hvars Hlen].
  destruct (load_file_same path s) as (Hkv' & Hvs' & _ & _ & Hlen' & _).
  cbn zeta in *. split; congruence.
Qed.

Lemma index_NoDup (l : list string) i v :
  NoDup l → l !! i = Some v → index v l = Some i.
Proof.
  intros Hnd Hi. unfold index.
  destruct (list_find (eq v) l) as [[j x]|] eqn:Hf.
  - apply list_find_Some in Hf as (Hj & <- & _). simpl. f_equal.
    by eapply NoDup_lookup.
  - apply list_find_None in Hf. exfalso.
    eapply Forall_lookup_1 in Hf; [|exact Hi]. by apply Hf.
Qed.

Lemma first_set_some s vars :
  existsb (env_set s) vars = true →
  ∃ k, first_set s vars = Some k ∧ k ≠ EmptyString.
Proof.
  induction vars as [|var vars IH]; simpl; [done|].
  destruct (env_set s var) eqn:Hvar; [|exact IH].
  intros _. by apply env_set_true.
Qed.

Lemma checked_key_value s s' vendor :
  check_api_key vendor s = Ok tt s' →
  ∃ k, _get_api_key_value vendor s = Ok (Some k) s ∧ k ≠ EmptyString.
Proof.
  intros (i & Hi & Hset & _ & _)%check_api_key_passed.
  unfold _get_api_key_value. rewrite Hi.
  destruct (VENDOR_API_KEY_VARS s !!! i) as [var|vars]; simpl in Hset.
  - apply env_set_true in Hset as (k & -> & Hne). eauto.
  - apply first_set_some in Hset as (k & -> & Hne). eauto.
Qed.

Lemma initialize_initialised c s : initialised (initialize_configuration c s).
Proof. split; [done|]. simpl. by rewrite length_replicate. Qed.

Lemma load_keys_ok s :
  initialised s →
  (∀ path lines, _find_keys_file s = Some path → files s !! path = Some lines →
                 Forall usable_value lines) →
  keys_ok (load_api_keys s) ∧ initialised (load_api_keys s)
  ∧ VENDORS (load_api_keys s) = VENDORS s.
Proof.
  intros Hinit Hfile. unfold load_api_keys.
  set (s1 := emit _ s).
  destruct (load_env_keys_ok s1 Hinit) as (Hok & Hinit2 & Hvs2).
  destruct (load_env_disk s1) as (Hf & Hh & He).
  rewrite (find_keys_file_ext s _) by done.
  set (s2 := (_load_keys_from_env s1).2) in *.
  destruct (_find_keys_file s) as [path|] eqn:Hpath; [|done].
  split; [|split].
  - change (keys_ok (_load_keys_from_file path s2)).
    apply load_file_keys_ok; [|done].
    intros lines Hlines. apply (Hfile path); [done|]. by rewrite <- Hlines, Hf.
  - by apply (load_file_initialised path s2).
  - destruct (load_file_same path s2) as (_ & Hvs' & _). cbn zeta in Hvs'.
    change (VENDORS (_load_keys_from_file path s2) = VENDORS s). by rewrite Hvs'.
Qed.

Lemma offered_pass s vendor :
  keys_ok s → NoDup (VENDORS s) →
  vendor ∈ available_vendors s → check_api_key vendor s = Ok tt s.
Proof.
  intros Hok Hnd (i & Hi & Hsrc)%available_vendors_spec. unfold check_api_key.
  rewrite (index_NoDup _ _ _ Hnd Hi). cbn zeta.
  rewrite (Hok i) by (by eapply lookup_lt_Some || done).
  by rewrite bool_decide_eq_false_2.
Qed.

Lemma keys_ok_same_config s s' : same_config s s' → keys_ok s → keys_ok s'.
Proof.
  intros Hsc Hok i Hi Hsrc.
  rewrite (sc_VENDORS _ _ Hsc) in Hi. rewrite (sc_SOURCE _ _ Hsc) in Hsrc.
  rewrite (sc_VARS _ _ Hsc). rewrite <- (Hok i Hi Hsrc).
  pose proof (sc_environ _ _ Hsc) as Henv.
  destruct (VENDOR_API_KEY_VARS s !!! i) as [var|vars]; simpl.
  - by apply env_set_ext.
  - induction vars as [|x vars IH]; [done|]. simpl.
    by rewrite IH, (env_set_ext s' s).
Qed.

End KeysOk.

(** X5.  After [load_api_keys] on an initialised state, every vendor whose
    key source is not "unset" has a non-empty key in the environment,
    provided every value the keys file that is used assigns is usable: not
    empty and without a NUL.  (An empty value, or one that cannot be put in
    the environment, marks the vendor "file" without giving it a key.)
    Whether the file can be read to its end does not matter. *)
Theorem load_api_keys_keys_ok (s : state) :
  initialised s →
  (∀ path lines, _find_keys_file s = Some path → files s !! path = Some lines →
                 Forall usable_value lines) →
  keys_ok (load_api_keys s) ∧ initialised (load_api_keys s)
  ∧ VENDORS (load_api_keys s) = VENDORS s.
Proof. apply load_keys_ok. Qed.

Lemma load_api_keys_keys_ok_witness :
  keys_ok (load_api_keys
             (initialize_configuration Ex.conf
                (Ex.boot ∅ Ex.keys_file Ex.aider_ok []))).
Proof.
  apply load_api_keys_keys_ok.
  - split; reflexivity.
  - intros path lines Hpath Hlines. vm_compute in Hpath.
    injection Hpath as <-. vm_compute in Hlines. injection Hlines as <-.
    repeat (apply Forall_cons; split;
              [intros var value; vm_compute; intros [= <- <-] || discriminate;
               by split|]).
    apply Forall_nil_2.
Defined.

(** X6.  With distinct vendor names, and keys as [load_api_keys] leaves
    them, the vendors offered in the vendor menu are exactly the vendors that
    pass [check_api_key]: the check made after a vendor is picked from the
    menu cannot end the process. *)
Theorem offered_vendors_pass_check (s : state) (vendor : string) :
  keys_ok s → NoDup (VENDORS s) →
  vendor ∈ available_vendors s ↔ check_api_key vendor s = Ok tt s.
Proof.
  intros Hok Hnd. split; [by apply offered_pass|].
  intros (i & Hi & _ & Hsrc & _)%check_api_key_passed.
  apply available_vendors_spec. exists i. split; [by apply index_lookup|done].
Qed.

Lemma offered_vendors_pass_check_witness :
  let s := Ex.session ∅ Ex.keys_file Ex.aider_ok [] in
  "OPENAI" ∈ available_vendors s ↔ check_api_key "OPENAI" s = Ok tt s.
Proof.
  intros s. apply offered_vendors_pass_check.
  - intros i Hi Hsrc. vm_compute in Hi.
    destruct i as [|[|[|i]]]; [vm_compute in Hsrc |- *; done..|lia].
  - apply (bool_decide_unpack _). by vm_compute.
Defined.

(** X7.  For a vendor that passed [check_api_key], [_get_api_key_value]
    returns a key, and the key is not empty: the branches the source marks
    "should not happen" are indeed unreachable after the check. *)
Theorem checked_vendor_has_key_value (s s' : state) (vendor : string) :
  check_api_key vendor s = Ok tt s' →
  ∃ k, _get_api_key_value vendor s = Ok (Some k) s ∧ k ≠ EmptyString.
Proof. apply checked_key_value. Qed.

Lemma checked_vendor_has_key_value_witness :
  let s := Ex.session ∅ Ex.keys_file Ex.aider_ok [] in
  ∃ k, _get_api_key_value "OPENAI" s = Ok (Some k) s ∧ k ≠ EmptyString.
Proof.
  intros s. apply (checked_vendor_has_key_value s s "OPENAI"). reflexivity.
Defined.

(** ** What [load_api_keys] prints *)

Section Printed.

Lemma printed_refl s : printed s s.
Proof. exists []. by rewrite app_nil_r. Qed.

Lemma printed_trans s1 s2 s3 : printed s1 s2 → printed s2 s3 → printed s1 s3.
Proof.
  intros (es1 & H1 & Hg1) (es2 & H2 & Hg2). exists (es1 ++ es2).
  split; [by rewrite H2, H1, <- app_assoc|by apply Forall_app].
Qed.

Lemma printed_stdout line s : printed s (emit (Stdout line) s).
Proof. exists [Stdout line]. split; [done|]. apply Forall_singleton. by eexists. Qed.

Lemma printed_step s s' line : trace s' = trace s ++ [Stdout line] → printed s s'.
Proof. intros Ht. exists [Stdout line]. split; [done|]. apply Forall_singleton. by eexists. Qed.

Lemma printed_same s s' : trace s' = trace s → printed s s'.
Proof. intros Ht. exists []. by rewrite app_nil_r. Qed.

Lemma env_names_loop_printed vendor i vars : ∀ s,
  printed s (env_names_loop vendor i vars s).2.
Proof.
  induction vars as [|var vars IH]; intros s; cbn [env_names_loop];
    [apply printed_refl|].
  destruct (env_set s var); [|apply IH]. cbn [snd].
  destruct (_ && _); [|destruct (String.eqb var _)].
  - eapply printed_step. reflexivity.
  - eapply printed_step. reflexivity.
  - by apply printed_same.
Qed.

Lemma env_vendor_body_printed b s iv : printed s (env_vendor_body (b, s) iv).2.
Proof.
  destruct iv as [i vendor]. unfold env_vendor_body.
  destruct (VENDOR_API_KEY_VARS s !!! i) as [var|vars].
  - destruct (env_set s var); by apply printed_same.
  - pose proof (env_names_loop_printed vendor i vars s) as Hp.
    destruct (env_names_loop vendor i vars s) as [[] s1]; cbn [snd] in *; [done|].
    eapply printed_trans; [exact Hp|by apply printed_same].
Qed.

Lemma foldl_env_printed ivs : ∀ b s,
  printed s (foldl env_vendor_body (b, s) ivs).2.
Proof.
  induction ivs as [|iv ivs IH]; intros b s; cbn [foldl]; [apply printed_refl|].
  pose proof (env_vendor_body_printed b s iv) as Hp.
  destruct (env_vendor_body (b, s) iv) as [b1 s1]. cbn [snd] in Hp.
  eapply printed_trans; [exact Hp|apply IH].
Qed.

Lemma load_env_printed s : printed s (_load_keys_from_env s).2.
Proof.
  unfold _load_keys_from_env. set (s1 := emit _ s).
  pose proof (foldl_env_printed (enumerate (VENDORS s1)) true s1) as Hp.
  assert (H1 : printed s s1) by apply printed_stdout.
  destruct (foldl env_vendor_body (true, s1) (enumerate (VENDORS s1))) as [[] s2];
    cbn [snd] in *;
    (eapply printed_trans; [exact H1|]);
    (eapply printed_trans; [exact Hp|apply printed_stdout]).
Qed.

Lemma printed_warned s s' : printed s s' → printed_or_warned s s'.
Proof.
  intros (es & Ht & Hes). exists es. split; [done|].
  eapply Forall_impl; [exact Hes|]. by left.
Qed.

Lemma warned_trans s1 s2 s3 :
  printed_or_warned s1 s2 → printed_or_warned s2 s3 → printed_or_warned s1 s3.
Proof.
  intros (es1 & H1 & Hg1) (es2 & H2 & Hg2). exists (es1 ++ es2).
  split; [by rewrite H2, H1, <- app_assoc|by apply Forall_app].
Qed.

Lemma warned_warning path text s :
  printed_or_warned s
    (emit (Stderr ("Warning: Could not parse API keys file " +:+ path
                   +:+ ": " +:+ text)) s).
Proof.
  eexists [_]. split; [done|]. apply Forall_singleton. right. by eexists _, _.
Qed.

Lemma file_lines_quiet lines : ∀ s,
  Forall assigns_no_nul lines → (file_lines_loop lines s).1 = None.
Proof.
  induction lines as [|line lines IH]; intros s Hall; cbn [file_lines_loop]; [done|].
  apply Forall_cons in Hall as [Hline Hall].
  pose proof (file_line_raises s line) as Hr.
  destruct (file_line_body s line) as [[e|] s1]; cbn [fst] in *; [|by apply IH].
  unfold raises_at in Hr.
  destruct (Py.match_assignment _) as [[var value]|] eqn:Hm; [|done].
  rewrite (Hline var value) in Hr by done. by rewrite andb_false_r in Hr.
Qed.

Lemma load_file_warned path s lines :
  files s !! path = Some lines →
  printed_or_warned s (_load_keys_from_file path s)
  ∧ (read_error s !! path = None → Forall assigns_no_nul lines →
     printed s (_load_keys_from_file path s)).
Proof.
  intros Hfile. rewrite (load_file_after_loop _ _ _ Hfile). cbn zeta.
  set (s0 := emit _ s).
  assert (H0 : printed s s0) by apply printed_stdout.
  destruct (file_lines_same lines s0) as (_ & _ & Ht & _).
  assert (H1 : printed s0 (file_lines_loop lines s0).2) by by apply printed_same.
  split.
  - eapply warned_trans; [apply printed_warned; exact H0|].
    eapply warned_trans; [apply printed_warned; exact H1|].
    destruct (match (file_lines_loop _ s0).1 with Some e => Some e | None => _ end);
      [apply warned_warning|apply printed_warned, printed_refl].
  - intros Hread Hnul. rewrite file_lines_quiet, Hread by done.
    eapply printed_trans; [exact H0|exact H1].
Qed.

Lemma find_keys_file_isfile s path :
  _find_keys_file s = Some path → is_Some (files s !! path).
Proof.
  unfold _find_keys_file, isfile.
  destruct (environ s !! "PRIMARY_KEYS_FILE") as [p|].
  - destruct (negb _); cbn [andb].
    + case_bool_decide as Hp; [by intros [= <-]|].
      case_bool_decide as Hs; [by intros [= <-]|done].
    + case_bool_decide as Hs; [by intros [= <-]|done].
  - case_bool_decide as Hs; [by intros [= <-]|done].
Qed.

End Printed.

(** X8.  What [load_api_keys] writes.  Beside its progress lines on stdout
    the only thing it can write is, on stderr, the warning of
    [_load_keys_from_file] that the keys file could not be parsed.  The path
    it passes to [_load_keys_from_file] is that of an existing file, so the
    "Keys file not found" branch is never taken from here.  When the file
    that is used can be read to its end and no value it assigns holds a NUL,
    nothing is written on stderr at all. *)
Theorem load_api_keys_output (s : state) :
  printed_or_warned s (load_api_keys s)
  ∧ (∀ path, _find_keys_file s = Some path → is_Some (files s !! path))
  ∧ ((∀ path lines, _find_keys_file s = Some path → files s !! path = Some lines →
        read_error s !! path = None ∧ Forall assigns_no_nul lines) →
     printed s (load_api_keys s)).
Proof.
  split; [|split; [apply find_keys_file_isfile|]].
  - unfold load_api_keys. set (s1 := emit _ s).
    assert (H1 : printed s s1) by apply printed_stdout.
    pose proof (load_env_printed s1) as H2.
    set (s2 := (_load_keys_from_env s1).2) in *.
    eapply warned_trans; [apply printed_warned; exact H1|].
    eapply warned_trans; [apply printed_warned; exact H2|].
    destruct (_find_keys_file s2) as [path|] eqn:Hpath;
      [|apply printed_warned, printed_stdout].
    eapply warned_trans; [|apply printed_warned, printed_stdout].
    apply find_keys_file_isfile in Hpath as [lines Hlines].
    by apply (load_file_warned path s2 lines).
  - intros Hfile. unfold load_api_keys. set (s1 := emit _ s).
    assert (H1 : printed s s1) by apply printed_stdout.
    pose proof (load_env_printed s1) as H2.
    destruct (load_env_disk s1) as (Hf & Hh & He).
    pose proof (load_env_read_error s1) as Hre.
    rewrite (find_keys_file_ext s _) by done.
    set (s2 := (_load_keys_from_env s1).2) in *.
    eapply printed_trans; [exact H1|]. eapply printed_trans; [exact H2|].
    destruct (_find_keys_file s) as [path|] eqn:Hpath; [|apply printed_stdout].
    eapply printed_trans; [|apply printed_stdout].
    destruct (find_keys_file_isfile s path Hpath) as [lines Hlines].
    destruct (Hfile path lines eq_refl Hlines) as [Hread Hnul].
    apply (load_file_warned path s2 lines); [by rewrite Hf|by rewrite Hre|done].
Qed.

Lemma load_api_keys_output_witness :
  let s := initialize_configuration Ex.conf
             (Ex.boot ∅ {[ "/home/op/.llm_api_keys" := [ "OPENAI_API_KEY=sk" ] ]}
                      Ex.aider_ok []) in
  printed s (load_api_keys s).
Proof.
  intros s.
  destruct (load_api_keys_output s) as (_ & _ & Hquiet). apply Hquiet.
  intros path lines Hpath Hlines.
  assert (path = "/home/op/.llm_api_keys") as -> by (vm_compute in Hpath; congruence).
  assert (lines = [ "OPENAI_API_KEY=sk" ]) as -> by (vm_compute in Hlines; congruence).
  split; [reflexivity|].
  apply Forall_singleton. intros var value. vm_compute. by intros [= <- <-].
Defined.

(** The warning on stderr, for a value with a NUL. *)
Example load_api_keys_warns :
  let bad := "OPENAI_API_KEY=a" +:+ String (ascii_of_nat 0) "b" in
  let s := initialize_configuration Ex.conf
             (Ex.boot ∅ {[ "/home/op/.llm_api_keys" := [ bad ] ]} Ex.aider_ok []) in
  trace (load_api_keys s)
  = [ Stdout "Configuration loaded successfully";
      Stdout "Attempting to load API keys...";
      Stdout "Checking environment variables for API keys...";
      Stdout "One or more API keys not found in environment variables. Will check files.";
      Stdout "Loading API keys from file: /home/op/.llm_api_keys";
      Stderr "Warning: Could not parse API keys file /home/op/.llm_api_keys: embedded null byte";
      Stdout "API key loading process complete." ].
Proof. vm_compute. reflexivity. Qed.

(** ** The pattern of the keys file *)

Section Pattern.

Lemma span_word_identifier name rest :
  all_word name = true → Py.span_word (name +:+ String "=" rest) = (name, String "=" rest).
Proof.
  induction name as [|c name IH]; [done|]. cbn [all_word].
  intros [Hc Hname]%andb_true_iff.
  change (String c name +:+ String "=" rest)
    with (String c (name +:+ String "=" rest)).
  cbn [Py.span_word]. by rewrite Hc, IH.
Qed.

Lemma drop_trailing_quote_app value q :
  Py.is_quote q = true →
  Py.drop_trailing_quote (value +:+ String q EmptyString) = value.
Proof.
  intros Hq. induction value as [|c value IH].
  - change (Py.drop_trailing_quote (String q EmptyString) = EmptyString).
    cbn [Py.drop_trailing_quote]. by rewrite Hq.
  - change (String c value +:+ String q EmptyString)
      with (String c (value +:+ String q EmptyString)).
    cbn [Py.drop_trailing_quote].
    destruct (value +:+ String q EmptyString) eqn:Hv.
    + by destruct value.
    + by rewrite IH.
Qed.

Lemma drop_trailing_quote_id value :
  quoted (last_char value) = false → Py.drop_trailing_quote value = value.
Proof.
  induction value as [|c value IH]; [done|].
  destruct value as [|c' value].
  - intros Hlast. change (Py.is_quote c = false) in Hlast.
    cbn [Py.drop_trailing_quote]. by rewrite Hlast.
  - intros Hlast. cbn [Py.drop_trailing_quote]. f_equal. apply IH. exact Hlast.
Qed.

Lemma drop_leading_quote_id value :
  quoted (first_char value) = false → Py.drop_leading_quote value = value.
Proof.
  destruct value as [|c value]; [done|]. intros Hfirst.
  change (Py.is_quote c = false) in Hfirst.
  cbn [Py.drop_leading_quote]. by rewrite Hfirst.
Qed.

Lemma drop_final_newline_id value :
  Py.has_newline value = false → Py.drop_final_newline value = value.
Proof.
  induction value as [|c value IH]; [done|]. cbn [Py.has_newline].
  intros [Hc Hvalue]%orb_false_iff. cbn [Py.drop_final_newline].
  destruct value as [|c' value]; [by rewrite Hc|]. by rewrite IH.
Qed.

Lemma one_line_has_newline value : one_line value = true → Py.has_newline value = false.
Proof.
  induction value as [|c value IH]; [done|]. cbn [one_line Py.has_newline].
  intros [Hc Hvalue]%andb_true_iff. unfold Py.is_newline.
  apply negb_true_iff in Hc. by rewrite Hc, IH.
Qed.

Lemma quote_not_newline q : Py.is_quote q = true → Py.is_newline q = false.
Proof.
  unfold Py.is_quote, Py.is_newline.
  intros [H|H]%orb_true_iff; apply Nat.eqb_eq in H; rewrite H; done.
Qed.

Lemma has_newline_app x y :
  Py.has_newline (x +:+ y) = Py.has_newline x || Py.has_newline y.
Proof.
  induction x as [|c x IH]; [done|].
  change (String c x +:+ y) with (String c (x +:+ y)).
  cbn [Py.has_newline]. by rewrite IH, orb_assoc.
Qed.

Lemma quoted_line q1 q2 value :
  Py.is_quote q1 = true → Py.is_quote q2 = true → one_line value = true →
  Py.has_newline (String q1 (value +:+ String q2 EmptyString)) = false.
Proof.
  intros Hq1 Hq2 Hvalue. cbn [Py.has_newline].
  rewrite has_newline_app, (quote_not_newline q1), (one_line_has_newline value) by done.
  cbn [Py.has_newline orb]. by rewrite (quote_not_newline q2).
Qed.

End Pattern.

(** X9.  What the pattern of the keys file extracts from a line
    NAME=value, for a name of word characters.  A value in quotes is
    recovered whatever it contains, further quotes included, and the two
    quotes need not be of the same kind; a value without quotes is recovered
    when it neither starts nor ends with a quote.  The value is part of a
    line of the file, so it holds no line feed (which the dot of the pattern
    would not match). *)
Theorem assignment_round_trip (name value : string) :
  identifier name → one_line value = true →
  (∀ q1 q2, Py.is_quote q1 = true → Py.is_quote q2 = true →
     Py.match_assignment
       (name +:+ "=" +:+ String q1 (value +:+ String q2 EmptyString))
     = Some (name, value))
  ∧ (quoted (first_char value) = false → quoted (last_char value) = false →
     Py.match_assignment (name +:+ "=" +:+ value) = Some (name, value)).
Proof.
  intros [Hne Hword] Hline. split.
  - intros q1 q2 Hq1 Hq2. unfold Py.match_assignment.
    change ("=" +:+ ?x) with (String "=" x).
    rewrite span_word_identifier by done.
    destruct name as [|c name]; [done|].
    pose proof (quoted_line q1 q2 value Hq1 Hq2 Hline) as Hnl.
    rewrite (drop_final_newline_id _ Hnl), Hnl.
    cbn [Py.drop_leading_quote]. rewrite Hq1.
    by rewrite drop_trailing_quote_app.
  - intros Hfirst Hlast. unfold Py.match_assignment.
    change ("=" +:+ ?x) with (String "=" x).
    rewrite span_word_identifier by done.
    destruct name as [|c name]; [done|].
    pose proof (one_line_has_newline value Hline) as Hnl.
    rewrite (drop_final_newline_id _ Hnl), Hnl.
    by rewrite drop_leading_quote_id, drop_trailing_quote_id.
Qed.

Lemma assignment_round_trip_witness :
  Py.match_assignment ("OPENAI_API_KEY=" +:+ Ex.dq +:+ "sk-'x'" +:+ Ex.dq)
  = Some ("OPENAI_API_KEY", "sk-'x'").
Proof.
  destruct (assignment_round_trip "OPENAI_API_KEY" "sk-'x'") as [Hq _];
    [split; [discriminate|reflexivity] | reflexivity |].
  exact (Hq (ascii_of_nat 34) (ascii_of_nat 34) eq_refl eq_refl).
Defined.

(** ** The menus, choice by choice *)

Section Choices.

Lemma numeric_not_back choice :
  Py.isdigit choice = true → 1 ≤ Py.int choice → is_back choice = false.
Proof.
  intros Hd Hn. unfold is_back.
  destruct (String.eqb choice EmptyString) eqn:He.
  - apply String.eqb_eq in He as ->. done.
  - destruct (String.eqb choice "0") eqn:H0; [|done].
    apply String.eqb_eq in H0 as ->. vm_compute in Hn. lia.
Qed.

Lemma all_digits_like choice :
  Py.all_digits choice = true → Py.all_digit_like choice = true.
Proof.
  induction choice as [|c choice IH]; [done|]. cbn [Py.all_digits Py.all_digit_like].
  intros [Hc Hrest]%andb_true_iff. unfold Py.is_digit_like.
  by rewrite Hc, IH.
Qed.

(** Decimal digits are digits for [str.isdigit]. *)
Lemma isdigit_str_isdigit choice :
  Py.isdigit choice = true → Py.str_isdigit choice = true.
Proof. destruct choice as [|c choice]; [done|]. apply all_digits_like. Qed.

Lemma select_entity_unfold s entity_type role_label vendor :
  menu_kind entity_type vendor →
  ∃ title, select_entity entity_type role_label vendor s
           = entity_menu entity_type role_label vendor
               (offered s entity_type vendor) title s.
Proof.
  intros [->|[-> [v ->]]]; eexists; reflexivity.
Qed.

Lemma entity_menu_pick entity_type role_label vendor entities menu_title s line rest v :
  stdin s = line :: rest →
  Py.isdigit (Py.strip line) = true →
  1 ≤ Py.int (Py.strip line) →
  entities !! (Py.int (Py.strip line) - 1) = Some v →
  same_as_architect entity_type role_label (Py.strip line) = false →
  ∃ s', entity_menu entity_type role_label vendor entities menu_title s = Ok tt s'
        ∧ SELECT_RESULT s' = Some v ∧ stdin s' = rest.
Proof.
  intros Hin Hd Hn Hv Hnine. unfold same_as_architect in Hnine.
  pose proof (numeric_not_back _ Hd Hn) as Hback.
  pose proof (lookup_lt_Some _ _ _ Hv) as Hlt.
  unfold entity_menu. cbn zeta.
  assert ((length entities =? 0) = false) as -> by (apply Nat.eqb_neq; lia).
  assert (Hrange : ((0 <=? Z.of_nat (Py.int (Py.strip line)) - 1)%Z
                    && (Z.of_nat (Py.int (Py.strip line)) - 1 <? Z.of_nat (length entities))%Z
                    = true)%bool).
  { apply andb_true_iff. split; [apply Z.leb_le|apply Z.ltb_lt]; lia. }
  assert (Hidx : Z.to_nat (Z.of_nat (Py.int (Py.strip line)) - 1)
                 = Py.int (Py.strip line) - 1) by lia.
  unfold bind, say, says, input, put_SELECT_RESULT, ret.
  destruct (String.eqb entity_type "vendor" && String.eqb role_label "Editor");
    cbn [stdin emit]; rewrite stdin_emits; cbn [stdin emit]; rewrite Hin;
    cbn [andb] in Hnine |- *; rewrite Hback, ?Hnine, Hd, Hrange, Hidx, Hv;
    eexists; (split; [reflexivity|done]).
Qed.

Lemma entity_menu_invalid entity_type role_label vendor entities menu_title
    s line enter rest :
  stdin s = line :: enter :: rest →
  is_back (Py.strip line) = false →
  same_as_architect entity_type role_label (Py.strip line) = false →
  out_of_menu (length entities) (Py.strip line) →
  ∃ s', entity_menu entity_type role_label vendor entities menu_title s = Ok tt s'
        ∧ SELECT_RESULT s' = Some "invalid" ∧ stdin s' = rest
        ∧ last (trace s') = Some (Stderr "Invalid choice.").
Proof.
  intros Hin Hback Hnine Hout. unfold same_as_architect in Hnine.
  unfold entity_menu, invalid_choice. cbn zeta.
  unfold bind, say, says, input, put_SELECT_RESULT, ret.
  destruct (length entities =? 0) eqn:Hlen.
  - destruct (String.eqb entity_type "vendor"); cbn [stdin emit];
      rewrite Hin, Hback; cbn [stdin emit set_stdin];
      eexists; (split; [reflexivity|]); (split; [done|]); (split; [done|]);
      cbn [trace emit set_stdin set_SELECT_RESULT]; by rewrite last_snoc.
  - assert (Hrange : Py.isdigit (Py.strip line) = true →
              ((0 <=? Z.of_nat (Py.int (Py.strip line)) - 1)%Z
               && (Z.of_nat (Py.int (Py.strip line)) - 1 <? Z.of_nat (length entities))%Z
               = false)%bool).
    { intros Hd. destruct Hout as [Hnd|(_ & _ & [H0|Hbig])].
      - apply isdigit_str_isdigit in Hd. congruence.
      - apply andb_false_iff. left. apply Z.leb_gt. lia.
      - apply andb_false_iff. right. apply Z.ltb_ge. lia. }
    destruct (String.eqb entity_type "vendor" && String.eqb role_label "Editor");
      cbn [stdin emit]; rewrite stdin_emits; cbn [stdin emit]; rewrite Hin;
      cbn [andb] in Hnine |- *; rewrite Hback, ?Hnine;
      (destruct (Py.isdigit (Py.strip line)); [rewrite Hrange by done|]);
      cbn beta iota; cbn [stdin emit set_stdin set_SELECT_RESULT];
      eexists; (split; [reflexivity|]); (split; [done|]); (split; [done|]);
      cbn [trace emit set_stdin set_SELECT_RESULT]; by rewrite last_snoc.
Qed.

Lemma on_select_invalid {B R} (invalid back : M (ctl B R)) chosen s :
  SELECT_RESULT s = Some "invalid" → on_select invalid back chosen s = invalid s.
Proof.
  intros Hres. unfold on_select, bind, get. by rewrite Hres, bool_decide_eq_true_2.
Qed.

Lemma select_entity_config s entity_type role_label vendor s' :
  menu_kind entity_type vendor →
  select_entity entity_type role_label vendor s = Ok tt s' → same_config s s'.
Proof.
  intros Hkind Hsel.
  assert (Hruns : runs plain (same_config s) false false
                    (select_entity entity_type role_label vendor) (λ _, True)).
  { destruct Hkind as [->|[-> [v ->]]];
      [apply runs_select_vendor|apply runs_select_model]; done. }
  specialize (Hruns s (same_config_refl s)). rewrite Hsel in Hruns.
  by destruct Hruns as ((? & _) & _).
Qed.

End Choices.

(** X10.  Picking by number: at a vendor or model menu, a line of decimal
    digits 0..9, at most 4300 of them (beyond that [int] raises ValueError,
    leading zeros counted), whose value n is between 1 and the number of
    entries selects the n-th entry, reading that one line and leaving the
    configuration as it was.  Leading zeros are accepted.  The only exception
    is the input "9" at the editor-vendor menu, which is taken before numbers
    are (but "09" there does select the ninth vendor). *)
Theorem numeric_choice_selects (s : state) (entity_type role_label : string)
    (vendor : option string) (line : string) (rest : list string) (v : string) :
  menu_kind entity_type vendor →
  stdin s = line :: rest →
  Py.isdigit (Py.strip line) = true →
  String.length (Py.strip line) ≤ Py.max_str_digits →
  1 ≤ Py.int (Py.strip line) →
  offered s entity_type vendor !! (Py.int (Py.strip line) - 1) = Some v →
  same_as_architect entity_type role_label (Py.strip line) = false →
  ∃ s', select_entity entity_type role_label vendor s = Ok tt s'
        ∧ SELECT_RESULT s' = Some v ∧ stdin s' = rest ∧ same_config s s'.
Proof.
  intros Hkind Hin Hd _ Hn Hv Hnine.
  destruct (select_entity_unfold s entity_type role_label vendor Hkind) as [title Hsel].
  destruct (entity_menu_pick entity_type role_label vendor _ title s line rest v
              Hin Hd Hn Hv Hnine) as (s' & Hmenu & Hres & Hrest).
  rewrite <- Hsel in Hmenu. exists s'.
  split; [done|]. split; [done|]. split; [done|].
  by eapply select_entity_config.
Qed.

Lemma numeric_choice_selects_witness :
  let s := Ex.session9 ["09"] in
  ∃ s', select_entity "vendor" "Editor" None s = Ok tt s'
        ∧ SELECT_RESULT s' = Some "I".
Proof.
  intros s.
  destruct (numeric_choice_selects s "vendor" "Editor" None "09" [] "I")
    as (s' & Hsel & Hres & _);
    [by left | reflexivity | reflexivity | vm_compute; lia | vm_compute; lia
    | reflexivity | reflexivity |].
  exists s'. by split.
Defined.

(** X11.  An input, of characters below 256, that is neither "back" nor the
    number of an entry makes the menu print "Invalid choice." on stderr, wait
    for one more line, and report "invalid"; every step of the wizard then
    shows the same menu again: the step continues its loop, with the
    configuration unchanged and two lines read.  Such an input is one that
    [str.isdigit] refuses (a word, a sign, a space inside), or one of at most
    4300 decimal digits whose value is 0 (as 00) or beyond the list.  Digits
    that [str.isdigit] accepts and [int] refuses (a superscript two), and
    longer runs of digits, are not among them: there [int] raises. *)
Theorem invalid_choice_reprompts (s : state) (entity_type role_label : string)
    (vendor : option string) (line enter : string) (rest : list string) :
  menu_kind entity_type vendor →
  stdin s = line :: enter :: rest →
  is_back (Py.strip line) = false →
  same_as_architect entity_type role_label (Py.strip line) = false →
  out_of_menu (length (offered s entity_type vendor)) (Py.strip line) →
  ∃ s', select_entity entity_type role_label vendor s = Ok tt s'
        ∧ SELECT_RESULT s' = Some "invalid" ∧ stdin s' = rest
        ∧ last (trace s') = Some (Stderr "Invalid choice.")
        ∧ same_config s s'
        ∧ ∀ (B : Type) (chosen : string → M (ctl B unit)),
            (select_entity entity_type role_label vendor;;
             on_select (ret Continue) (ret (Return tt)) chosen) s = Ok Continue s'.
Proof.
  intros Hkind Hin Hback Hnine Hout.
  destruct (select_entity_unfold s entity_type role_label vendor Hkind) as [title Hsel].
  destruct (entity_menu_invalid entity_type role_label vendor _ title s line enter rest
              Hin Hback Hnine Hout) as (s' & Hmenu & Hres & Hrest & Hlast).
  rewrite <- Hsel in Hmenu. exists s'.
  split; [done|]. split; [done|]. split; [done|]. split; [done|]. split.
  - by eapply select_entity_config.
  - intros B chosen. unfold bind at 1. rewrite Hmenu.
    by rewrite on_select_invalid.
Qed.

Lemma invalid_choice_reprompts_witness :
  let s := Ex.session {[ "OPENAI_API_KEY" := "sk-env" ]} ∅ Ex.aider_ok
             ["7"; EmptyString; "1"] in
  ∃ s', code_vendor_step s = Ok Continue s' ∧ stdin s' = ["1"].
Proof.
  intros s.
  destruct (invalid_choice_reprompts s "vendor" "Code" None "7" EmptyString ["1"])
    as (s' & _ & _ & Hrest & _ & _ & Hstep);
    [by left | reflexivity | reflexivity | reflexivity
    | right; split; [reflexivity|split; [vm_compute; lia|right; vm_compute; lia]] |].
  exists s'. split; [apply Hstep|exact Hrest].
Defined.

(** X12.  The value "invalid" is a sentinel of the menus, so an entry that
    is itself named "invalid" can be listed but not chosen: picking its
    number (in decimal digits, at most 4300 of them, the most [int] takes)
    makes the step show the menu again, without an error message and with one
    line read. *)
Theorem entry_named_invalid_is_not_selectable (s : state)
    (entity_type role_label : string) (vendor : option string)
    (line : string) (rest : list string) :
  menu_kind entity_type vendor →
  stdin s = line :: rest →
  Py.isdigit (Py.strip line) = true →
  String.length (Py.strip line) ≤ Py.max_str_digits →
  1 ≤ Py.int (Py.strip line) →
  offered s entity_type vendor !! (Py.int (Py.strip line) - 1) = Some "invalid" →
  same_as_architect entity_type role_label (Py.strip line) = false →
  ∃ s', stdin s' = rest
        ∧ ∀ (B : Type) (chosen : string → M (ctl B unit)),
            (select_entity entity_type role_label vendor;;
             on_select (ret Continue) (ret (Return tt)) chosen) s = Ok Continue s'.
Proof.
  intros Hkind Hin Hd _ Hn Hv Hnine.
  destruct (select_entity_unfold s entity_type role_label vendor Hkind) as [title Hsel].
  destruct (entity_menu_pick entity_type role_label vendor _ title s line rest "invalid"
              Hin Hd Hn Hv Hnine) as (s' & Hmenu & Hres & Hrest).
  rewrite <- Hsel in Hmenu. exists s'. split; [done|].
  intros B chosen. unfold bind at 1. rewrite Hmenu. by rewrite on_select_invalid.
Qed.

Lemma entry_named_invalid_is_not_selectable_witness :
  let c := {| cfg_vendors := ["OPENAI"];
              cfg_models := {[ "OPENAI" := ["invalid"] ]};
              cfg_code := ["whole"]; cfg_architect := ["editor-whole"] |} in
  let s := load_api_keys
             (initialize_configuration c
                (Ex.boot {[ "OPENAI_API_KEY" := "sk-env" ]} ∅ Ex.aider_ok ["1"])) in
  ∃ s', stdin s' = [] ∧ code_model_step "OPENAI" s = Ok Continue s'.
Proof.
  intros c s.
  destruct (entry_named_invalid_is_not_selectable s "model" "Code" (Some "OPENAI") "1" [])
    as (s' & Hrest & Hstep);
    [right; by split | reflexivity | reflexivity | vm_compute; lia
    | vm_compute; lia | reflexivity | reflexivity |].
  exists s'. split; [exact Hrest|apply Hstep].
Defined.

(** ** The model menu and the edit-format menu *)

Section OtherMenus.

Lemma step_chosen {B} (select : M unit) (chosen : string → M (ctl B unit)) s v s' :
  (select;; on_select (ret Continue) (ret (Return tt)) chosen) s = Ok (Break v) s' →
  ∃ s1 v1, select s = Ok tt s1
           ∧ SELECT_RESULT s1 = Some v1 ∧ v1 ≠ "invalid"
           ∧ chosen v1 s1 = Ok (Break v) s'.
Proof.
  unfold bind at 1.
  destruct (select s) as [[] s1| | |]; try done.
  unfold on_select, bind, get.
  case_bool_decide as Hinv; [done|].
  destruct (SELECT_RESULT s1) as [v1|] eqn:Hres; [|done].
  intros Hchosen. exists s1, v1. repeat split; try done. congruence.
Qed.

Lemma select_model_ok s role_label vendor s' :
  select_entity "model" role_label (Some vendor) s = Ok tt s' →
  items (added s s') = numbered (default [] (VENDOR_MODELS s !! vendor)) ++ [(0, "Back")]
  ∧ (SELECT_RESULT s' = None
     ∨ SELECT_RESULT s' = Some "invalid"
     ∨ ∃ m, SELECT_RESULT s' = Some m ∧ m ∈ default [] (VENDOR_MODELS s !! vendor)).
Proof.
  rewrite select_model_unfold. intros [Hitems Hres]%entity_menu_ok.
  split; [exact Hitems|].
  destruct Hres as [?|[?|[(Hed & _)|?]]]; auto. done.
Qed.

Lemma model_step_chosen s role_label vendor m s' :
  (select_entity "model" role_label (Some vendor);;
   on_select (ret Continue) (ret (Return tt)) (λ v, ret (Break v))) s = Ok (Break m) s' →
  m ∈ default [] (VENDOR_MODELS s !! vendor) ∧ m ≠ "invalid".
Proof.
  intros (s1 & v1 & Hsel & Hres & Hinv & Hchosen)%step_chosen.
  injection Hchosen as <- <-.
  destruct (select_model_ok _ _ _ _ Hsel) as [_ [?|[?|(m & ? & Hm)]]]; try congruence.
  split; [|done]. congruence.
Qed.

Lemma formats_of_get mode s :
  (if String.eqb mode "code" then CODE_EDIT_FORMATS else ARCHITECT_EDIT_FORMATS) s
  = formats_of s mode.
Proof. unfold formats_of. by destruct (String.eqb mode "code"). Qed.

Lemma select_edit_format_ok mode s s' :
  mode = "code" ∨ mode = "architect" →
  select_edit_format mode s = Ok tt s' →
  items (added s s')
  = numbered ("Default (Aider chooses)" :: formats_of s mode) ++ [(0, "Back")]
  ∧ (SELECT_RESULT s' = None
     ∨ SELECT_RESULT s' = Some "invalid"
     ∨ SELECT_RESULT s' = Some "default"
     ∨ ∃ f, SELECT_RESULT s' = Some f ∧ f ∈ formats_of s mode).
Proof.
  intros Hmode. unfold select_edit_format, invalid_choice.
  assert (String.eqb mode "code" || String.eqb mode "architect" = true) as ->
    by (by destruct Hmode as [-> | ->]).
  cbn zeta. unfold bind, get, say, says, input, put_SELECT_RESULT, ret.
  rewrite formats_of_get.
  set (formats := formats_of s mode).
  set (shown := (λ io : nat * string, Item (io.1 + 1) io.2)
                  <$> enumerate ("Default (Aider chooses)" :: formats)).
  set (title := if String.eqb mode "code" then TITLE_CODE_FORMAT else TITLE_ARCH_FORMAT).
  assert (Hshape : ∀ r (s1 : state) tail,
            trace s1 = trace s ++ Title title :: shown ++ Item 0 "Back" :: tail →
            items tail = [] →
            items (added s (set_SELECT_RESULT r s1))
            = numbered ("Default (Aider chooses)" :: formats) ++ [(0, "Back")]).
  { intros r s1 tail Ht Htail.
    erewrite added_app; [|cbn [trace set_SELECT_RESULT]; exact Ht].
    rewrite items_title, !items_app. unfold shown. rewrite items_numbered.
    by rewrite items_item, Htail. }
  assert (Hpick : ∀ i, SELECT_RESULT (set_SELECT_RESULT (formats !! i) s) = None
                  ∨ ∃ v, formats !! i = Some v ∧ v ∈ formats).
  { intros i. destruct (formats !! i) as [v|] eqn:Hv; [right|by left].
    exists v. split; [done|]. by eapply list_elem_of_lookup_2. }
  cbn [stdin emit]. rewrite stdin_emits. cbn [stdin emit].
  destruct (stdin s) as [|line rest]; [done|].
  cbn [stdin emit set_stdin set_SELECT_RESULT].
  destruct (is_back _).
  { intros [= <-]. split; [|auto].
    apply (Hshape _ _ []); [|done].
    cbn [trace emit set_stdin set_SELECT_RESULT]. rewrite trace_emits.
    cbn [trace emit]. by rewrite <- !app_assoc. }
  destruct (Py.isdigit _); [destruct (andb (Z.leb 0 _) _)|].
  - destruct (_ =? 0)%Z; intros [= <-].
    + split; [|auto].
      apply (Hshape _ _ []); [|done].
      cbn [trace emit set_stdin set_SELECT_RESULT]. rewrite trace_emits.
      cbn [trace emit]. by rewrite <- !app_assoc.
    + split.
      * apply (Hshape _ _ []); [|done].
        cbn [trace emit set_stdin set_SELECT_RESULT]. rewrite trace_emits.
        cbn [trace emit]. by rewrite <- !app_assoc.
      * cbn [SELECT_RESULT set_SELECT_RESULT].
        destruct (Hpick (Z.to_nat (Z.of_nat (Py.int (Py.strip line)) - 1 - 1)))
          as [Hn|(v & -> & Hv)]; [left; exact Hn|eauto 10].
  - cbn beta iota. cbn [stdin emit set_stdin set_SELECT_RESULT].
    destruct rest as [|enter rest]; [done|]. intros [= <-]. split; [|auto].
    apply (Hshape _ _ [Stderr "Invalid choice."]); [|done].
    cbn [trace emit set_stdin set_SELECT_RESULT]. rewrite trace_emits.
    cbn [trace emit]. by rewrite <- !app_assoc.
  - cbn beta iota. cbn [stdin emit set_stdin set_SELECT_RESULT].
    destruct rest as [|enter rest]; [done|]. intros [= <-]. split; [|auto].
    apply (Hshape _ _ [Stderr "Invalid choice."]); [|done].
    cbn [trace emit set_stdin set_SELECT_RESULT]. rewrite trace_emits.
    cbn [trace emit]. by rewrite <- !app_assoc.
Qed.

End OtherMenus.

(** X13.  A model menu lists exactly the models the configuration gives
    for the vendor, in their order, then "Back"; the result it leaves is
    "back", "invalid" or one of these models, so the model a step hands on is
    one configured for the chosen vendor.  For a vendor without an entry in
    the configuration the list is empty. *)
Theorem model_menu_offers_configured (s : state) (role_label vendor : string)
    (s' : state) :
  select_entity "model" role_label (Some vendor) s = Ok tt s' →
  items (added s s') = numbered (default [] (VENDOR_MODELS s !! vendor)) ++ [(0, "Back")]
  ∧ (SELECT_RESULT s' = None
     ∨ SELECT_RESULT s' = Some "invalid"
     ∨ ∃ m, SELECT_RESULT s' = Some m ∧ m ∈ default [] (VENDOR_MODELS s !! vendor))
  ∧ (∀ m s2, code_model_step vendor s = Ok (Break m) s2
             ∨ arch_model_step vendor s = Ok (Break m) s2
             ∨ editor_model_step vendor s = Ok (Break m) s2 →
             m ∈ default [] (VENDOR_MODELS s !! vendor) ∧ m ≠ "invalid").
Proof.
  intros Hsel. destruct (select_model_ok _ _ _ _ Hsel) as [Hitems Hres].
  split; [done|]. split; [done|].
  intros m s2 [Hstep|[Hstep|Hstep]]; by eapply model_step_chosen.
Qed.

Lemma model_menu_offers_configured_witness :
  let s := Ex.session {[ "OPENAI_API_KEY" := "sk-env" ]} ∅ Ex.aider_ok ["1"] in
  ∃ s', select_entity "model" "Code" (Some "OPENAI") s = Ok tt s'
        ∧ items (added s s') = [(1, "gpt-4o"); (0, "Back")].
Proof.
  intros s.
  destruct (select_entity "model" "Code" (Some "OPENAI") s) as [[] s'| | |] eqn:Hsel;
    try (vm_compute in Hsel; discriminate).
  exists s'. split; [reflexivity|].
  by destruct (model_menu_offers_configured s "Code" "OPENAI" s' Hsel) as [-> _].
Defined.

(** X14.  An edit-format menu lists "Default (Aider chooses)" and then the
    formats the configuration gives for the mode, then "Back"; the result it
    leaves is "back", "invalid", "default" or one of the formats of that
    mode. *)
Theorem format_menu_offers_configured (s : state) (mode : string) (s' : state) :
  mode = "code" ∨ mode = "architect" →
  select_edit_format mode s = Ok tt s' →
  items (added s s')
  = numbered ("Default (Aider chooses)" :: formats_of s mode) ++ [(0, "Back")]
  ∧ (SELECT_RESULT s' = None
     ∨ SELECT_RESULT s' = Some "invalid"
     ∨ SELECT_RESULT s' = Some "default"
     ∨ ∃ f, SELECT_RESULT s' = Some f ∧ f ∈ formats_of s mode).
Proof. apply select_edit_format_ok. Qed.

Lemma format_menu_offers_configured_witness :
  let s := Ex.session {[ "OPENAI_API_KEY" := "sk-env" ]} ∅ Ex.aider_ok ["3"] in
  ∃ s', select_edit_format "code" s = Ok tt s'
        ∧ items (added s s')
          = [(1, "Default (Aider chooses)"); (2, "whole"); (3, "diff"); (0, "Back")].
Proof.
  intros s.
  destruct (select_edit_format "code" s) as [[] s'| | |] eqn:Hsel;
    try (vm_compute in Hsel; discriminate).
  exists s'. split; [reflexivity|].
  by destruct (format_menu_offers_configured s "code" s' (or_introl eq_refl) Hsel)
    as [-> _].
Defined.

(** ** Command builder: the editor of another vendor *)

(** X15.  The architect arguments for an editor of another vendor than
    the main one, after the editor vendor passed [check_api_key]: the
    [--editor-model] pair, followed by the credential flag of the editor
    vendor when its key came from the keys file, and by nothing when it did
    not.  The key is the value [_get_api_key_value] finds, and the flag is
    the one the main builder would use for that vendor. *)
Theorem architect_editor_credential_flag (s : state)
    (editor_vendor editor_model main_vendor : string) (i : nat) :
  index editor_vendor (VENDORS s) = Some i →
  editor_vendor ≠ main_vendor → editor_vendor ≠ "default" →
  editor_model ≠ "default" →
  check_api_key editor_vendor s = Ok tt s →
  (VENDOR_KEY_SOURCE s !!! i = File →
   ∃ key, _get_api_key_value editor_vendor s = Ok (Some key) s
          ∧ key ≠ EmptyString
          ∧ _build_architect_args (Some editor_vendor) (Some editor_model) main_vendor s
            = Ok (["--architect"; "--editor-model"; editor_model]
                  ++ api_key_flag editor_vendor key) s)
  ∧ (VENDOR_KEY_SOURCE s !!! i ≠ File →
     _build_architect_args (Some editor_vendor) (Some editor_model) main_vendor s
     = Ok ["--architect"; "--editor-model"; editor_model] s).
Proof.
  intros Hi Hmain Hdef Hem Hcheck.
  assert (Hhead :
            _build_architect_args (Some editor_vendor) (Some editor_model) main_vendor
            = (s0 <- get id;
               match _get_vendor_index s0 editor_vendor with
               | Some editor_vendor_index =>
                   if bool_decide (VENDOR_KEY_SOURCE s0 !!! editor_vendor_index = File)
                   then
                     editor_api_key_value <- _get_api_key_value editor_vendor;
                     match editor_api_key_value with
                     | Some v =>
                         if negb (String.eqb v EmptyString)
                         then ret (["--architect"; "--editor-model"; editor_model]
                                   ++ api_key_flag editor_vendor v)
                         else ret ["--architect"; "--editor-model"; editor_model]
                     | None => ret ["--architect"; "--editor-model"; editor_model]
                     end
                   else ret ["--architect"; "--editor-model"; editor_model]
               | None =>
                   say (Stderr ("Error: Unknown editor vendor index in _build_architect_args for: "
                                +:+ editor_vendor));;
                   ret ["--architect"; "--editor-model"; editor_model]
               end)).
  { unfold _build_architect_args.
    apply String.eqb_neq in Hem. rewrite Hem. cbn [negb].
    rewrite !bool_decide_eq_false_2 by congruence. done. }
  rewrite Hhead. unfold bind, get, id, _get_vendor_index.
  cbn beta iota. rewrite Hi. split.
  - intros Hsrc. rewrite bool_decide_eq_true_2 by done.
    destruct (checked_key_value _ _ _ Hcheck) as (key & Hkey & Hne).
    exists key. split; [done|]. split; [done|].
    rewrite Hkey. apply String.eqb_neq in Hne. by rewrite Hne.
  - intros Hsrc. by rewrite bool_decide_eq_false_2.
Qed.

Lemma architect_editor_credential_flag_witness :
  let s := Ex.session {[ "MISTRAL_API_KEY" := "ms-env" ]} Ex.keys_file Ex.aider_ok [] in
  ∃ key, _build_architect_args (Some "OPENAI") (Some "gpt-4o") "MISTRAL" s
         = Ok (["--architect"; "--editor-model"; "gpt-4o"]
               ++ api_key_flag "OPENAI" key) s.
Proof.
  intros s.
  destruct (architect_editor_credential_flag s "OPENAI" "gpt-4o" "MISTRAL" 0)
    as [Hfile _];
    [reflexivity | discriminate | discriminate | discriminate | reflexivity |].
  destruct (Hfile eq_refl) as (key & _ & _ & Hargs). by exists key.
Defined.

(** ** Exit statuses *)

Section EndsRules.

Context (pre : state → Prop) (codes : Z → Prop).
Hypothesis pre_follows : ∀ s s', pre s → follows (λ _, True) s s' → pre s'.

Abbreviation ends' := (ends pre).
Abbreviation anything := (λ _ : event, True).

Lemma ends_of_runs {A} good st (m : M A) post :
  runs good pre st true m post → ends' st codes m post.
Proof.
  intros Hm s Hpre. eapply sat_mono; [by apply Hm|..].
  - intros a s' ((Hc & Hl & es & Ht & _) & Hrest). split; [|done].
    split; [done|]. split; [done|]. exists es. split; [done|].
    by apply Forall_forall.
  - intros c s' ((Hc & Hl & es & Ht & _) & Hnone). split.
    + split; [done|]. split; [done|]. exists es. split; [done|].
      by apply Forall_forall.
    + intros z ->. by specialize (Hnone eq_refl).
Qed.


Lemma ends_weaken {A} st st' (m : M A) (post post' : A → Prop) :
  ends' st codes m post →
  (st' = true → st = true) → (∀ a, post a → post' a) →
  ends' st' codes m post'.
Proof.
  intros Hm Hs Hp s Hpre. eapply sat_mono; [by apply Hm|..].
  - intros a s' (Hf & Hlt & Hpost). auto.
  - done.
Qed.

Lemma ends_ret {A} (a : A) (post : A → Prop) : post a → ends' false codes (ret a) post.
Proof. intros Ha s _. simpl. split; [apply follows_refl|done]. Qed.

Lemma ends_sys_exit {A} st z (post : A → Prop) :
  codes z → ends' st codes (sys_exit z) post.
Proof.
  intros Hz s _. simpl. split; [apply follows_refl|]. by intros ? [= <-].
Qed.

Lemma ends_bind {A B} st1 st2 (m : M A) (k : A → M B) mid post :
  ends' st1 codes m mid →
  (∀ a, mid a → ends' st2 codes (k a) post) →
  ends' (st1 || st2) codes (bind m k) post.
Proof.
  intros Hm Hk s Hpre. apply sat_bind.
  eapply sat_mono; [by apply Hm| |done].
  intros a s1 (Hf1 & Hlt1 & Hmid). cbn beta.
  eapply sat_mono; [apply (Hk a Hmid s1); by eapply pre_follows|..].
  - intros b s2 (Hf2 & Hlt2 & Hpost). split; [by eapply follows_trans|].
    split; [|done]. intros [->| ->]%orb_true_iff.
    + pose proof (follows_stdin _ _ _ Hf2). specialize (Hlt1 eq_refl). lia.
    + pose proof (follows_stdin _ _ _ Hf1). specialize (Hlt2 eq_refl). lia.
  - intros c s2 (Hf2 & Hc). split; [by eapply follows_trans|done].
Qed.

Lemma ends_seq_first {A B} st (m : M A) (k : A → M B) mid post :
  ends' true codes m mid →
  (∀ a, mid a → ends' false codes (k a) post) →
  ends' st codes (bind m k) post.
Proof.
  intros Hm Hk. eapply ends_weaken; [apply (ends_bind true false m k mid post Hm Hk)|done..].
Qed.

Lemma ends_seq_second {A B} st (m : M A) (k : A → M B) mid post :
  ends' false codes m mid →
  (∀ a, mid a → ends' st codes (k a) post) →
  ends' st codes (bind m k) post.
Proof.
  intros Hm Hk. eapply ends_weaken; [apply (ends_bind false st m k mid post Hm Hk)|done..].
Qed.

Lemma ends_relax {A} (m : M A) post : ends' true codes m post → ends' false codes m post.
Proof. intros Hm. eapply ends_weaken; [exact Hm|done..]. Qed.

Lemma ends_while {B R} (body : M (ctl B R)) (post : B + R → Prop) :
  ends' true codes body
    (λ c, match c with
          | Continue => True
          | Break b => post (inl b)
          | Return r => post (inr r)
          end) →
  ends' true codes (while_true body) post.
Proof.
  intros Hbody s0 Hpre0. unfold while_true.
  assert (Hgen : ∀ n s, pre s → follows anything s0 s →
            (s = s0 ∨ length (stdin s) < length (stdin s0)) →
            length (stdin s) < n →
            sat (while_fuel n body s)
              (λ a s', follows anything s0 s'
                       ∧ (true = true → length (stdin s') < length (stdin s0))
                       ∧ post a)
              (λ c s', follows anything s0 s' ∧ ∀ z, c = Some z → codes z)).
  { induction n as [|n IH]; intros s Hpre Hf Hpos Hn; [lia|].
    cbn [while_fuel]. specialize (Hbody s Hpre).
    destruct (body s) as [[| b | r] s' | c s' | e s' |]; simpl in Hbody |- *.
    - destruct Hbody as (Hf' & Hlt & _). specialize (Hlt eq_refl).
      apply IH.
      + by eapply pre_follows.
      + by eapply follows_trans.
      + right. destruct Hpos as [->|Hpos]; lia.
      + lia.
    - destruct Hbody as (Hf' & Hlt & Hpost). specialize (Hlt eq_refl).
      split; [by eapply follows_trans|]. split; [|done].
      intros _. destruct Hpos as [->|Hpos]; lia.
    - destruct Hbody as (Hf' & Hlt & Hpost). specialize (Hlt eq_refl).
      split; [by eapply follows_trans|]. split; [|done].
      intros _. destruct Hpos as [->|Hpos]; lia.
    - destruct Hbody as (Hf' & Hc). split; [by eapply follows_trans|done].
    - destruct Hbody as (Hf' & Hc). split; [by eapply follows_trans|done].
    - done. }
  apply Hgen; [done|apply follows_refl|by left|lia].
Qed.

Lemma ends_after {B R} st1 st2 (loop : M (B + R)) (k : B → M R)
    (mid : B + R → Prop) (post : R → Prop) :
  ends' st1 codes loop mid →
  (∀ b, mid (inl b) → ends' st2 codes (k b) post) →
  (∀ r, mid (inr r) → post r) →
  ends' st1 codes (after loop k) post.
Proof.
  intros Hloop Hk Hr s Hpre. unfold after. apply sat_bind.
  eapply sat_mono; [by apply Hloop| |done].
  intros [b|r] s1 (Hf1 & Hlt1 & Hmid); cbn beta iota.
  - eapply sat_mono; [apply (Hk b Hmid s1); by eapply pre_follows|..].
    + intros r s2 (Hf2 & _ & Hpost). split; [by eapply follows_trans|].
      split; [|done]. intros Hst.
      pose proof (follows_stdin _ _ _ Hf2). specialize (Hlt1 Hst). lia.
    + intros c s2 (Hf2 & Hc). split; [by eapply follows_trans|done].
  - simpl. auto.
Qed.

Lemma ends_forever {R} (body : M (ctl Empty_set R)) (post : R → Prop) :
  ends' true codes body
    (λ c, match c with
          | Continue => True
          | Break b => True
          | Return r => post r
          end) →
  ends' true codes (forever body) post.
Proof.
  intros Hbody. unfold forever.
  apply (ends_after true false _ _
           (λ x, match x with inl _ => True | inr r => post r end)).
  - apply ends_while. eapply ends_weaken; [exact Hbody|done|].
    by intros [| [] |r].
  - intros [].
  - done.
Qed.

Lemma ends_until_break {B} (loop : M (B + Empty_set)) (post : B → Prop) :
  ends' true codes loop (λ x, match x with inl b => post b | inr _ => True end) →
  ends' true codes (until_break loop) post.
Proof.
  intros Hloop s Hpre. unfold until_break. apply sat_bind.
  eapply sat_mono; [by apply Hloop| |done].
  intros [b|[]] s1 (Hf1 & Hlt1 & Hb). simpl. auto.
Qed.

(** A step of the wizard: a menu, then the three-way test on its result.
    [P] is what the menu guarantees of a value it hands on. *)
Lemma ends_step {B} (select : M unit) (chosen : string → M (ctl B unit))
    (P : string → Prop) (post : ctl B unit → Prop) :
  runs anything pre true true select (λ _, True) →
  (∀ s s1 v, pre s → select s = Ok tt s1 → SELECT_RESULT s1 = Some v →
             v ≠ "invalid" → P v) →
  (∀ v, P v → ends' false codes (chosen v) post) →
  post Continue → post (Return tt) →
  ends' true codes (select;; on_select (ret Continue) (ret (Return tt)) chosen) post.
Proof.
  intros Hsel HP Hchosen Hcont Hret s Hpre.
  specialize (Hsel s Hpre). specialize (HP s). unfold bind at 1.
  destruct (select s) as [[] s1|c s1|e s1|]; simpl in Hsel; [| | |done].
  - destruct Hsel as (Hf1 & Hlt1 & _). specialize (Hlt1 eq_refl).
    unfold on_select, bind, get. case_bool_decide as Hinv.
    { simpl. auto. }
    destruct (SELECT_RESULT s1) as [v|] eqn:Hres; [|simpl; auto].
    assert (Hv : P v) by (apply (HP s1 v); [done..|congruence]).
    eapply sat_mono; [apply (Hchosen v Hv s1); by eapply pre_follows|..].
    + intros a s2 (Hf2 & _ & Hpost). split; [by eapply follows_trans|].
      split; [|done]. intros _. pose proof (follows_stdin _ _ _ Hf2). lia.
    + intros c s2 (Hf2 & Hc). split; [by eapply follows_trans|done].
  - destruct Hsel as (Hf1 & Hnone). by specialize (Hnone eq_refl).
  - destruct Hsel as (Hf1 & Hnone). split; [done|]. by intros z.
Qed.

End EndsRules.

Section ExitStatus.

Context (s0 : state) (codes : Z → Prop) (checked : string → Prop).
Hypothesis codes_0 : codes 0%Z.
Hypothesis check_ends :
  ∀ v, checked v → ends (same_config s0) false codes (check_api_key v) (λ _, True).
Hypothesis offered_checked : ∀ v, v ∈ available_vendors s0 → checked v.

Abbreviation anything := (λ _ : event, True).
Abbreviation here := (same_config s0).
Abbreviation ends0 := (ends here).

Lemma here_follows s s' : here s → follows anything s s' → here s'.
Proof. apply pre_follows. Qed.

Lemma all_plain e : plain e → anything e.
Proof. done. Qed.

Lemma ends_plain {A} st (m : M A) post :
  runs anything here st true m post → ends0 st codes m post.
Proof. apply ends_of_runs. Qed.

Lemma vendor_menu_checked role_label s s1 v :
  here s → select_entity "vendor" role_label None s = Ok tt s1 →
  SELECT_RESULT s1 = Some v → v ≠ "invalid" →
  checked v ∨ (role_label = "Editor" ∧ v = "default").
Proof.
  intros Hpre Hsel Hres Hinv. rewrite select_vendor_unfold in Hsel.
  apply entity_menu_ok in Hsel as [_ Hcases].
  destruct Hcases as [?|[?|[(Hed & _ & Hdef)|(v' & Hv' & Hin)]]]; try congruence.
  - right. cbn [String.eqb Ascii.eqb Bool.eqb andb] in Hed.
    apply String.eqb_eq in Hed. split; congruence.
  - left. apply offered_checked. rewrite <- (available_same_config s0 s) by done.
    congruence.
Qed.

Lemma ends_vendor_step role_label :
  role_label ≠ "Editor" →
  ends0 true codes
    (select_entity "vendor" role_label None;;
     on_select (ret Continue) (ret (Return tt))
       (λ v, check_api_key v;; ret (Break v)))
    (λ _, True).
Proof.
  intros Hrole. apply (ends_step here codes here_follows _ _ checked); try done.
  - apply runs_select_vendor, all_plain.
  - intros s s1 v Hpre Hsel Hres Hinv.
    by destruct (vendor_menu_checked _ _ _ _ Hpre Hsel Hres Hinv) as [?|[? _]].
  - intros v Hv. eapply ends_seq_second; [apply here_follows|by apply check_ends|].
    intros _ _. by apply ends_ret.
Qed.

Lemma ends_model_step role_label vendor :
  ends0 true codes
    (select_entity "model" role_label (Some vendor);;
     on_select (ret Continue) (ret (Return tt)) (λ v, ret (Break v)))
    (λ _, True).
Proof.
  apply (ends_step here codes here_follows _ _ (λ _, True)); try done.
  - apply runs_select_model, all_plain.
  - intros v _. by apply ends_ret.
Qed.

Lemma ends_editor_vendor_step :
  ends0 true codes editor_vendor_step
    (λ c, match c with
          | Break v => checked v ∨ v = "default"
          | _ => True
          end).
Proof.
  apply (ends_step here codes here_follows _ _ (λ v, checked v ∨ v = "default"));
    try done.
  - apply runs_select_vendor, all_plain.
  - intros s s1 v Hpre Hsel Hres Hinv.
    destruct (vendor_menu_checked _ _ _ _ Hpre Hsel Hres Hinv) as [?|[_ ?]]; auto.
  - intros v Hv. by apply ends_ret.
Qed.

Lemma ends_loop {B R} (body : M (ctl B R)) (post : B → Prop) :
  ends0 true codes body
    (λ c, match c with Break b => post b | _ => True end) →
  ends0 true codes (while_true body)
    (λ x, match x with inl b => post b | inr _ => True end).
Proof.
  intros Hbody. apply ends_while; [apply here_follows|].
  eapply ends_weaken; [exact Hbody|done|]. by intros [| |].
Qed.

Lemma ends_format_loop mode main_vendor main_model editor_vendor editor_model :
  mode = "code" ∨ mode = "architect" →
  ends0 true codes
    (forever (format_launch_step mode main_vendor main_model editor_vendor editor_model))
    (λ _, True).
Proof. intros Hmode. eapply ends_of_runs. by apply runs_format_loop. Qed.

Lemma ends_model_loop role_label vendor :
  ends0 true codes
    (while_true
       (select_entity "model" role_label (Some vendor);;
        on_select (ret Continue) (ret (Return tt)) (λ v, ret (Break v))))
    (λ _, True).
Proof.
  eapply ends_weaken; [apply (ends_loop _ (λ _, True))|done|done].
  eapply ends_weaken; [apply (ends_model_step role_label vendor)|done|].
  by intros [| |].
Qed.

Lemma ends_vendor_loop role_label :
  role_label ≠ "Editor" →
  ends0 true codes
    (while_true
       (select_entity "vendor" role_label None;;
        on_select (ret Continue) (ret (Return tt))
          (λ v, check_api_key v;; ret (Break v))))
    (λ _, True).
Proof.
  intros Hrole.
  eapply ends_weaken; [apply (ends_loop _ (λ _, True))|done|done].
  eapply ends_weaken; [apply (ends_vendor_step role_label Hrole)|done|].
  by intros [| |].
Qed.

Lemma ends_run_code_mode : ends0 true codes run_code_mode (λ _, True).
Proof.
  unfold run_code_mode.
  eapply ends_after; [apply here_follows| | |done].
  { by apply (ends_vendor_loop "Code"). }
  intros main_vendor _.
  eapply ends_after; [apply here_follows| | |done].
  { apply (ends_model_loop "Code" main_vendor). }
  intros main_model _.
  by apply (ends_format_loop "code" main_vendor main_model None None); left.
Qed.

Lemma ends_editor_model_select editor_vendor :
  checked editor_vendor ∨ editor_vendor = "default" →
  ends0 false codes (editor_model_select editor_vendor) (λ _, True).
Proof.
  intros Hev. unfold editor_model_select.
  destruct (String.eqb editor_vendor "default") eqn:Hdef; [by apply ends_ret|].
  apply String.eqb_neq in Hdef. destruct Hev as [Hev|?]; [|done].
  eapply ends_seq_second; [apply here_follows|by apply check_ends|]. intros _ _.
  apply ends_relax. apply (ends_model_loop "Editor" editor_vendor).
Qed.

Lemma ends_run_architect_mode : ends0 true codes run_architect_mode (λ _, True).
Proof.
  unfold run_architect_mode.
  eapply ends_after; [apply here_follows| | |done].
  { by apply (ends_vendor_loop "Architect"). }
  intros main_vendor _.
  eapply ends_after; [apply here_follows| | |done].
  { apply (ends_model_loop "Architect" main_vendor). }
  intros main_model _.
  eapply ends_after; [apply here_follows| | |done].
  { apply (ends_loop _ (λ v, checked v ∨ v = "default")), ends_editor_vendor_step. }
  intros editor_vendor Hev.
  eapply ends_after with (st1 := false) (mid := λ _, True);
    [apply here_follows|by apply ends_editor_model_select| |done].
  intros editor_model _.
  by apply (ends_format_loop "architect" main_vendor main_model
              (Some editor_vendor) (Some editor_model)); right.
Qed.

Lemma ends_mode_step :
  ends0 true codes mode_step
    (λ c, match c with
          | Break mode => mode = "code" ∨ mode = "architect"
          | _ => True
          end).
Proof.
  unfold mode_step.
  eapply ends_seq_first with (mid := λ _, True); [apply here_follows| |].
  { apply ends_plain. unfold display_mode_selection_menu.
    eapply runs_seq_second; [by apply runs_say_plain|intros _ _].
    eapply runs_seq_second; [by apply runs_say_plain|intros _ _].
    eapply runs_seq_second; [by apply runs_say_plain|intros _ _].
    eapply runs_seq_second; [by apply runs_say_plain|intros _ _].
    eapply runs_seq_first; [apply runs_input|intros line _]. by apply runs_ret. }
  intros mode_choice _.
  destruct (String.eqb mode_choice "1"); [apply ends_ret; by left|].
  destruct (String.eqb mode_choice "2"); [apply ends_ret; by right|].
  destruct (String.eqb mode_choice "0").
  - eapply ends_seq_second; [apply here_follows| |intros _ _; by apply ends_sys_exit].
    apply ends_plain. by apply runs_say_plain.
  - apply ends_plain.
    eapply runs_seq_second; [by apply runs_say_plain|intros _ _].
    eapply runs_seq_second; [apply runs_relax, runs_input|intros _ _].
    by apply runs_ret.
Qed.

Lemma ends_main_step :
  ends0 true codes main_step
    (λ c, match c with Return _ => False | _ => True end).
Proof.
  unfold main_step.
  eapply ends_seq_first with (mid := λ mode, mode = "code" ∨ mode = "architect");
    [apply here_follows| |].
  { apply ends_until_break. apply ends_while; [apply here_follows|].
    eapply ends_weaken; [apply ends_mode_step|done|]. by intros [|b|[]]. }
  intros selected_mode Hmode.
  eapply ends_seq_second with (mid := λ _, True);
    [apply here_follows| |intros _ _; by apply ends_ret].
  destruct Hmode as [-> | ->]; cbn [String.eqb Ascii.eqb Bool.eqb].
  - apply ends_relax, ends_run_code_mode.
  - apply ends_relax, ends_run_architect_mode.
Qed.

Lemma ends_main_loop : ends0 true codes main_loop (λ _, False).
Proof. apply ends_forever; [apply here_follows|]. apply ends_main_step. Qed.

End ExitStatus.



(** X17.  With distinct vendor names and a keys file in which every value
    assigned is usable (not empty, no NUL), no check of a key can fail in the
    wizard: the only status [main] exits with is 0, after "Exit" was chosen in
    the mode menu.  (A value that is empty, or that cannot be put in the
    environment, leaves a vendor listed without a key, and choosing it ends
    the program with status 1.) *)
Theorem main_exits_zero_with_keys (c : config) (s : state) :
  NoDup (cfg_vendors c) →
  (∀ path lines, _find_keys_file s = Some path → files s !! path = Some lines →
                 Forall usable_value lines) →
  sat (main c s) (λ _ _, False) (λ code _, code = Some 0%Z ∨ code = None).
Proof.
  intros Hnd Hfile. unfold main.
  destruct (load_keys_ok (initialize_configuration c s)) as (Hok & _ & Hvs);
    [apply initialize_initialised|exact Hfile|].
  set (s1 := load_api_keys _) in *.
  assert (Hnd1 : NoDup (VENDORS s1)) by (by rewrite Hvs).
  assert (Hends : ends (same_config s1) true (λ z, z = 0%Z)
                    main_loop (λ _, False)).
  { apply (ends_main_loop s1 _ (λ v, v ∈ available_vendors s1)); [done| |done].
    intros v Hv s2 Hpre.
    rewrite (offered_pass s2 v).
    - simpl. split; [apply follows_refl|done].
    - by eapply keys_ok_same_config.
    - by rewrite (sc_VENDORS _ _ Hpre).
    - by rewrite (available_same_config s1 s2). }
  eapply sat_mono; [apply (Hends s1 (same_config_refl s1))|..].
  - by intros _ s' (_ & _ & ?).
  - intros code s' (_ & Hcode).
    destruct code as [z|]; [|auto]. left. f_equal. by apply Hcode.
Qed.

Lemma main_exits_zero_with_keys_witness :
  sat (main Ex.conf (Ex.boot ∅ Ex.keys_file Ex.aider_ok ["1"; "1"; "1"; "2"; EmptyString; "0"]))
    (λ _ _, False) (λ code _, code = Some 0%Z ∨ code = None).
Proof.
  apply main_exits_zero_with_keys.
  - apply (bool_decide_unpack _). by vm_compute.
  - intros path lines Hpath Hlines. vm_compute in Hpath.
    injection Hpath as <-. vm_compute in Hlines. injection Hlines as <-.
    repeat (apply Forall_cons; split;
              [intros var value; vm_compute; intros [= <- <-] || discriminate;
               by split|]).
    apply Forall_nil_2.
Defined.

(** A value with a NUL is not usable: OPENAI is listed without a key, and
    choosing it ends the program with status 1. *)
Example nul_value_exits_one :
  let bad := "OPENAI_API_KEY=a" +:+ String (ascii_of_nat 0) "b" in
  ∃ s', main Ex.conf (Ex.boot ∅ {[ "/home/op/.llm_api_keys" := [ bad ] ]}
                        Ex.aider_ok ["1"; "1"])
        = Exit 1 s'.
Proof. eexists. vm_compute. reflexivity. Qed.

(** ** What [launch_aider] returns *)

Section LaunchStatus.

Lemma spawned_app es1 es2 : spawned (es1 ++ es2) = spawned es1 ++ spawned es2.
Proof. apply omap_app. Qed.

Lemma commands_app es1 es2 : commands (es1 ++ es2) = commands es1 ++ commands es2.
Proof. apply omap_app. Qed.

(** Partial correctness of a loop, by an invariant. *)
Lemma while_fuel_inv {B R} (I : state → Prop) (Q : B + R → state → Prop)
    (body : M (ctl B R)) :
  (∀ s, I s →
     match body s with
     | Ok Continue s' => I s'
     | Ok (Break b) s' => Q (inl b) s'
     | Ok (Return r) s' => Q (inr r) s'
     | _ => True
     end) →
  ∀ n s r s', I s → while_fuel n body s = Ok r s' → Q r s'.
Proof.
  intros Hbody. induction n as [|n IH]; intros s r s' Hs; cbn [while_fuel]; [done|].
  specialize (Hbody s Hs).
  destruct (body s) as [[|b|r0] s1| | |]; try done.
  - by apply IH.
  - by intros [= <- <-].
  - by intros [= <- <-].
Qed.

(** One pass through the confirmation menu. *)
Lemma confirm_step_pass n title base fmt s :
  let cur := base ++ format_args fmt in
  match confirm_step n title base fmt s with
  | Ok c s' =>
      external s' = external s ∧ launches s' = launches s
      ∧ ∃ es, trace s' = trace s ++ es
              ∧ Forall (eq cur) (commands es)
              ∧ match c with
                | Continue => spawned es = []
                | Break _ => False
                | Return status => launch_outcome (external s) n cur status es
                end
  | _ => True
  end.
Proof.
  cbn zeta. unfold confirm_step. cbn zeta.
  set (cur := base ++ format_args fmt).
  unfold bind, say, input, get, ret. cbn [stdin emit].
  destruct (stdin s) as [|line rest]; [done|].
  set (choice := if String.eqb (Py.strip line) EmptyString then "1" else Py.strip line).
  cbn [stdin emit set_stdin external].
  destruct (String.eqb choice "1").
  - cbn beta iota. cbn [stdin emit set_stdin external].
    destruct (run_aider (external s) n cur) as [rc| |e] eqn:Hrun.
    + destruct (rc =? 0)%Z eqn:Hrc; cbn [negb].
      * apply Z.eqb_eq in Hrc as ->.
        split; [done|]. split; [done|]. eexists. split.
        { cbn [trace emit set_stdin]. rewrite <- !app_assoc. reflexivity. }
        split; [by repeat constructor|]. left. by repeat split.
      * apply Z.eqb_neq in Hrc.
        cbn [stdin emit set_stdin]. destruct rest as [|enter rest]; [done|].
        split; [done|]. split; [done|]. eexists. split.
        { cbn [trace emit set_stdin]. rewrite <- !app_assoc. reflexivity. }
        split; [by repeat constructor|]. right; left. split; [done|]. right.
        split; [done|]. rewrite Hrun. congruence.
    + cbn [stdin emit set_stdin]. destruct rest as [|enter rest]; [done|].
      split; [done|]. split; [done|]. eexists. split.
      { cbn [trace emit set_stdin]. rewrite <- !app_assoc. reflexivity. }
      split; [by repeat constructor|]. right; left. split; [done|]. right.
      split; [done|]. by rewrite Hrun.
    + cbn [stdin emit set_stdin]. destruct rest as [|enter rest]; [done|].
      split; [done|]. split; [done|]. eexists. split.
      { cbn [trace emit set_stdin]. rewrite <- !app_assoc. reflexivity. }
      split; [by repeat constructor|]. right; left. split; [done|]. right.
      split; [done|]. by rewrite Hrun.
  - destruct (String.eqb choice "2").
    { split; [done|]. split; [done|]. eexists. split.
      { cbn [trace emit set_stdin]. rewrite <- !app_assoc. reflexivity. }
      split; [by repeat constructor|]. right; right. by split. }
    destruct (String.eqb choice "0").
    { split; [done|]. split; [done|]. eexists. split.
      { cbn [trace emit set_stdin]. rewrite <- !app_assoc. reflexivity. }
      split; [by repeat constructor|]. right; left. split; [done|]. by left. }
    cbn [stdin emit set_stdin]. destruct rest as [|enter rest]; [done|].
    split; [done|]. split; [done|]. eexists. split.
    { cbn [trace emit set_stdin]. rewrite <- !app_assoc. reflexivity. }
    split; [by repeat constructor|done].
Qed.

Lemma at_most_said_config s s' : at_most_said s s' → same_config s s'.
Proof. by intros [-> | [line ->]]. Qed.

Lemma at_most_said_trace s s' :
  at_most_said s s' →
  ∃ es, trace s' = trace s ++ es ∧ spawned es = [] ∧ commands es = [].
Proof.
  intros [-> | [line ->]].
  - exists []. by rewrite app_nil_r.
  - by exists [Stderr line].
Qed.

End LaunchStatus.

(** X18.  The meaning of the status [launch_aider] returns, read off its
    trace.  Status 0: aider was run exactly once, with the command that was
    shown, and returned 0.  Status 2: nothing was run.  Status 1: nothing was
    run, or aider was run once with the command shown and failed.  Every
    command the call shows is the same one: the base command of the selection
    followed by the [--edit-format] pair of the format passed in. *)
Theorem launch_status (s : state) (mode main_vendor main_model : string)
    (editor_vendor editor_model selected_format : option string)
    (status : Z) (s' : state) :
  launch_aider mode main_vendor main_model editor_vendor editor_model
    selected_format s = Ok status s' →
  let cmd := launch_base s mode main_vendor main_model editor_vendor editor_model
             ++ format_args selected_format in
  launch_outcome (external s) (launches s) cmd status (added s s')
  ∧ Forall (eq cmd) (commands (added s s'))
  ∧ launches s' = S (launches s).
Proof.
  intros Hrun cmd.
  destruct (build_main_said main_vendor main_model s) as (a1 & s1 & H1 & Hs1).
  destruct (mode_args_said mode editor_vendor editor_model main_vendor s1)
    as (a2 & s2 & H2 & Hs2).
  destruct (at_most_said_trans_fields _ _ _ Hs1 Hs2) as (Hext & Hl & Hstdin).
  assert (Hbase : launch_base s mode main_vendor main_model editor_vendor editor_model
                  = (["aider"] ++ a1) ++ a2).
  { unfold launch_base. rewrite H1. cbn [value_of].
    rewrite <- app_assoc. do 2 f_equal.
    destruct (String.eqb mode "architect").
    - rewrite <- (build_architect_same_config s mode main_vendor main_model
                    editor_vendor editor_model _ _ _ s s1)
        by (by apply at_most_said_config).
      by rewrite H2.
    - by injection H2 as <- _. }
  assert (Htrace2 : ∃ es, trace s2 = trace s ++ es ∧ spawned es = []
                          ∧ commands es = []).
  { destruct (at_most_said_trace _ _ Hs1) as (e1 & Ht1 & Hsp1 & Hc1).
    destruct (at_most_said_trace _ _ Hs2) as (e2 & Ht2 & Hsp2 & Hc2).
    exists (e1 ++ e2). rewrite Ht2, Ht1, <- app_assoc, spawned_app, commands_app.
    by rewrite Hsp1, Hsp2, Hc1, Hc2. }
  destruct Htrace2 as (es2 & Ht2 & Hsp2 & Hc2).
  unfold launch_aider in Hrun. unfold bind at 1 in Hrun. rewrite H1 in Hrun.
  unfold bind at 1 in Hrun. rewrite H2 in Hrun.
  unfold bind, get in Hrun. cbn beta iota in Hrun.
  cbn [external set_launches] in Hrun. rewrite Hext, Hl in Hrun.
  subst cmd. rewrite Hbase.
  set (cmd := ((["aider"] ++ a1) ++ a2) ++ format_args selected_format).
  destruct (command_v (external s) (launches s)) as [rc| |e]; [|done..].
  destruct (negb (rc =? 0)%Z).
  - unfold say, input, ret in Hrun. cbn [stdin emit set_launches] in Hrun.
    destruct (stdin s2) as [|line rest]; [done|]. injection Hrun as <- <-.
    assert (Hadded : added s
              (set_stdin rest
                 (emit (Stderr "Please ensure 'aider-chat' is installed and in your PATH.")
                    (emit (Stderr (nl +:+ "Error: Aider command not found."))
                       (set_launches (S (launches s)) s2))))
            = es2 ++ [Stderr (nl +:+ "Error: Aider command not found.");
                      Stderr "Please ensure 'aider-chat' is installed and in your PATH."]).
    { apply added_app. cbn [trace emit set_stdin set_launches].
      rewrite Ht2. by rewrite <- !app_assoc. }
    rewrite Hadded. split; [|split; [|done]].
    + right; left. split; [done|]. left. by rewrite spawned_app, Hsp2.
    + rewrite commands_app, Hc2. constructor.
  - unfold forever, after in Hrun. unfold bind at 1 in Hrun.
    set (title := if String.eqb mode "architect" then TITLE_LAUNCH_ARCH
                  else TITLE_LAUNCH_CODE) in Hrun.
    set (s3 := set_launches (S (launches s)) s2) in Hrun.
    destruct (while_true _ s3) as [[[]|r] s4| | |] eqn:Hloop; try done.
    injection Hrun as <- <-.
    pose (I := λ x : state,
            external x = external s ∧ launches x = S (launches s)
            ∧ ∃ es, trace x = trace s ++ es ∧ spawned es = []
                    ∧ Forall (eq cmd) (commands es)).
    pose (Q := λ (r : Empty_set + Z) (x : state),
            match r with
            | inl _ => False
            | inr st =>
                launches x = S (launches s)
                ∧ ∃ es, trace x = trace s ++ es
                        ∧ launch_outcome (external s) (launches s) cmd st es
                        ∧ Forall (eq cmd) (commands es)
            end).
    assert (Hq : Q (inr r) s4).
    { unfold while_true in Hloop.
      eapply (while_fuel_inv I Q); [|instantiate (1 := s3)|exact Hloop].
      - intros x (Hx1 & Hx2 & es & Hx3 & Hx4 & Hx5).
        pose proof (confirm_step_pass (launches s) title ((["aider"] ++ a1) ++ a2)
                      selected_format x) as Hpass.
        cbn zeta in Hpass. fold cmd in Hpass.
        destruct (confirm_step _ _ _ _ x) as [[|[]|st] x'| | |]; try done.
        + destruct Hpass as (He & Hl' & es' & Ht' & Hc' & Hs').
          split; [congruence|]. split; [congruence|].
          exists (es ++ es'). split; [by rewrite Ht', Hx3, <- app_assoc|].
          rewrite spawned_app, commands_app, Hx4, Hs'.
          split; [done|by apply Forall_app].
        + destruct Hpass as (He & Hl' & es' & Ht' & Hc' & Hs').
          split; [congruence|].
          exists (es ++ es'). split; [by rewrite Ht', Hx3, <- app_assoc|].
          rewrite commands_app. split; [|by apply Forall_app].
          rewrite Hx1 in Hs'. unfold launch_outcome in *.
          rewrite spawned_app, Hx4. exact Hs'.
      - split; [done|]. split; [done|]. exists es2.
        split; [done|]. split; [done|]. rewrite Hc2. constructor. }
    destruct Hq as (Hlaunch & es & Ht & Hout & Hcmds).
    rewrite (added_app s s4 es Ht). done.
Qed.

Lemma launch_status_witness :
  let s := Ex.session {[ "OPENAI_API_KEY" := "sk-env" ]} ∅ Ex.aider_ok [EmptyString] in
  ∃ status s',
    launch_aider "code" "OPENAI" "gpt-4o" None None (Some "diff") s = Ok status s'
    ∧ launch_outcome (external s) (launches s)
        (launch_base s "code" "OPENAI" "gpt-4o" None None ++ format_args (Some "diff"))
        status (added s s').
Proof.
  intros s.
  destruct (launch_aider "code" "OPENAI" "gpt-4o" None None (Some "diff") s)
    as [status s'| | |] eqn:Hrun; try (vm_compute in Hrun; discriminate).
  exists status, s'. split; [reflexivity|].
  by destruct (launch_status s "code" "OPENAI" "gpt-4o" None None (Some "diff")
                 status s' Hrun) as [Hout _].
Defined.

(** ** The configuration file *)

Section Validation.

Lemma filter_nil_iff {A} (f : A → bool) (l : list A) :
  (length (List.filter f l) =? 0) = true ↔ Forall (λ x, f x = false) l.
Proof.
  induction l as [|x l IH]; cbn [List.filter].
  - split; [constructor|done].
  - destruct (f x) eqn:Hx; cbn [length Nat.eqb].
    + split; [done|]. intros [Hfx _]%Forall_cons. congruence.
    + rewrite IH. split; [by constructor|by intros [_ ?]%Forall_cons].
Qed.

Lemma app_not_nil {A} (l : list A) x : (length (l ++ [x]) =? 0) = false.
Proof. rewrite length_app. cbn. apply Nat.eqb_neq. lia. Qed.

(** A test that does not stop either found its field, of the right kind,
    or recorded it as missing. *)
Lemma check_field_inr config field kind e missing missing' :
  check_field config field kind e missing = inr missing' →
  (missing' = missing
   ∧ ∃ x, PyJson.getitem config field = Some x ∧ kind x = true)
  ∨ missing' = missing ++ [field].
Proof.
  unfold check_field.
  destruct (PyJson.contains field config) as [[]|]; [| |done].
  - destruct (PyJson.getitem config field) as [x|]; [|done].
    destruct (kind x) eqn:Hk; [|done]. intros [= <-]. left. eauto.
  - intros [= <-]. by right.
Qed.

Lemma check_formats_inr edit_formats name missing missing' :
  check_formats edit_formats name missing = inr missing' →
  (missing' = missing
   ∧ ∃ l, edit_formats !! name = Some (JList l) ∧ l ≠ [])
  ∨ missing' = missing ++ ["edit_formats." +:+ name].
Proof.
  unfold check_formats.
  destruct (edit_formats !! name) as [x|]; [|intros [= <-]; by right].
  destruct x as [| | | | |l|]; try done. cbn [PyJson.is_list PyJson.truthy negb].
  destruct l as [|y l]; [done|]. intros [= <-]. left. split; [done|]. by eexists.
Qed.

Lemma check_edit_formats_inr config missing missing' :
  check_edit_formats config missing = inr missing' →
  (missing' = missing
   ∧ ∃ edit_formats code architect,
       PyJson.getitem config "edit_formats" = Some (JDict edit_formats)
       ∧ edit_formats !! "code" = Some (JList code) ∧ code ≠ []
       ∧ edit_formats !! "architect" = Some (JList architect) ∧ architect ≠ [])
  ∨ ∃ field, missing' = missing ++ [field]
  ∨ ∃ field1 field2, missing' = (missing ++ [field1]) ++ [field2].
Proof.
  unfold check_edit_formats.
  destruct (PyJson.contains "edit_formats" config) as [[]|]; [| |done].
  - destruct (PyJson.getitem config "edit_formats") as [x|]; [|done].
    destruct x as [| | | | | |edit_formats]; try done.
    destruct (check_formats edit_formats "code" missing) as [|m1] eqn:H1; [done|].
    intros H2.
    apply check_formats_inr in H1 as [(-> & code & Hcode & Hne1)| ->];
      apply check_formats_inr in H2 as [(-> & arch & Harch & Hne2)| ->].
    + left. split; [done|]. exists edit_formats, code, arch. by repeat split.
    + right. eexists. by left.
    + right. eexists. by left.
    + right. exists EmptyString. right. by do 2 eexists.
  - intros [= <-]. right. eexists. by left.
Qed.

Lemma getitem_dict config field x :
  PyJson.getitem config field = Some x → ∃ d, config = JDict d ∧ d !! field = Some x.
Proof. destruct config; try done. simpl. eauto. Qed.

Lemma is_list_true x : PyJson.is_list x = true → ∃ l, x = JList l.
Proof. destruct x; try done. eauto. Qed.

Lemma is_dict_true x : PyJson.is_dict x = true → ∃ d, x = JDict d.
Proof. destruct x; try done. eauto. Qed.

Lemma vendor_tests vendors models :
  Forall (λ v, negb (PyJson.is_key models v) = false) vendors →
  Forall (λ v, negb (PyJson.truthy (PyJson.get models v)) = false) vendors →
  Forall (vendor_with_models models) vendors.
Proof.
  intros Hkey Htrue. apply Forall_forall. intros v Hv.
  eapply Forall_forall in Hkey; [|exact Hv]. eapply Forall_forall in Htrue; [|exact Hv].
  apply negb_false_iff in Hkey, Htrue.
  destruct v as [| | | |name| |]; try done. simpl in Hkey, Htrue.
  apply bool_decide_eq_true in Hkey as [m Hm]. rewrite Hm in Htrue.
  by exists name, m.
Qed.

Lemma vendor_with_models_tests models v :
  vendor_with_models models v →
  PyJson.hashable v = true ∧ negb (PyJson.is_key models v) = false
  ∧ negb (PyJson.truthy (PyJson.get models v)) = false.
Proof.
  intros (name & m & -> & Hm & Ht).
  cbn [PyJson.hashable PyJson.is_key PyJson.get]. rewrite Hm. cbn [default].
  split; [done|]. split.
  - apply negb_false_iff, bool_decide_eq_true. by eexists.
  - unfold id. by rewrite Ht.
Qed.

Lemma check_vendor_models_valid config :
  check_vendor_models config = Valid →
  ∃ d vendors models,
    config = JDict d ∧ d !! "vendors" = Some (JList vendors)
    ∧ d !! "models" = Some (JDict models)
    ∧ Forall (vendor_with_models models) vendors.
Proof.
  unfold check_vendor_models.
  destruct (PyJson.getitem config "vendors") as [x|] eqn:Hv; [|done].
  destruct x as [| | | | |vendors|]; try done.
  destruct (PyJson.getitem config "models") as [y|] eqn:Hm; [|done].
  destruct y as [| | | | | |models]; try done.
  destruct (forallb PyJson.hashable vendors); [|done]. cbn [negb].
  destruct (length (List.filter _ vendors) =? 0) eqn:H1; [|done]. cbn [negb].
  destruct (length (List.filter (λ v, negb (PyJson.truthy _)) vendors) =? 0) eqn:H2;
    [|done].
  intros _. apply filter_nil_iff in H1, H2.
  apply getitem_dict in Hv as (d & -> & Hv). simpl in Hm.
  exists d, vendors, models. repeat split; try done. by apply vendor_tests.
Qed.

Lemma check_field_inl config field kind e missing v :
  check_field config field kind e missing = inl v → v ≠ Valid.
Proof. unfold check_field. repeat case_match; by intros [= <-]. Qed.

Lemma check_formats_inl edit_formats name missing v :
  check_formats edit_formats name missing = inl v → v ≠ Valid.
Proof. unfold check_formats. repeat case_match; by intros [= <-]. Qed.

Lemma check_edit_formats_inl config missing v :
  check_edit_formats config missing = inl v → v ≠ Valid.
Proof.
  unfold check_edit_formats.
  destruct (PyJson.contains "edit_formats" config) as [[]|];
    [|done|by intros [= <-]].
  destruct (PyJson.getitem config "edit_formats") as [x|]; [|by intros [= <-]].
  destruct x as [| | | | | |edit_formats]; try by intros [= <-].
  destruct (check_formats edit_formats "code" missing) as [v1|m1] eqn:H1.
  - intros [= <-]. by eapply check_formats_inl.
  - apply check_formats_inl.
Qed.

Lemma validate_valid config : validate_json_structure config = Valid → well_formed config.
Proof.
  unfold validate_json_structure. intros Hvalid.
  destruct (check_field config "vendors" _ _ []) as [v1|m1] eqn:H1;
    [by apply check_field_inl in H1|].
  destruct (check_field config "models" _ _ m1) as [v2|m2] eqn:H2;
    [by apply check_field_inl in H2|].
  destruct (check_edit_formats config m2) as [v3|m3] eqn:H3;
    [by apply check_edit_formats_inl in H3|].
  destruct (length m3 =? 0) eqn:Hlen; cbn [negb] in Hvalid; [|done].
  apply check_vendor_models_valid in Hvalid
    as (d & vendors & models & -> & Hv & Hm & Hall).
  apply check_edit_formats_inr in H3
    as [(_ & ef & code & arch & Hef & Hcode & Hne1 & Harch & Hne2)
       |(f & [->|(f1 & f2 & ->)])];
    [|by rewrite app_not_nil in Hlen..].
  exists d, vendors, models, ef, code, arch. by repeat split.
Qed.

Lemma check_vendor_models_ok d vendors models :
  d !! "vendors" = Some (JList vendors) → d !! "models" = Some (JDict models) →
  Forall (vendor_with_models models) vendors →
  check_vendor_models (JDict d) = Valid.
Proof.
  intros Hv Hm Hall. unfold check_vendor_models. cbn [PyJson.getitem].
  rewrite Hv, Hm.
  assert (forallb PyJson.hashable vendors = true) as ->.
  { apply forallb_forall. intros v Hin%list_elem_of_In.
    eapply Forall_forall in Hall; [|exact Hin].
    by apply vendor_with_models_tests in Hall as (? & _). }
  cbn [negb].
  assert ((length (List.filter (λ v, negb (PyJson.is_key models v)) vendors) =? 0)
          = true) as ->.
  { apply filter_nil_iff. eapply Forall_impl; [exact Hall|].
    intros v Hvm. by apply vendor_with_models_tests in Hvm as (_ & ? & _). }
  cbn [negb].
  assert ((length (List.filter
                     (λ v, negb (PyJson.truthy (PyJson.get models v))) vendors) =? 0)
          = true) as ->.
  { apply filter_nil_iff. eapply Forall_impl; [exact Hall|].
    intros v Hvm. by apply vendor_with_models_tests in Hvm as (_ & _ & ?). }
  done.
Qed.

Lemma well_formed_valid config : well_formed config → validate_json_structure config = Valid.
Proof.
  intros (d & vendors & models & ef & code & arch & -> & Hv & Hm & Hef
          & Hcode & Hne1 & Harch & Hne2 & Hall).
  unfold validate_json_structure, check_field, check_edit_formats, check_formats.
  cbn [PyJson.contains PyJson.getitem]. rewrite Hv, Hm, Hef.
  rewrite !bool_decide_eq_true_2 by done.
  cbn [PyJson.is_list PyJson.is_dict]. rewrite Hcode, Harch.
  cbn [PyJson.is_list PyJson.truthy negb].
  destruct code as [|c1 code]; [done|]. destruct arch as [|a1 arch]; [done|].
  cbn [length Nat.eqb negb]. by eapply check_vendor_models_ok.
Qed.

End Validation.

(** X19.  The documents [validate_json_structure] accepts, exactly: a JSON
    object whose "vendors" is an array, whose "models" is an object and
    whose "edit_formats" is an object with non-empty arrays "code" and
    "architect", and in which every vendor is a string that has an entry in
    "models" that is not empty.  Everything else is reported with exit
    status 1 or raises.  An empty "vendors" array is accepted, and nothing
    makes a model entry an array of strings: any non-empty value passes. *)
Theorem validate_accepts_exactly (config : json) :
  validate_json_structure config = Valid ↔ well_formed config.
Proof. split; [apply validate_valid|apply well_formed_valid]. Qed.

(** Two documents that pass: one without vendors, and one whose model
    entry is a string instead of an array. *)
Example validate_accepts_odd_documents :
  let formats : json :=
    JDict {[ "code" := JList [JStr "whole"]; "architect" := JList [JStr "editor-whole"] ]} in
  validate_json_structure
    (JDict {[ "vendors" := JList []; "models" := JDict ∅; "edit_formats" := formats ]})
  = Valid
  ∧ validate_json_structure
      (JDict {[ "vendors" := JList [JStr "OPENAI"];
                "models" := JDict {[ "OPENAI" := JStr "gpt-4o" ]};
                "edit_formats" := formats ]})
    = Valid.
Proof.
  intros formats. split; apply well_formed_valid.
  - exists {[ "vendors" := JList []; "models" := JDict ∅; "edit_formats" := formats ]},
      [], ∅, {[ "code" := JList [JStr "whole"];
                "architect" := JList [JStr "editor-whole"] ]},
      [JStr "whole"], [JStr "editor-whole"].
    repeat split; done.
  - exists {[ "vendors" := JList [JStr "OPENAI"];
              "models" := JDict {[ "OPENAI" := JStr "gpt-4o" ]};
              "edit_formats" := formats ]},
      [JStr "OPENAI"], {[ "OPENAI" := JStr "gpt-4o" ]},
      {[ "code" := JList [JStr "whole"];
         "architect" := JList [JStr "editor-whole"] ]},
      [JStr "whole"], [JStr "editor-whole"].
    repeat split; try done.
    constructor; [|constructor]. exists "OPENAI", (JStr "gpt-4o"). by repeat split.
Qed.

Section ValidationRaises.

Lemma check_field_dict_inl d field kind e missing v :
  check_field (JDict d) field kind e missing = inl v → v = Invalid e.
Proof.
  unfold check_field. cbn [PyJson.contains PyJson.getitem].
  case_bool_decide as Hsome; [|done].
  destruct Hsome as [x ->]. by destruct (kind x); intros [= <-].
Qed.

Lemma check_formats_inl_invalid edit_formats name missing v :
  check_formats edit_formats name missing = inl v → ∃ e, v = Invalid e.
Proof. unfold check_formats. repeat case_match; intros [= <-]; eauto. Qed.

Lemma check_edit_formats_dict_inl d missing v :
  check_edit_formats (JDict d) missing = inl v → ∃ e, v = Invalid e.
Proof.
  unfold check_edit_formats. cbn [PyJson.contains PyJson.getitem].
  case_bool_decide as Hsome; [|done].
  destruct Hsome as [x ->].
  destruct x as [| | | | | |edit_formats]; try (intros [= <-]; eauto).
  destruct (check_formats edit_formats "code" missing) as [v1|m1] eqn:H1.
  - intros [= <-]. by eapply check_formats_inl_invalid.
  - apply check_formats_inl_invalid.
Qed.

Lemma forallb_false {A} (f : A → bool) (l : list A) :
  forallb f l = false → Exists (λ x, f x = false) l.
Proof.
  induction l as [|x l IH]; [done|]. cbn [forallb].
  destruct (f x) eqn:Hx; [|by left]. intros Hl. right. by apply IH.
Qed.

Lemma snoc_not_nil {A} (l : list A) x : [] ≠ l ++ [x].
Proof. by destruct l. Qed.

End ValidationRaises.

(** X20.  On a document that is a JSON object, [validate_json_structure]
    raises in one case only: "vendors" is an array that holds an array or an
    object, which cannot be looked up in "models".  Every other defect of an
    object is reported and ends with exit status 1. *)
Theorem validate_raises_on_object (d : gmap string json) :
  validate_json_structure (JDict d) = Raises →
  ∃ vendors, d !! "vendors" = Some (JList vendors)
             ∧ Exists (λ v, PyJson.hashable v = false) vendors.
Proof.
  unfold validate_json_structure. intros Hraises.
  destruct (check_field (JDict d) "vendors" _ _ []) as [v1|m1] eqn:H1;
    [by apply check_field_dict_inl in H1; subst|].
  destruct (check_field (JDict d) "models" _ _ m1) as [v2|m2] eqn:H2;
    [by apply check_field_dict_inl in H2; subst|].
  destruct (check_edit_formats (JDict d) m2) as [v3|m3] eqn:H3;
    [by apply check_edit_formats_dict_inl in H3 as [e ->]|].
  destruct (length m3 =? 0) eqn:Hlen; cbn [negb] in Hraises; [|done].
  apply Nat.eqb_eq, nil_length_inv in Hlen. subst m3.
  apply check_edit_formats_inr in H3 as [(Hm2 & _)|(f & [Hm|(f1 & f2 & Hm)])];
    [|by apply snoc_not_nil in Hm..].
  symmetry in Hm2. subst m2.
  apply check_field_inr in H2 as [(Hm1 & y & Hy & Hy')|Hm];
    [|by apply snoc_not_nil in Hm].
  symmetry in Hm1. subst m1.
  apply check_field_inr in H1 as [(_ & x & Hx & Hx')|Hm];
    [|by apply snoc_not_nil in Hm].
  cbn [PyJson.getitem] in Hx, Hy.
  apply is_list_true in Hx' as [vendors ->]. apply is_dict_true in Hy' as [models ->].
  exists vendors. split; [done|].
  unfold check_vendor_models in Hraises. cbn [PyJson.getitem] in Hraises.
  rewrite Hx, Hy in Hraises.
  destruct (forallb PyJson.hashable vendors) eqn:Hall.
  - cbn [negb] in Hraises. by repeat case_match.
  - by apply forallb_false.
Qed.

Lemma validate_raises_on_object_witness :
  let d : gmap string json :=
    {[ "vendors" := JList [JList []]; "models" := JDict ∅;
       "edit_formats" :=
         JDict {[ "code" := JList [JStr "whole"];
                  "architect" := JList [JStr "editor-whole"] ]} ]} in
  ∃ vendors, d !! "vendors" = Some (JList vendors)
             ∧ Exists (λ v, PyJson.hashable v = false) vendors.
Proof.
  intros d. apply validate_raises_on_object. by vm_compute.
Defined.
